(** * A shallow embedding of [backend/server.py]

    The development models the local preview backend of
    sn-itil-bsm-discovery: the request handler [BackendHandler]
    ([_send_json], [do_GET]), the command line ([parse_args]) and the
    start-up routine ([main]), together with the parts of the Python
    standard library whose behaviour the handler relies on ([json],
    [urllib.parse.urlparse], [pathlib], UTF-8 text files and the
    [socketserver] request loop).

    Conventions.  A Python [str] is a list of Unicode code points ([N]),
    a [bytes] object a list of [byte]s, a Python [int] an unbounded [Z].
    An exception is an explicit [Raise] result.  The interpreter's
    resource limits (the recursion limit, the limit on the number of
    digits of an [int]) are parameters of the interpreter ([PyLib]).
    [json.dumps] and [json.loads] are given twice: [dumps] and [loads]
    are the text and the value they define where no limit is met, which
    is what a client with room to spare computes; [json_dumps] and
    [json_loads] are the calls as the server makes them, which raise
    [RecursionError] and [ValueError] at the limits.  A client may hang
    up before its response is written, and what is not one of the two
    API paths goes to the static file handler of the library, which
    opens files of its own.  The standard library is followed in the version shipped with CPython 3.11; where
    the pure-Python module and its C accelerator differ (digits and
    hexadecimal escapes restricted to ASCII) the accelerator, which is
    what CPython runs, is followed. *)

From Stdlib Require Import ZArith NArith List Bool String Ascii Lia.
From Stdlib Require Import Strings.Byte DecimalFacts DecimalPos DecimalN DecimalZ.
Import ListNotations.

Set Implicit Arguments.

(** ** Text, bytes and exceptions *)

Definition text := list N.

Definition str (s : string) : text :=
  map N_of_ascii (list_ascii_of_string s).

Definition bytes := list byte.

Fixpoint text_eqb (a b : text) : bool :=
  match a, b with
  | [], [] => true
  | x :: a', y :: b' => N.eqb x y && text_eqb a' b'
  | _, _ => false
  end.

(** [strip_prefix p s] is [Some r] when [s = p ++ r]: the test
    [s[idx:idx + len(p)] == p] of the scanner, returning what follows. *)
Fixpoint strip_prefix (p s : text) : option text :=
  match p, s with
  | [], _ => Some s
  | x :: p', y :: s' => if N.eqb x y then strip_prefix p' s' else None
  | _ :: _, [] => None
  end.

Inductive exn : Type :=
| StopIteration
| JSONDecodeError
| RecursionError
| UnicodeDecodeError
| UnicodeEncodeError
| IsADirectoryError
| ValueError
| OSError
| BrokenPipeError
| KeyboardInterrupt
| SystemExit (code : Z).

Inductive result (A : Type) : Type :=
| Ok (a : A)
| Raise (e : exn).
Arguments Ok {A} a.
Arguments Raise {A} e.

Definition bind {A B} (r : result A) (k : A -> result B) : result B :=
  match r with
  | Ok a => k a
  | Raise e => Raise e
  end.

Notation "x <- e ;; k" := (bind e (fun x => k))
  (at level 61, e at next level, right associativity).
Notation "' p <- e ;; k" := (bind e (fun x => let p := x in k))
  (at level 61, p pattern, e at next level, right associativity).

(** A loop that collects results and stops at the first exception *)
Fixpoint mapM {A B} (f : A -> result B) (l : list A) : result (list B) :=
  match l with
  | [] => Ok []
  | a :: l' => b <- f a ;; bs <- mapM f l' ;; Ok (b :: bs)
  end.

(** ** Characters used by the lexers *)

Local Open Scope N_scope.

Abbreviation c_tab := 9 (only parsing).
Abbreviation c_lf := 10 (only parsing).
Abbreviation c_cr := 13 (only parsing).
Abbreviation c_space := 32 (only parsing).
Abbreviation c_quote := 34 (only parsing).
Abbreviation c_hash := 35 (only parsing).
Abbreviation c_plus := 43 (only parsing).
Abbreviation c_comma := 44 (only parsing).
Abbreviation c_minus := 45 (only parsing).
Abbreviation c_dot := 46 (only parsing).
Abbreviation c_slash := 47 (only parsing).
Abbreviation c_0 := 48 (only parsing).
Abbreviation c_9 := 57 (only parsing).
Abbreviation c_colon := 58 (only parsing).
Abbreviation c_semi := 59 (only parsing).
Abbreviation c_question := 63 (only parsing).
Abbreviation c_E := 69 (only parsing).
Abbreviation c_lbracket := 91 (only parsing).
Abbreviation c_backslash := 92 (only parsing).
Abbreviation c_rbracket := 93 (only parsing).
Abbreviation c_e := 101 (only parsing).
Abbreviation c_u := 117 (only parsing).
Abbreviation c_lbrace := 123 (only parsing).
Abbreviation c_rbrace := 125 (only parsing).

Definition is_digit (c : N) : bool := (c_0 <=? c) && (c <=? c_9).

Definition is_surrogate (c : N) : bool := (0xd800 <=? c) && (c <=? 0xdfff).

(** ** [int.__repr__] and [str(int)]: decimal digits *)

Fixpoint uint_chars (d : Decimal.uint) : text :=
  match d with
  | Decimal.Nil => []
  | Decimal.D0 d => 48 :: uint_chars d
  | Decimal.D1 d => 49 :: uint_chars d
  | Decimal.D2 d => 50 :: uint_chars d
  | Decimal.D3 d => 51 :: uint_chars d
  | Decimal.D4 d => 52 :: uint_chars d
  | Decimal.D5 d => 53 :: uint_chars d
  | Decimal.D6 d => 54 :: uint_chars d
  | Decimal.D7 d => 55 :: uint_chars d
  | Decimal.D8 d => 56 :: uint_chars d
  | Decimal.D9 d => 57 :: uint_chars d
  end.

Definition int_repr (z : Z) : text :=
  match Z.to_int z with
  | Decimal.Pos d => uint_chars d
  | Decimal.Neg d => c_minus :: uint_chars d
  end.

(** The converse, on a run of ASCII digits (any other character counts
    as the end of the run). *)
Fixpoint chars_uint (s : text) : Decimal.uint :=
  match s with
  | [] => Decimal.Nil
  | c :: r =>
    match c with
    | 48 => Decimal.D0 (chars_uint r)
    | 49 => Decimal.D1 (chars_uint r)
    | 50 => Decimal.D2 (chars_uint r)
    | 51 => Decimal.D3 (chars_uint r)
    | 52 => Decimal.D4 (chars_uint r)
    | 53 => Decimal.D5 (chars_uint r)
    | 54 => Decimal.D6 (chars_uint r)
    | 55 => Decimal.D7 (chars_uint r)
    | 56 => Decimal.D8 (chars_uint r)
    | 57 => Decimal.D9 (chars_uint r)
    | _ => Decimal.Nil
    end
  end.

(** [int(lit)] for a literal matched by the integer part of the JSON
    number grammar: an optional minus sign and ASCII digits. *)
Definition int_of_literal (lit : text) : Z :=
  match lit with
  | c :: ds =>
    if c =? c_minus then Z.of_int (Decimal.Neg (chars_uint ds))
    else Z.of_int (Decimal.Pos (chars_uint lit))
  | [] => 0%Z
  end.

(** ** The interpreter's [float]

    Binary floating point is not modelled: the type of floats, the
    conversion [float(s)] of a literal and the text the JSON encoder
    prints for a float ([floatstr]: [NaN], [Infinity], [-Infinity] or
    [float.__repr__]) are an interface. *)

Class PyFloat : Type := {
  pyfloat : Type;
  float : text -> pyfloat;
  float_repr : pyfloat -> text
}.

(** ** Python objects that [json] reads and writes

    [JDict] is a [dict] with [str] keys: an association list in
    insertion order whose keys are pairwise distinct. *)

Section Json.
Context {PF : PyFloat}.

Unset Elimination Schemes.
Inductive json : Type :=
| JNull
| JBool (b : bool)
| JInt (z : Z)
| JFloat (f : pyfloat)
| JString (s : text)
| JList (l : list json)
| JDict (d : list (text * json)).
Set Elimination Schemes.

(** [d[key] = value] on an insertion-ordered [dict]. *)
Fixpoint dict_set (d : list (text * json)) (key : text) (value : json)
  : list (text * json) :=
  match d with
  | [] => [(key, value)]
  | (k, v) :: d' =>
    if text_eqb k key then (k, value) :: d'
    else (k, v) :: dict_set d' key value
  end.

(** [dict(pairs)] *)
Definition dict_of_pairs (pairs : list (text * json)) : list (text * json) :=
  fold_left (fun d kv => dict_set d (fst kv) (snd kv)) pairs [].

Fixpoint dict_get (d : list (text * json)) (key : text) : option json :=
  match d with
  | [] => None
  | (k, v) :: d' => if text_eqb k key then Some v else dict_get d' key
  end.

(** ** [json.encoder]: [json.dumps(payload, indent=2)]

    The text [json.dumps] returns when it returns one.  The call of the
    server, which can fail, is [json_dumps] below. *)

Definition hexdigit (d : N) : N := if d <? 10 then 48 + d else 87 + d.

(** ['{0:04x}'.format(n)] for [n < 0x10000] *)
Definition hex4 (n : N) : text :=
  [hexdigit (n / 4096 mod 16); hexdigit (n / 256 mod 16);
   hexdigit (n / 16 mod 16); hexdigit (n mod 16)].

Definition u_escape (n : N) : text := c_backslash :: c_u :: hex4 n.

(** The replacement [py_encode_basestring_ascii] makes for one character:
    [ESCAPE_DCT] for the backslash, the quote and the control characters,
    the character itself between space and tilde, a [\uXXXX] escape or a
    surrogate pair of escapes otherwise. *)
Definition escape_char (c : N) : text :=
  if c =? c_backslash then [c_backslash; c_backslash]
  else if c =? c_quote then [c_backslash; c_quote]
  else if c =? 8 then [c_backslash; 98]
  else if c =? 12 then [c_backslash; 102]
  else if c =? c_lf then [c_backslash; 110]
  else if c =? c_cr then [c_backslash; 114]
  else if c =? c_tab then [c_backslash; 116]
  else if (c_space <=? c) && (c <=? 126) then [c]
  else if c <? 0x10000 then u_escape c
  else
    let n := c - 0x10000 in
    let s1 := N.lor 0xd800 (N.land (N.shiftr n 10) 0x3ff) in
    let s2 := N.lor 0xdc00 (N.land n 0x3ff) in
    u_escape s1 ++ u_escape s2.

Definition encode_basestring_ascii (s : text) : text :=
  c_quote :: flat_map escape_char s ++ [c_quote].

(** ['\n' + _indent * _current_indent_level] with [_indent = ' ' * 2] *)
Definition newline_indent (level : nat) : text :=
  c_lf :: repeat c_space (2 * level).

(** The chunks of a container, the first after [newline_indent] and each
    further one after [_item_separator + newline_indent]. *)
Fixpoint join_chunks (separator : text) (chunks : list text) : text :=
  match chunks with
  | [] => []
  | [c] => c
  | c :: cs => c ++ separator ++ join_chunks separator cs
  end.

Fixpoint _iterencode (o : json) (level : nat) {struct o} : text :=
  match o with
  | JString s => encode_basestring_ascii s
  | JNull => str "null"
  | JBool true => str "true"
  | JBool false => str "false"
  | JInt z => int_repr z
  | JFloat f => float_repr f
  | JList [] => str "[]"
  | JList lst =>
    c_lbracket :: newline_indent (S level)
      ++ join_chunks (c_comma :: newline_indent (S level))
           (map (fun value => _iterencode value (S level)) lst)
      ++ newline_indent level ++ [c_rbracket]
  | JDict [] => str "{}"
  | JDict dct =>
    c_lbrace :: newline_indent (S level)
      ++ join_chunks (c_comma :: newline_indent (S level))
           (map (fun '(key, value) =>
                   encode_basestring_ascii key ++ str ": "
                     ++ _iterencode value (S level)) dct)
      ++ newline_indent level ++ [c_rbrace]
  end.

Definition dumps (payload : json) : text := _iterencode payload 0.

(** ** [json.decoder] and [json.scanner]: [json.load]

    The value a text denotes for [json.loads]: the scanner with no limit
    on nesting or on the digits of an integer.  The call of the server,
    under the limits, is [json_loads] below. *)

Definition is_ws (c : N) : bool :=
  (c =? c_space) || (c =? c_tab) || (c =? c_lf) || (c =? c_cr).

(** [WHITESPACE.match(s, end).end()] *)
Fixpoint skip_ws (s : text) : text :=
  match s with
  | c :: r => if is_ws c then skip_ws r else s
  | [] => []
  end.

Definition hexval (c : N) : option N :=
  if is_digit c then Some (c - 48)
  else if (97 <=? c) && (c <=? 102) then Some (c - 87)
  else if (65 <=? c) && (c <=? 70) then Some (c - 55)
  else None.

(** [_decode_uXXXX] on the four characters after [\u] *)
Definition decode_hex4 (h1 h2 h3 h4 : N) : option N :=
  match hexval h1, hexval h2, hexval h3, hexval h4 with
  | Some a, Some b, Some c, Some d => Some (4096 * a + 256 * b + 16 * c + d)
  | _, _, _, _ => None
  end.

Definition is_high_surrogate (c : N) : bool := (0xd800 <=? c) && (c <=? 0xdbff).
Definition is_low_surrogate (c : N) : bool := (0xdc00 <=? c) && (c <=? 0xdfff).

Definition join_surrogates (uni uni2 : N) : N :=
  0x10000 + N.lor (N.shiftl (uni - 0xd800) 10) (uni2 - 0xdc00).

(** The [BACKSLASH] table *)
Definition BACKSLASH (esc : N) : option N :=
  if esc =? c_quote then Some c_quote
  else if esc =? c_backslash then Some c_backslash
  else if esc =? c_slash then Some c_slash
  else if esc =? 98 then Some 8
  else if esc =? 102 then Some 12
  else if esc =? 110 then Some c_lf
  else if esc =? 114 then Some c_cr
  else if esc =? 116 then Some c_tab
  else None.

Definition starts_with_backslash_u (s : text) : bool :=
  match s with
  | b :: u :: _ => (b =? c_backslash) && (u =? c_u)
  | _ => false
  end.

Definition cons_char (c : N) (r : result (text * text)) : result (text * text) :=
  '(chars, rest) <- r ;; Ok (c :: chars, rest).

(** [scanstring(s, end, strict=True)], entered after the opening quote:
    the decoded string and what follows the closing quote. *)
Fixpoint scanstring (s : text) : result (text * text) :=
  match s with
  | [] => Raise JSONDecodeError
  | c :: s1 =>
    if c =? c_quote then Ok ([], s1)
    else if c =? c_backslash then
      match s1 with
      | [] => Raise JSONDecodeError
      | esc :: s2 =>
        if esc =? c_u then
          match s2 with
          | h1 :: h2 :: h3 :: h4 :: s3 =>
            match decode_hex4 h1 h2 h3 h4 with
            | None => Raise JSONDecodeError
            | Some uni =>
              if is_high_surrogate uni && starts_with_backslash_u s3 then
                match s3 with
                | _ :: _ :: l1 :: l2 :: l3 :: l4 :: s4 =>
                  match decode_hex4 l1 l2 l3 l4 with
                  | None => Raise JSONDecodeError
                  | Some uni2 =>
                    if is_low_surrogate uni2
                    then cons_char (join_surrogates uni uni2) (scanstring s4)
                    else cons_char uni (scanstring s3)
                  end
                | _ => Raise JSONDecodeError
                end
              else cons_char uni (scanstring s3)
            end
          | _ => Raise JSONDecodeError
          end
        else
          match BACKSLASH esc with
          | Some char => cons_char char (scanstring s2)
          | None => Raise JSONDecodeError
          end
      end
    else if c <? 32 then Raise JSONDecodeError
    else cons_char c (scanstring s1)
  end.

Fixpoint span_digits (s : text) : text * text :=
  match s with
  | c :: r =>
    if is_digit c then let (ds, r') := span_digits r in (c :: ds, r')
    else ([], s)
  | [] => ([], [])
  end.

(** The three groups of [NUMBER_RE] and what follows the match: an
    integer part (an optional minus sign, then a single zero or a nonzero
    digit and any digits), an optional fraction (a dot and one or more
    digits) and an optional exponent ([e] or [E], an optional sign, one
    or more digits); [None] when there is no match. *)
Definition match_integer (s : text) : option (text * text) :=
  let (sign, s1) :=
    match s with
    | c :: r => if c =? c_minus then ([c], r) else ([], s)
    | [] => ([], s)
    end in
  match s1 with
  | c :: r =>
    if c =? c_0 then Some (sign ++ [c], r)
    else if is_digit c then
      let (ds, r') := span_digits r in Some (sign ++ c :: ds, r')
    else None
  | [] => None
  end.

Definition match_frac (s : text) : text * text :=
  match s with
  | c :: r =>
    if c =? c_dot then
      match span_digits r with
      | ([], _) => ([], s)
      | (ds, r') => (c :: ds, r')
      end
    else ([], s)
  | [] => ([], s)
  end.

Definition match_exp (s : text) : text * text :=
  match s with
  | c :: r =>
    if (c =? c_e) || (c =? c_E) then
      let (sign, r1) :=
        match r with
        | g :: r0 => if (g =? c_minus) || (g =? c_plus) then ([g], r0) else ([], r)
        | [] => ([], r)
        end in
      match span_digits r1 with
      | ([], _) => ([], s)
      | (ds, r') => (c :: sign ++ ds, r')
      end
    else ([], s)
  | [] => ([], s)
  end.

Definition match_number (s : text) : option (text * text * text * text) :=
  match match_integer s with
  | None => None
  | Some (integer, s1) =>
    let (frac, s2) := match_frac s1 in
    let (exp, s3) := match_exp s2 in
    Some (integer, frac, exp, s3)
  end.

(** [StopIteration] of the scanner, reported by its callers as a
    [JSONDecodeError] ("Expecting value"). *)
Definition expecting_value {A} (r : result A) : result A :=
  match r with
  | Raise StopIteration => Raise JSONDecodeError
  | _ => r
  end.

Definition is_nil {A} (l : list A) : bool :=
  match l with [] => true | _ => false end.

(** [scan_once], [JSONArray] and [JSONObject].  Each call spends one unit
    of [fuel]; the text always gets shorter, so that twice its length is
    enough ([scan_once_fuel] below): [RecursionError] stands for "out of
    fuel" and never comes out of [loads]. *)
Fixpoint scan_once (fuel : nat) (s : text) {struct fuel}
  : result (json * text) :=
  match fuel with
  | O => Raise RecursionError
  | S fuel =>
    match s with
    | [] => Raise StopIteration
    | nextchar :: s1 =>
      if nextchar =? c_quote then
        '(chars, rest) <- scanstring s1 ;; Ok (JString chars, rest)
      else if nextchar =? c_lbrace then
        (* JSONObject *)
        match skip_ws s1 with
        | c :: s2 =>
          if c =? c_rbrace then Ok (JDict [], s2)
          else if c =? c_quote then
            '(pairs, rest) <- object_pairs fuel s2 ;;
            Ok (JDict (dict_of_pairs pairs), rest)
          else Raise JSONDecodeError
        | [] => Raise JSONDecodeError
        end
      else if nextchar =? c_lbracket then
        (* JSONArray *)
        match skip_ws s1 with
        | c :: s2 =>
          if c =? c_rbracket then Ok (JList [], s2)
          else '(values, rest) <- array_values fuel (c :: s2) ;;
               Ok (JList values, rest)
        | [] => Raise JSONDecodeError
        end
      else
        match strip_prefix (str "null") s, strip_prefix (str "true") s,
              strip_prefix (str "false") s with
        | Some rest, _, _ => Ok (JNull, rest)
        | _, Some rest, _ => Ok (JBool true, rest)
        | _, _, Some rest => Ok (JBool false, rest)
        | None, None, None =>
          match match_number s with
          | Some (integer, frac, exp, rest) =>
            if is_nil frac && is_nil exp
            then Ok (JInt (int_of_literal integer), rest)
            else Ok (JFloat (float (integer ++ frac ++ exp)), rest)
          | None =>
            match strip_prefix (str "NaN") s, strip_prefix (str "Infinity") s,
                  strip_prefix (str "-Infinity") s with
            | Some rest, _, _ => Ok (JFloat (float (str "nan")), rest)
            | _, Some rest, _ => Ok (JFloat (float (str "inf")), rest)
            | _, _, Some rest => Ok (JFloat (float (str "-inf")), rest)
            | None, None, None => Raise StopIteration
            end
          end
        end
    end
  end

(** The loop of [JSONArray], entered at the first character of a value *)
with array_values (fuel : nat) (s : text) {struct fuel}
  : result (list json * text) :=
  match fuel with
  | O => Raise RecursionError
  | S fuel =>
    '(value, s1) <- expecting_value (scan_once fuel s) ;;
    match skip_ws s1 with
    | c :: s2 =>
      if c =? c_rbracket then Ok ([value], s2)
      else if c =? c_comma then
        '(values, rest) <- array_values fuel (skip_ws s2) ;;
        Ok (value :: values, rest)
      else Raise JSONDecodeError
    | [] => Raise JSONDecodeError
    end
  end

(** The loop of [JSONObject], entered after the opening quote of a key *)
with object_pairs (fuel : nat) (s : text) {struct fuel}
  : result (list (text * json) * text) :=
  match fuel with
  | O => Raise RecursionError
  | S fuel =>
    '(key, s1) <- scanstring s ;;
    match skip_ws s1 with
    | c :: s2 =>
      if c =? c_colon then
        '(value, s3) <- expecting_value (scan_once fuel (skip_ws s2)) ;;
        match skip_ws s3 with
        | d :: s4 =>
          if d =? c_rbrace then Ok ([(key, value)], s4)
          else if d =? c_comma then
            match skip_ws s4 with
            | q :: s5 =>
              if q =? c_quote then
                '(pairs, rest) <- object_pairs fuel s5 ;;
                Ok ((key, value) :: pairs, rest)
              else Raise JSONDecodeError
            | [] => Raise JSONDecodeError
            end
          else Raise JSONDecodeError
        | [] => Raise JSONDecodeError
        end
      else Raise JSONDecodeError
    | [] => Raise JSONDecodeError
    end
  end.

(** [json.loads(s)]: no byte order mark, one value between optional
    whitespace, nothing after it. *)
Definition starts_with_bom (s : text) : bool :=
  match s with
  | c :: _ => c =? 0xfeff
  | [] => false
  end.

Definition loads (s : text) : result json :=
  if starts_with_bom s then Raise JSONDecodeError
  else
    '(obj, rest) <- expecting_value
                      (scan_once (2 * List.length s + 1) (skip_ws s)) ;;
    match skip_ws rest with
    | [] => Ok obj
    | _ :: _ => Raise JSONDecodeError
    end.

(** What [json.load] returns is well formed: its strings hold Unicode
    code points with no high surrogate directly before a low one (the
    decoder joins such a pair of escapes), its [dict]s have distinct
    keys. *)

Definition valid_char (c : N) : bool := c <? 0x110000.

Fixpoint no_surrogate_pair (s : text) : bool :=
  match s with
  | a :: r =>
    match r with
    | b :: _ => negb (is_high_surrogate a && is_low_surrogate b)
    | [] => true
    end && no_surrogate_pair r
  | [] => true
  end.

Definition wf_str (s : text) : bool :=
  forallb valid_char s && no_surrogate_pair s.

Fixpoint distinct (ks : list text) : bool :=
  match ks with
  | [] => true
  | k :: r => negb (existsb (text_eqb k) r) && distinct r
  end.

Fixpoint wf_json (o : json) : bool :=
  match o with
  | JString s => wf_str s
  | JList l => forallb wf_json l
  | JDict d =>
    distinct (map fst d)
    && forallb (fun '(key, value) => wf_str key && wf_json value) d
  | _ => true
  end.

(** A [str] read from a UTF-8 file: Unicode scalar values only. *)
Definition scalar_text (s : text) : bool :=
  forallb (fun c => valid_char c && negb (is_surrogate c)) s.

(** What is assumed of the interpreter's floats: the text printed for a
    float is [NaN], [Infinity], [-Infinity] or a number literal with a
    fraction or an exponent, and reading it gives the float back. *)

Definition float_lexeme (l : text) : bool :=
  text_eqb l (str "NaN") || text_eqb l (str "Infinity")
  || text_eqb l (str "-Infinity")
  || match match_number l with
     | Some (_, frac, exp, []) => negb (is_nil frac && is_nil exp)
     | _ => false
     end.

Definition float_of_lexeme (l : text) : pyfloat :=
  if text_eqb l (str "NaN") then float (str "nan")
  else if text_eqb l (str "Infinity") then float (str "inf")
  else if text_eqb l (str "-Infinity") then float (str "-inf")
  else float l.

Class PyFloatLaws : Prop := {
  float_repr_lexeme : forall f, float_lexeme (float_repr f) = true;
  float_of_repr : forall f, float_of_lexeme (float_repr f) = f
}.

End Json.

(** ** UTF-8: [bytes.decode] of a text file and [str.encode('utf-8')] *)

Definition byte_of_N (n : N) : byte :=
  match Byte.of_N n with
  | Some b => b
  | None => x00
  end.

Definition is_continuation (b : N) : bool := (0x80 <=? b) && (b <=? 0xbf).

Definition cons_decoded (c : N) (r : result text) : result text :=
  chars <- r ;; Ok (c :: chars).

(** The strict decoder, on the values of the bytes: shortest forms only,
    no surrogates, nothing above U+10FFFF. *)
Fixpoint utf8_decode (bs : list N) : result text :=
  match bs with
  | [] => Ok []
  | b0 :: r0 =>
    if b0 <? 0x80 then cons_decoded b0 (utf8_decode r0)
    else if (0xc2 <=? b0) && (b0 <=? 0xdf) then
      match r0 with
      | b1 :: r1 =>
        if is_continuation b1
        then cons_decoded ((b0 - 0xc0) * 64 + (b1 - 0x80)) (utf8_decode r1)
        else Raise UnicodeDecodeError
      | _ => Raise UnicodeDecodeError
      end
    else if (0xe0 <=? b0) && (b0 <=? 0xef) then
      match r0 with
      | b1 :: b2 :: r2 =>
        if is_continuation b1 && is_continuation b2
           && (negb (b0 =? 0xe0) || (0xa0 <=? b1))
           && (negb (b0 =? 0xed) || (b1 <=? 0x9f))
        then cons_decoded
               ((b0 - 0xe0) * 4096 + (b1 - 0x80) * 64 + (b2 - 0x80))
               (utf8_decode r2)
        else Raise UnicodeDecodeError
      | _ => Raise UnicodeDecodeError
      end
    else if (0xf0 <=? b0) && (b0 <=? 0xf4) then
      match r0 with
      | b1 :: b2 :: b3 :: r3 =>
        if is_continuation b1 && is_continuation b2 && is_continuation b3
           && (negb (b0 =? 0xf0) || (0x90 <=? b1))
           && (negb (b0 =? 0xf4) || (b1 <=? 0x8f))
        then cons_decoded
               ((b0 - 0xf0) * 262144 + (b1 - 0x80) * 4096
                + (b2 - 0x80) * 64 + (b3 - 0x80))
               (utf8_decode r3)
        else Raise UnicodeDecodeError
      | _ => Raise UnicodeDecodeError
      end
    else Raise UnicodeDecodeError
  end.

(** Universal newlines of a file opened in text mode: [\r\n] and a lone
    [\r] are read as [\n]. *)
Fixpoint universal_newlines (s : text) : text :=
  match s with
  | [] => []
  | c :: r =>
    if c =? c_cr then
      match r with
      | d :: r' =>
        if d =? c_lf then c_lf :: universal_newlines r'
        else c_lf :: universal_newlines r
      | [] => [c_lf]
      end
    else c :: universal_newlines r
  end.

(** [fp.read()] of a file opened with [open('r', encoding='utf-8')] *)
Definition read_text (content : bytes) : result text :=
  chars <- utf8_decode (map Byte.to_N content) ;;
  Ok (universal_newlines chars).

Definition utf8_encode_char (c : N) : result (list N) :=
  if c <? 0x80 then Ok [c]
  else if c <? 0x800 then Ok [0xc0 + c / 64; 0x80 + c mod 64]
  else if is_surrogate c then Raise UnicodeEncodeError
  else if c <? 0x10000 then
    Ok [0xe0 + c / 4096; 0x80 + c / 64 mod 64; 0x80 + c mod 64]
  else
    Ok [0xf0 + c / 262144; 0x80 + c / 4096 mod 64;
        0x80 + c / 64 mod 64; 0x80 + c mod 64].

(** [s.encode('utf-8')] *)
Fixpoint encode_utf8 (s : text) : result bytes :=
  match s with
  | [] => Ok []
  | c :: r =>
    bs <- utf8_encode_char c ;;
    rest <- encode_utf8 r ;;
    Ok (map byte_of_N bs ++ rest)
  end.

(** ** [pathlib]: pure POSIX paths

    A path is its root ([''], ['/'] or ['//']) and its components. *)

Inductive anchor : Type := Relative | Root | DoubleRoot.

Record Path : Type := { root : anchor; parts : list text }.

(** [s.split('/')] *)
Fixpoint split_slash (s : text) : list text :=
  match s with
  | [] => [[]]
  | c :: r =>
    if c =? c_slash then [] :: split_slash r
    else
      match split_slash r with
      | seg :: segs => (c :: seg) :: segs
      | [] => [[c]]
      end
  end.

Fixpoint count_leading_slashes (s : text) : nat :=
  match s with
  | c :: r => if c =? c_slash then S (count_leading_slashes r) else O
  | [] => O
  end.

(** [splitroot] of the POSIX flavour: exactly two leading slashes are
    kept apart, any other number of them is the root ['/']. *)
Definition splitroot (s : text) : anchor :=
  match count_leading_slashes s with
  | O => Relative
  | 2%nat => DoubleRoot
  | _ => Root
  end.

(** [PurePosixPath(s)]: empty components and ['.'] are dropped *)
Definition parse_path (s : text) : Path :=
  {| root := splitroot s;
     parts := filter (fun x => negb (is_nil x) && negb (text_eqb x [c_dot]))
                     (split_slash s) |}.

(** [p / s] for a [str] [s]: a rooted [s] replaces [p] *)
Definition joinpath (p : Path) (s : text) : Path :=
  let q := parse_path s in
  match root q with
  | Relative => {| root := root p; parts := parts p ++ parts q |}
  | _ => q
  end.

(** [p.parent] *)
Definition parent (p : Path) : Path :=
  {| root := root p; parts := removelast (parts p) |}.

Fixpoint join_slash (l : list text) : text :=
  match l with
  | [] => []
  | [x] => x
  | x :: l' => x ++ c_slash :: join_slash l'
  end.

(** [str(p)] *)
Definition path_str (p : Path) : text :=
  match root p, parts p with
  | Relative, [] => [c_dot]
  | Relative, l => join_slash l
  | Root, l => c_slash :: join_slash l
  | DoubleRoot, l => c_slash :: c_slash :: join_slash l
  end.

Definition anchor_eqb (a b : anchor) : bool :=
  match a, b with
  | Relative, Relative | Root, Root | DoubleRoot, DoubleRoot => true
  | _, _ => false
  end.

Fixpoint parts_eqb (a b : list text) : bool :=
  match a, b with
  | [], [] => true
  | x :: a', y :: b' => text_eqb x y && parts_eqb a' b'
  | _, _ => false
  end.

Definition path_eqb (p q : Path) : bool :=
  anchor_eqb (root p) (root q) && parts_eqb (parts p) (parts q).

(** ** Files and connections *)

Inductive node : Type :=
| Absent
| Directory
| RegularFile (content : bytes).

Definition filesystem := Path -> node.

(** A request handler: the request target, what it has sent so far and
    whether its client is still there to be written to. *)
Record handler : Type := {
  path : text;
  status_line : option Z;
  headers_buffer : list (text * text);
  headers_ended : bool;
  wfile : bytes;
  connected : bool
}.

(** ** The interpreter and the library, taken as an interface

    [int_of_str] is the builtin [int] on a [str] ([None]: [ValueError]).
    [ArgumentParser_parse_args defaults argv] is [parser.parse_args(argv)]
    for the parser of [parse_args] below, whose three options have the
    given defaults; it raises [SystemExit].  The two checks are those
    [urlsplit] makes on an authority: [_check_bracketed_netloc] on one
    holding both square brackets, the NFKC test of [_checknetloc] on one
    that is not ASCII ([false]: [ValueError]).

    [int_max_str_digits] is [sys.get_int_max_str_digits()] (4300 unless
    configured, 0 for no limit).  The recursion limit leaves room for so
    many nested calls when the handler runs: [decoder_nested] and
    [encoder_nested] are the containers [json.load] and [json.dumps] can
    enter inside an outermost one.

    [SimpleHTTPRequestHandler_do_GET self fs cwd] is [super().do_GET()]
    of the handler: the static file handler of [http.server] serves what
    the target names under the working directory.  It gives the handler
    after its reply ([None]: it raised an [OSError], a broken pipe for
    one) and the files it opened, each with [true] when opened in binary
    mode; it opens files for reading only. *)

Record Namespace : Type := { args_host : text; args_port : Z; args_root : text }.

Class PyLib : Type := {
  int_of_str : text -> option Z;
  ArgumentParser_parse_args : Namespace -> list text -> result Namespace;
  check_bracketed_netloc : text -> bool;
  checknetloc_nfkc : text -> bool;
  int_max_str_digits : nat;
  decoder_nested : nat;
  encoder_nested : nat;
  SimpleHTTPRequestHandler_do_GET :
    handler -> filesystem -> Path -> option handler * list (Path * bool)
}.

(** ** [urllib.parse.urlparse] *)

Record ParseResult : Type := {
  url_scheme : text;
  url_netloc : text;
  url_path : text;
  url_params : text;
  url_query : text;
  url_fragment : text
}.

Fixpoint lstrip_c0_space (s : text) : text :=
  match s with
  | c :: r => if c <=? c_space then lstrip_c0_space r else s
  | [] => []
  end.

Definition remove_unsafe_bytes (s : text) : text :=
  filter (fun c => negb ((c =? c_tab) || (c =? c_cr) || (c =? c_lf))) s.

(** [s.partition(sep)]: what precedes the first [sep] and, when there is
    one, what follows it. *)
Fixpoint partition_at (sep : N) (s : text) : text * option text :=
  match s with
  | [] => ([], None)
  | c :: r =>
    if c =? sep then ([], Some r)
    else let (before, after) := partition_at sep r in (c :: before, after)
  end.

Definition is_alpha (c : N) : bool :=
  ((65 <=? c) && (c <=? 90)) || ((97 <=? c) && (c <=? 122)).

Definition is_scheme_char (c : N) : bool :=
  is_alpha c || is_digit c || (c =? c_plus) || (c =? c_minus) || (c =? c_dot).

Definition lower (c : N) : N := if (65 <=? c) && (c <=? 90) then c + 32 else c.

Definition split_scheme (url : text) : text * text :=
  match partition_at c_colon url with
  | (c0 :: before, Some after) =>
    if is_alpha c0 && forallb is_scheme_char (c0 :: before)
    then (map lower (c0 :: before), after)
    else ([], url)
  | _ => ([], url)
  end.

(** [_splitnetloc]: up to the first of [/], [?] and [#] *)
Fixpoint span_netloc (s : text) : text * text :=
  match s with
  | [] => ([], [])
  | c :: r =>
    if (c =? c_slash) || (c =? c_question) || (c =? c_hash) then ([], s)
    else let (n, r') := span_netloc r in (c :: n, r')
  end.

Definition contains (c : N) (s : text) : bool := existsb (N.eqb c) s.

Definition uses_params : list text :=
  [ []; str "ftp"; str "hdl"; str "prospero"; str "http"; str "imap";
    str "https"; str "shttp"; str "rtsp"; str "rtspu"; str "sip"; str "sips";
    str "mms"; str "sftp"; str "tel" ].

(** [(head, tail)]: [head] ends with the last slash, [tail] has none *)
Fixpoint split_last_slash (s : text) : text * text :=
  match s with
  | [] => ([], [])
  | c :: r =>
    let (h, t) := split_last_slash r in
    if c =? c_slash then (c :: h, t)
    else match h with
         | [] => ([], c :: t)
         | _ => (c :: h, t)
         end
  end.

(** [_splitparams]: the parameters of the last segment *)
Definition _splitparams (url : text) : text * text :=
  let (head, tail) := split_last_slash url in
  match partition_at c_semi tail with
  | (before, Some after) => (head ++ before, after)
  | (_, None) => (url, [])
  end.

Section Urlparse.
Context {PL : PyLib}.

Definition urlsplit (url : text) : result (text * text * text * text * text) :=
  let url := remove_unsafe_bytes (lstrip_c0_space url) in
  let (scheme, url) := split_scheme url in
  '(netloc, url) <-
     match url with
     | a :: b :: r =>
       if (a =? c_slash) && (b =? c_slash) then
         let (netloc, rest) := span_netloc r in
         let l := contains c_lbracket netloc in
         let r := contains c_rbracket netloc in
         if xorb l r then Raise ValueError
         else if l && r && negb (check_bracketed_netloc netloc)
         then Raise ValueError
         else Ok (netloc, rest)
       else Ok ([], url)
     | _ => Ok ([], url)
     end ;;
  let (url, fragment) :=
    match partition_at c_hash url with
    | (before, Some after) => (before, after)
    | (before, None) => (before, [])
    end in
  let (url, query) :=
    match partition_at c_question url with
    | (before, Some after) => (before, after)
    | (before, None) => (before, [])
    end in
  if is_nil netloc || forallb (fun c => c <? 128) netloc
     || checknetloc_nfkc netloc
  then Ok (scheme, netloc, url, query, fragment)
  else Raise ValueError.

Definition urlparse (url : text) : result ParseResult :=
  '(scheme, netloc, url, query, fragment) <- urlsplit url ;;
  let (url, params) :=
    if existsb (text_eqb scheme) uses_params && contains c_semi url
    then _splitparams url
    else (url, []) in
  Ok {| url_scheme := scheme; url_netloc := netloc; url_path := url;
        url_params := params; url_query := query;
        url_fragment := fragment |}.

End Urlparse.

(** ** [json] under the interpreter's limits

    The server reads the file with the scanner of the C accelerator and
    writes the body with the generators of [json.encoder] (the
    accelerated encoder is not used with an indent).  The scanner makes
    a recursive call for each container it enters, the encoder resumes
    one more generator for each, and both convert integers with [int]:
    they raise [RecursionError] and [ValueError] where the definitions
    above, which know no limits, go on. *)

Section JsonLimits.
Context {PF : PyFloat} {PL : PyLib}.

Definition decoder_depth : nat := S decoder_nested.
Definition encoder_depth : nat := S encoder_nested.

(** The test of [PyLong_FromString] and of [int.__repr__] on the number
    of digits: no limit applies up to 640 digits. *)
Definition exceeds_max_str_digits (digits : nat) : bool :=
  (640 <? digits)%nat && (0 <? int_max_str_digits)%nat
  && (int_max_str_digits <? digits)%nat.

Definition count_digits (lit : text) : nat :=
  List.length (filter is_digit lit).

(** [scan_once_unicode], [_parse_array_unicode] and
    [_parse_object_unicode] of [_json.c]: [scan_once] with
    [Py_EnterRecursiveCall] before a container is parsed, [depth] being
    the calls that are left, and with the limit of [int] on an integer
    literal.  The fuel [json_loads] gives is never used up
    ([json_loads_fuel] below): its [RecursionError] is that of
    [Py_EnterRecursiveCall]. *)
Fixpoint scan_once_unicode (fuel depth : nat) (s : text) {struct fuel}
  : result (json * text) :=
  match fuel with
  | O => Raise RecursionError
  | S fuel =>
    match s with
    | [] => Raise StopIteration
    | nextchar :: s1 =>
      if nextchar =? c_quote then
        '(chars, rest) <- scanstring s1 ;; Ok (JString chars, rest)
      else if nextchar =? c_lbrace then
        match depth with
        | O => Raise RecursionError
        | S depth =>
          match skip_ws s1 with
          | c :: s2 =>
            if c =? c_rbrace then Ok (JDict [], s2)
            else if c =? c_quote then
              '(pairs, rest) <- _parse_object_unicode fuel depth s2 ;;
              Ok (JDict (dict_of_pairs pairs), rest)
            else Raise JSONDecodeError
          | [] => Raise JSONDecodeError
          end
        end
      else if nextchar =? c_lbracket then
        match depth with
        | O => Raise RecursionError
        | S depth =>
          match skip_ws s1 with
          | c :: s2 =>
            if c =? c_rbracket then Ok (JList [], s2)
            else '(values, rest) <- _parse_array_unicode fuel depth (c :: s2) ;;
                 Ok (JList values, rest)
          | [] => Raise JSONDecodeError
          end
        end
      else
        match strip_prefix (str "null") s, strip_prefix (str "true") s,
              strip_prefix (str "false") s with
        | Some rest, _, _ => Ok (JNull, rest)
        | _, Some rest, _ => Ok (JBool true, rest)
        | _, _, Some rest => Ok (JBool false, rest)
        | None, None, None =>
          match match_number s with
          | Some (integer, frac, exp, rest) =>
            if is_nil frac && is_nil exp
            then
              if exceeds_max_str_digits (count_digits integer)
              then Raise ValueError
              else Ok (JInt (int_of_literal integer), rest)
            else Ok (JFloat (float (integer ++ frac ++ exp)), rest)
          | None =>
            match strip_prefix (str "NaN") s, strip_prefix (str "Infinity") s,
                  strip_prefix (str "-Infinity") s with
            | Some rest, _, _ => Ok (JFloat (float (str "nan")), rest)
            | _, Some rest, _ => Ok (JFloat (float (str "inf")), rest)
            | _, _, Some rest => Ok (JFloat (float (str "-inf")), rest)
            | None, None, None => Raise StopIteration
            end
          end
        end
    end
  end

with _parse_array_unicode (fuel depth : nat) (s : text) {struct fuel}
  : result (list json * text) :=
  match fuel with
  | O => Raise RecursionError
  | S fuel =>
    '(value, s1) <- expecting_value (scan_once_unicode fuel depth s) ;;
    match skip_ws s1 with
    | c :: s2 =>
      if c =? c_rbracket then Ok ([value], s2)
      else if c =? c_comma then
        '(values, rest) <- _parse_array_unicode fuel depth (skip_ws s2) ;;
        Ok (value :: values, rest)
      else Raise JSONDecodeError
    | [] => Raise JSONDecodeError
    end
  end

with _parse_object_unicode (fuel depth : nat) (s : text) {struct fuel}
  : result (list (text * json) * text) :=
  match fuel with
  | O => Raise RecursionError
  | S fuel =>
    '(key, s1) <- scanstring s ;;
    match skip_ws s1 with
    | c :: s2 =>
      if c =? c_colon then
        '(value, s3) <- expecting_value
                          (scan_once_unicode fuel depth (skip_ws s2)) ;;
        match skip_ws s3 with
        | d :: s4 =>
          if d =? c_rbrace then Ok ([(key, value)], s4)
          else if d =? c_comma then
            match skip_ws s4 with
            | q :: s5 =>
              if q =? c_quote then
                '(pairs, rest) <- _parse_object_unicode fuel depth s5 ;;
                Ok ((key, value) :: pairs, rest)
              else Raise JSONDecodeError
            | [] => Raise JSONDecodeError
            end
          else Raise JSONDecodeError
        | [] => Raise JSONDecodeError
        end
      else Raise JSONDecodeError
    | [] => Raise JSONDecodeError
    end
  end.

(** [json.loads(s)] as the server runs it *)
Definition json_loads (s : text) : result json :=
  if starts_with_bom s then Raise JSONDecodeError
  else
    '(obj, rest) <- expecting_value
                      (scan_once_unicode (2 * List.length s + 1)
                         decoder_depth (skip_ws s)) ;;
    match skip_ws rest with
    | [] => Ok obj
    | _ :: _ => Raise JSONDecodeError
    end.

(** [_iterencode], [_iterencode_list] and [_iterencode_dict] as
    generators: one is resumed for each container, the empty ones too,
    [depth] being those that can still be; an integer is written by
    [int.__repr__].  The first failure is the exception of
    [json.dumps]. *)
Fixpoint _iterencode_within (depth : nat) (o : json) (level : nat) {struct o}
  : result text :=
  match o with
  | JString s => Ok (encode_basestring_ascii s)
  | JNull => Ok (str "null")
  | JBool true => Ok (str "true")
  | JBool false => Ok (str "false")
  | JInt z =>
    if exceeds_max_str_digits (count_digits (int_repr z))
    then Raise ValueError
    else Ok (int_repr z)
  | JFloat f => Ok (float_repr f)
  | JList lst =>
    match depth with
    | O => Raise RecursionError
    | S depth =>
      match lst with
      | [] => Ok (str "[]")
      | _ =>
        chunks <- mapM (fun value => _iterencode_within depth value (S level))
                       lst ;;
        Ok (c_lbracket :: newline_indent (S level)
              ++ join_chunks (c_comma :: newline_indent (S level)) chunks
              ++ newline_indent level ++ [c_rbracket])
      end
    end
  | JDict dct =>
    match depth with
    | O => Raise RecursionError
    | S depth =>
      match dct with
      | [] => Ok (str "{}")
      | _ =>
        chunks <- mapM (fun '(key, value) =>
                          chunk <- _iterencode_within depth value (S level) ;;
                          Ok (encode_basestring_ascii key ++ str ": "
                                ++ chunk))
                       dct ;;
        Ok (c_lbrace :: newline_indent (S level)
              ++ join_chunks (c_comma :: newline_indent (S level)) chunks
              ++ newline_indent level ++ [c_rbrace])
      end
    end
  end.

(** [json.dumps(payload, indent=2)] as the server runs it *)
Definition json_dumps (payload : json) : result text :=
  _iterencode_within encoder_depth payload 0.

End JsonLimits.

(** ** The operating system as the program sees it *)

Section Backend.
Context {PF : PyFloat} {PL : PyLib}.

(** How [do_GET] ends: with a JSON response written by [_send_json], or
    in the call [super().do_GET()] on the handler, which the request
    loop below runs ([handle]). *)
Inductive served : Type :=
| Json (self : handler)
| Static (self : handler).

(** What one connection got back: a JSON response, the reply of the
    static file handler, or nothing (an exception was raised and the
    connection was closed). *)
Inductive reply : Type :=
| Response (self : handler)
| StaticReply (self : handler)
| ConnectionClosed (e : exn).

Record process : Type := {
  fs : filesystem;
  cwd : Path;
  environ : text -> option text;
  stdout : list text;
  stderr : list text;
  opened : list (Path * text);
  listening : option (text * Z);
  replies : list reply
}.

Definition set_cwd (d : Path) (s : process) : process :=
  {| fs := fs s; cwd := d; environ := environ s; stdout := stdout s;
     stderr := stderr s; opened := opened s; listening := listening s;
     replies := replies s |}.

Definition set_fs (f : filesystem) (s : process) : process :=
  {| fs := f; cwd := cwd s; environ := environ s; stdout := stdout s;
     stderr := stderr s; opened := opened s; listening := listening s;
     replies := replies s |}.

Definition print (line : text) (s : process) : process :=
  {| fs := fs s; cwd := cwd s; environ := environ s;
     stdout := stdout s ++ [line];
     stderr := stderr s; opened := opened s; listening := listening s;
     replies := replies s |}.

Definition print_stderr (line : text) (s : process) : process :=
  {| fs := fs s; cwd := cwd s; environ := environ s; stdout := stdout s;
     stderr := stderr s ++ [line];
     opened := opened s; listening := listening s; replies := replies s |}.

Definition log_open (p : Path) (mode : text) (s : process) : process :=
  {| fs := fs s; cwd := cwd s; environ := environ s; stdout := stdout s;
     stderr := stderr s; opened := opened s ++ [(p, mode)];
     listening := listening s; replies := replies s |}.

Definition set_listening (l : option (text * Z)) (s : process) : process :=
  {| fs := fs s; cwd := cwd s; environ := environ s; stdout := stdout s;
     stderr := stderr s; opened := opened s; listening := l;
     replies := replies s |}.

Definition add_reply (r : reply) (s : process) : process :=
  {| fs := fs s; cwd := cwd s; environ := environ s; stdout := stdout s;
     stderr := stderr s; opened := opened s; listening := listening s;
     replies := replies s ++ [r] |}.

(** The file a path names for the system calls: a relative path is taken
    from the working directory. *)
Definition os_path (s : process) (p : Path) : Path :=
  match root p with
  | Relative => {| root := root (cwd s); parts := parts (cwd s) ++ parts p |}
  | _ => p
  end.

(** [p.exists()] and [p.is_dir()] *)
Definition path_exists (p : Path) (s : process) : bool :=
  match fs s (os_path s p) with
  | Absent => false
  | _ => true
  end.

Definition path_is_dir (p : Path) (s : process) : bool :=
  match fs s (os_path s p) with
  | Directory => true
  | _ => false
  end.

(** [with p.open('r', encoding='utf-8') as fp: fp.read()] *)
Definition open_read (p : Path) (s : process) : result text * process :=
  let s' := log_open p (str "r") s in
  match fs s (os_path s p) with
  | Absent => (Raise OSError, s')
  | Directory => (Raise IsADirectoryError, s')
  | RegularFile content => (read_text content, s')
  end.

(** ** [backend/server.py] *)

(** The components of [Path(__file__).resolve()], an absolute path. *)
Variable script : list text.

Definition ROOT_DIR : Path :=
  parent (parent {| root := Root; parts := script |}).

Definition SAMPLE_GRAPH_PATH : Path :=
  joinpath (joinpath ROOT_DIR (str "data")) (str "sample-graph.json").

Definition HTTPStatus_OK : Z := 200.
Definition HTTPStatus_NOT_FOUND : Z := 404.
Definition HTTPStatus_INTERNAL_SERVER_ERROR : Z := 500.

(** The calls a handler makes on [BaseHTTPRequestHandler].  The library
    adds its own [Server] and [Date] headers and writes status line and
    headers in front of the body; that rendering is not modelled. *)
Definition send_response (code : Z) (self : handler) : handler :=
  {| path := path self; status_line := Some code;
     headers_buffer := headers_buffer self;
     headers_ended := headers_ended self; wfile := wfile self;
     connected := connected self |}.

Definition send_header (keyword value : text) (self : handler) : handler :=
  {| path := path self; status_line := status_line self;
     headers_buffer := headers_buffer self ++ [(keyword, value)];
     headers_ended := headers_ended self; wfile := wfile self;
     connected := connected self |}.

(** [end_headers] flushes the buffered headers to the socket and
    [wfile.write] writes to it: with the client gone both raise
    [BrokenPipeError]. *)
Definition end_headers (self : handler) : result handler :=
  if connected self then
    Ok {| path := path self; status_line := status_line self;
          headers_buffer := headers_buffer self;
          headers_ended := true; wfile := wfile self;
          connected := connected self |}
  else Raise BrokenPipeError.

Definition wfile_write (data : bytes) (self : handler) : result handler :=
  if connected self then
    Ok {| path := path self; status_line := status_line self;
          headers_buffer := headers_buffer self;
          headers_ended := headers_ended self; wfile := wfile self ++ data;
          connected := connected self |}
  else Raise BrokenPipeError.

(** [str(len(body))]: the length of a [bytes] object is below [2 ** 63],
    far from the limit on the digits of an [int]. *)
Definition _send_json (self : handler) (status : Z) (payload : json)
  : result handler :=
  serialized <- json_dumps payload ;;
  body <- encode_utf8 serialized ;;
  let self := send_response status self in
  let self := send_header (str "Content-Type")
                          (str "application/json; charset=utf-8") self in
  let self := send_header (str "Cache-Control") (str "no-cache") self in
  let self := send_header (str "Access-Control-Allow-Origin") (str "*") self in
  let self := send_header (str "Content-Length")
                          (int_repr (Z.of_nat (List.length body))) self in
  self <- end_headers self ;;
  wfile_write body self.

Definition health_payload : json :=
  JDict [ (str "status", JString (str "ok"));
          (str "service", JString (str "sn-itil-bsm-discovery-backend"));
          (str "message", JString (str "alive")) ].

Definition missing_payload : json :=
  JDict [ (str "error", JString (str "sample graph missing"));
          (str "path", JString (path_str SAMPLE_GRAPH_PATH)) ].

Definition do_GET (self : handler) (s : process) : result served * process :=
  match urlparse (path self) with
  | Raise e => (Raise e, s)
  | Ok parsed =>
    if text_eqb (url_path parsed) (str "/api/health") then
      (self <- _send_json self HTTPStatus_OK health_payload ;; Ok (Json self), s)
    else if text_eqb (url_path parsed) (str "/api/sample-graph") then
      if negb (path_exists SAMPLE_GRAPH_PATH s) then
        (self <- _send_json self HTTPStatus_NOT_FOUND missing_payload ;;
         Ok (Json self), s)
      else
        let (fp_read, s) := open_read SAMPLE_GRAPH_PATH s in
        (content <- fp_read ;;
         payload <- json_loads content ;;
         self <- _send_json self HTTPStatus_OK payload ;;
         Ok (Json self), s)
    else
      (* Fallback to static file serving: return super().do_GET(),
         which [handle] runs *)
      (Ok (Static self), s)
  end.

Definition parse_args (argv : list text) (s : process) : result Namespace :=
  port <- match environ s (str "PORT") with
          | Some v =>
            match int_of_str v with
            | Some n => Ok n
            | None => Raise ValueError
            end
          | None => Ok 3000%Z
          end ;;
  let root :=
    match environ s (str "BACKEND_ROOT") with
    | Some v => v
    | None => str "dist"
    end in
  ArgumentParser_parse_args
    {| args_host := str "127.0.0.1"; args_port := port; args_root := root |}
    argv.

(** ** [socketserver]: the request loop

    Each connection gets a fresh handler.  When [do_GET] ends in
    [super().do_GET()] the static file handler of the library serves
    the request; the files it reads are logged as opened.  An
    [Exception] raised by the handler is reported on standard error and
    the connection is closed ([handle_error], [shutdown_request]); any
    other exception ends the loop.  A client may be gone before its
    response is written ([Hangup]). *)

Inductive event : Type :=
| Request (target : text)
| FileSystemChange (f : filesystem)
| Hangup (target : text).

Definition new_handler (target : text) : handler :=
  {| path := target; status_line := None; headers_buffer := [];
     headers_ended := false; wfile := []; connected := true |}.

Definition abandoned_handler (target : text) : handler :=
  {| path := target; status_line := None; headers_buffer := [];
     headers_ended := false; wfile := []; connected := false |}.

Definition is_Exception (e : exn) : bool :=
  match e with
  | KeyboardInterrupt | SystemExit _ => false
  | _ => true
  end.

Definition log_reads (files : list (Path * bool)) (s : process) : process :=
  fold_left (fun s pb =>
               log_open (fst pb)
                        (if snd pb : bool then str "rb" else str "r") s)
            files s.

Definition handle (self : handler) (s : process) : result reply * process :=
  match do_GET self s with
  | (Ok (Json self), s) => (Ok (Response self), s)
  | (Ok (Static self), s) =>
    let (reply, files) :=
      SimpleHTTPRequestHandler_do_GET self (fs s) (cwd s) in
    let s := log_reads files s in
    match reply with
    | Some self => (Ok (StaticReply self), s)
    | None =>
      (Ok (ConnectionClosed OSError),
       print_stderr (str "Exception occurred during processing of request") s)
    end
  | (Raise e, s) =>
    if is_Exception e
    then (Ok (ConnectionClosed e),
          print_stderr (str "Exception occurred during processing of request") s)
    else (Raise e, s)
  end.

Definition handle_request (target : text) (s : process)
  : result reply * process :=
  handle (new_handler target) s.

Fixpoint serve (events : list event) (s : process) : option exn * process :=
  match events with
  | [] => (None, s)
  | Request target :: events =>
    match handle_request target s with
    | (Ok r, s) => serve events (add_reply r s)
    | (Raise e, s) => (Some e, s)
    end
  | FileSystemChange f :: events => serve events (set_fs f s)
  | Hangup target :: events =>
    match handle (abandoned_handler target) s with
    | (Ok r, s) => serve events (add_reply r s)
    | (Raise e, s) => (Some e, s)
    end
  end.

(** What happens around the program while it runs: whether binding the
    listening socket fails, what arrives while it serves, and the
    exception that ends [serve_forever] ([None]: it never ends). *)
Record world : Type := {
  bind_error : text -> Z -> option exn;
  incoming : list event;
  serving_ends : option exn
}.

Inductive completion : Type :=
| Return (code : Z)
| Uncaught (e : exn)
| ServesForever.

Definition main (w : world) (argv : list text) (s : process)
  : completion * process :=
  match parse_args argv s with
  | Raise e => (Uncaught e, s)
  | Ok args =>
    let root_dir := joinpath ROOT_DIR (args_root args) in
    if negb (path_exists root_dir s) || negb (path_is_dir root_dir s) then
      (Return 1,
       print_stderr (str "Error: static root not found: " ++ path_str root_dir) s)
    else
      let s := set_cwd (os_path s root_dir) s in
      match bind_error w (args_host args) (args_port args) with
      | Some e => (Uncaught e, s)
      | None =>
        let s := set_listening (Some (args_host args, args_port args)) s in
        let s := print (str "Backend serving on http://" ++ args_host args
                          ++ str ":" ++ int_repr (args_port args)) s in
        let s := print (str "Static root: " ++ path_str root_dir) s in
        let s := print (str "API endpoints:") s in
        let s := print (str "  - GET /api/health") s in
        let s := print (str "  - GET /api/sample-graph") s in
        let (stopped, s) := serve (incoming w) s in
        let ending :=
          match stopped with
          | Some e => Some e
          | None => serving_ends w
          end in
        match ending with
        | None => (ServesForever, s)
        | Some e =>
          let s := print (str "Shutting down") s in
          let s := set_listening None s in
          match e with
          | KeyboardInterrupt => (Return 0, s)
          | _ => (Uncaught e, s)
          end
        end
      end
  end.

(** [raise SystemExit(main())]: the exit status of the interpreter.  An
    uncaught exception other than [SystemExit] ends it with status 1
    after the traceback; an uncaught [KeyboardInterrupt] ends it by the
    signal and a server that keeps serving has no status. *)
Definition exit_status (c : completion) : option Z :=
  match c with
  | Return code => Some code
  | Uncaught (SystemExit code) => Some code
  | Uncaught KeyboardInterrupt => None
  | Uncaught _ => Some 1%Z
  | ServesForever => None
  end.

End Backend.

Arguments PyFloatLaws PF : clear implicits.

(** ** A reference interpreter, for the examples

    Its only float is [0.0]; [int] reads an optional sign and ASCII
    digits; the argument parser knows the three options in their long
    form, each followed by its value, and exits with status 2 on
    anything else; both checks on an authority pass.  The limits are
    those of CPython 3.11 with its defaults, as the handler meets them:
    4300 digits, 983 nested containers for [json.load] and one more for
    [json.dumps]. *)

Definition one_float : PyFloat :=
  {| pyfloat := unit; float := fun _ => tt; float_repr := fun _ => str "0.0" |}.

Definition decimal_int (s : text) : option Z :=
  let (negative, digits) :=
    match s with
    | c :: r =>
      if c =? c_minus then (true, r)
      else if c =? c_plus then (false, r)
      else (false, s)
    | [] => (false, s)
    end in
  if negb (is_nil digits) && forallb is_digit digits
  then Some (Z.of_int (if negative : bool
                       then Decimal.Neg (chars_uint digits)
                       else Decimal.Pos (chars_uint digits)))
  else None.

Fixpoint long_options (ns : Namespace) (argv : list text) : result Namespace :=
  match argv with
  | [] => Ok ns
  | opt :: value :: argv' =>
    if text_eqb opt (str "--host") then
      long_options {| args_host := value; args_port := args_port ns;
                      args_root := args_root ns |} argv'
    else if text_eqb opt (str "--port") then
      match decimal_int value with
      | Some n =>
        long_options {| args_host := args_host ns; args_port := n;
                        args_root := args_root ns |} argv'
      | None => Raise (SystemExit 2)
      end
    else if text_eqb opt (str "--root") then
      long_options {| args_host := args_host ns; args_port := args_port ns;
                      args_root := value |} argv'
    else Raise (SystemExit 2)
  | _ => Raise (SystemExit 2)
  end.

(** A static file handler for the examples: the file the target names
    under the working directory, read in binary mode, or a 404. *)
Definition static_file (self : handler) (fs : filesystem) (cwd : Path)
  : option handler * list (Path * bool) :=
  let file :=
    {| root := root cwd;
       parts := parts cwd
                ++ parts (parse_path (fst (partition_at c_question
                                             (path self)))) |} in
  match fs file with
  | RegularFile content =>
    if connected self then
      (Some {| path := path self; status_line := Some 200%Z;
               headers_buffer :=
                 [(str "Content-Length",
                   int_repr (Z.of_nat (List.length content)))];
               headers_ended := true; wfile := content;
               connected := true |},
       [(file, true)])
    else (None, [(file, true)])
  | _ =>
    if connected self then
      (Some {| path := path self; status_line := Some 404%Z;
               headers_buffer := []; headers_ended := true; wfile := [];
               connected := true |},
       [])
    else (None, [])
  end.

Definition reference_lib : PyLib :=
  {| int_of_str := decimal_int;
     ArgumentParser_parse_args := long_options;
     check_bracketed_netloc := fun _ => true;
     checknetloc_nfkc := fun _ => true;
     int_max_str_digits := 4300;
     decoder_nested := 982;
     encoder_nested := 983;
     SimpleHTTPRequestHandler_do_GET := static_file |}.

(** * Notions the properties are stated with *)

Unset Implicit Arguments.

(** ** Texts and numbers *)

Definition starts_with_digit (s : text) : bool :=
  match s with
  | c :: _ => is_digit c
  | [] => false
  end.

(** What follows a value in the output of the encoder: nothing, a comma
    or a line feed. *)
Definition delimited (rest : text) : bool :=
  match rest with
  | [] => true
  | c :: _ => (c =? c_comma) || (c =? c_lf)
  end.

Definition high_half (c : N) : N :=
  N.lor 0xd800 (N.land (N.shiftr (c - 0x10000) 10) 0x3ff).

Definition low_half (c : N) : N :=
  N.lor 0xdc00 (N.land (c - 0x10000) 0x3ff).

(** The text does not begin with the escape of a low surrogate (nor
    with a truncated [\u] escape). *)
Definition pair_safe (t : text) : bool :=
  if starts_with_backslash_u t then
    match t with
    | _ :: _ :: l1 :: l2 :: l3 :: l4 :: _ =>
      match decode_hex4 l1 l2 l3 l4 with
      | Some uni2 => negb (is_low_surrogate uni2)
      | None => false
      end
    | _ => false
    end
  else true.

(** A text that begins a value: its first character is no whitespace,
    closes no container and is no byte order mark. *)
Definition starts_value (t : text) : bool :=
  match t with
  | c :: _ =>
    negb (is_ws c) && negb (c =? c_rbracket) && negb (c =? c_rbrace)
    && negb (c =? 0xfeff)
  | [] => false
  end.

(** One turn of the loop of [scanstring]: the closing quote ([None]) or
    one decoded character, and the text after it. *)
Definition string_step (s : text) : result (option N * text) :=
  match s with
  | [] => Raise JSONDecodeError
  | c :: s1 =>
    if c =? c_quote then Ok (None, s1)
    else if c =? c_backslash then
      match s1 with
      | [] => Raise JSONDecodeError
      | esc :: s2 =>
        if esc =? c_u then
          match s2 with
          | h1 :: h2 :: h3 :: h4 :: s3 =>
            match decode_hex4 h1 h2 h3 h4 with
            | None => Raise JSONDecodeError
            | Some uni =>
              if is_high_surrogate uni && starts_with_backslash_u s3 then
                match s3 with
                | _ :: _ :: l1 :: l2 :: l3 :: l4 :: s4 =>
                  match decode_hex4 l1 l2 l3 l4 with
                  | None => Raise JSONDecodeError
                  | Some uni2 =>
                    if is_low_surrogate uni2
                    then Ok (Some (join_surrogates uni uni2), s4)
                    else Ok (Some uni, s3)
                  end
                | _ => Raise JSONDecodeError
                end
              else Ok (Some uni, s3)
            end
          | _ => Raise JSONDecodeError
          end
        else
          match BACKSLASH esc with
          | Some char => Ok (Some char, s2)
          | None => Raise JSONDecodeError
          end
      end
    else if c <? 32 then Raise JSONDecodeError
    else Ok (Some c, s1)
  end.

(** The text begins with the [\u] escape of the low surrogate [c]. *)
Definition low_escape (s : text) (c : N) : Prop :=
  exists h1 h2 h3 h4 r,
    s = c_backslash :: c_u :: h1 :: h2 :: h3 :: h4 :: r
    /\ decode_hex4 h1 h2 h3 h4 = Some c /\ is_low_surrogate c = true.

(** [r] is what is left of [s] after reading some of it. *)
Definition rest_of (r s : text) : Prop :=
  (List.length r <= List.length s)%nat
  /\ (scalar_text s = true -> scalar_text r = true).

Definition shorter (r s : text) : Prop :=
  (List.length r < List.length s)%nat
  /\ (scalar_text s = true -> scalar_text r = true).

Definition ascii_text (t : text) : bool := forallb (fun c => c <? 128) t.

(** A target that begins with a single slash and holds no tab, carriage
    return or line feed (the request line is split at whitespace). *)
Definition origin_form (t : text) : bool :=
  match t with
  | c :: r =>
    (c =? c_slash)
    && negb (match r with d :: _ => d =? c_slash | [] => false end)
    && forallb (fun c => negb ((c =? c_tab) || (c =? c_cr) || (c =? c_lf))) t
  | [] => false
  end.

(** [s.split(sep, 1)], with an empty second part when [sep] is absent *)
Definition cut (sep : N) (s : text) : text * text :=
  match partition_at sep s with
  | (before, Some after) => (before, after)
  | (before, None) => (before, [])
  end.

(** The target without its query string: the request path as the
    specification reads it. *)
Definition strip_query (t : text) : text := fst (cut c_question t).

(** The path [urlparse] extracts from a target in origin form: the
    target cut at the first [#], then at the first [?], then at the
    first [;] of its last segment. *)
Definition target_path (t : text) : text :=
  let url := fst (cut c_question (fst (cut c_hash t))) in
  if contains c_semi url then fst (_splitparams url) else url.

(** The headers [_send_json] sends for a body *)
Definition json_headers (body : bytes) : list (text * text) :=
  [ (str "Content-Type", str "application/json; charset=utf-8");
    (str "Cache-Control", str "no-cache");
    (str "Access-Control-Allow-Origin", str "*");
    (str "Content-Length", int_repr (Z.of_nat (List.length body))) ].

Definition requests_only (events : list event) : bool :=
  forallb (fun e => match e with FileSystemChange _ => false | _ => true end)
          events.

(** ** JSON values *)

Section JsonNotions.
Context {PF : PyFloat}.

(** The property proved by induction on the object: its encoding at any
    level, followed by a delimited text, is scanned back, with fuel for
    the text. *)
Definition scans_back (o : json) : Prop :=
  forall (level : nat) (rest : text) (fuel : nat),
    delimited rest = true ->
    (2 * List.length (_iterencode o level ++ rest) < fuel)%nat ->
    scan_once fuel (_iterencode o level ++ rest) = Ok (o, rest).

(** The text of the pairs of a [dict] after the opening quote of the
    first key, up to what follows the [dict]'s last value. *)
Fixpoint pairs_text (level : nat) (d : list (text * json)) (T : text) : text :=
  match d with
  | [] => T
  | (key, value) :: d' =>
    flat_map escape_char key ++ c_quote :: c_colon :: c_space
      :: _iterencode value (S level)
      ++ match d' with
         | [] => T
         | _ :: _ =>
           c_comma :: newline_indent (S level)
             ++ c_quote :: pairs_text level d' T
         end
  end.

Definition wf_pair (kv : text * json) : bool :=
  let '(key, value) := kv in wf_str key && wf_json value.

Definition scan_once_ok (fuel : nat) : Prop :=
  forall s,
    (forall v r, scan_once fuel s = Ok (v, r) ->
                 shorter r s /\ (scalar_text s = true -> wf_json v = true))
    /\ (forall e, scan_once fuel s = Raise e ->
                   e = StopIteration \/ e = JSONDecodeError
                   \/ (e = RecursionError /\ (fuel <= 2 * List.length s)%nat)).

Definition array_values_ok (fuel : nat) : Prop :=
  forall s,
    (forall vs r, array_values fuel s = Ok (vs, r) ->
                  shorter r s
                  /\ (scalar_text s = true -> forallb wf_json vs = true))
    /\ (forall e, array_values fuel s = Raise e ->
                   e = JSONDecodeError
                   \/ (e = RecursionError
                       /\ (fuel < 2 * List.length s + 2)%nat)).

Definition object_pairs_ok (fuel : nat) : Prop :=
  forall s,
    (forall pairs r, object_pairs fuel s = Ok (pairs, r) ->
                     shorter r s
                     /\ (scalar_text s = true -> forallb wf_pair pairs = true))
    /\ (forall e, object_pairs fuel s = Raise e ->
                   e = JSONDecodeError
                   \/ (e = RecursionError
                       /\ (fuel < 2 * List.length s + 2)%nat)).

Fixpoint floats_ascii (o : json) : bool :=
  match o with
  | JFloat f => ascii_text (float_repr f)
  | JList l => forallb floats_ascii l
  | JDict d => forallb (fun kv => floats_ascii (snd kv)) d
  | _ => true
  end.

(** The containers around the innermost place of a value, the empty
    ones too *)
Fixpoint nesting (o : json) : nat :=
  match o with
  | JList l => S (list_max (map nesting l))
  | JDict d => S (list_max (map (fun kv => nesting (snd kv)) d))
  | _ => O
  end.

End JsonNotions.

Section LimitNotions.
Context {PF : PyFloat} {PL : PyLib}.

(** Every integer of a value is one [int.__repr__] writes *)
Fixpoint ints_within (o : json) : bool :=
  match o with
  | JInt z => negb (exceeds_max_str_digits (count_digits (int_repr z)))
  | JList l => forallb ints_within l
  | JDict d => forallb (fun kv => ints_within (snd kv)) d
  | _ => true
  end.

(** A value the server can read and write *)
Definition within (depth : nat) (o : json) : Prop :=
  (nesting o <= depth)%nat /\ ints_within o = true.

(** The property proved by induction on the object for the scanner of
    the server, as [scans_back] is for [scan_once]. *)
Definition scans_back_within (o : json) : Prop :=
  forall (level : nat) (rest : text) (fuel depth : nat),
    delimited rest = true ->
    (2 * List.length (_iterencode o level ++ rest) < fuel)%nat ->
    within depth o ->
    scan_once_unicode fuel depth (_iterencode o level ++ rest) = Ok (o, rest).

(** A value the server reads from a file and writes to a body *)
Definition servable (o : json) : Prop :=
  wf_json o = true /\ within decoder_depth o /\ within encoder_depth o.

(** The scanner of the server against [scan_once]: what it returns,
    [scan_once] returns too, and it raises what [scan_once] raises
    unless it meets a limit. *)
Definition scan_once_sim (fuel : nat) : Prop :=
  forall depth s,
    match scan_once_unicode fuel depth s with
    | Ok (o, r) => scan_once fuel s = Ok (o, r) /\ within depth o
    | Raise e =>
      e = RecursionError \/ e = ValueError \/ scan_once fuel s = Raise e
    end.

Definition array_values_sim (fuel : nat) : Prop :=
  forall depth s,
    match _parse_array_unicode fuel depth s with
    | Ok (vs, r) =>
      array_values fuel s = Ok (vs, r) /\ Forall (within depth) vs
    | Raise e =>
      e = RecursionError \/ e = ValueError \/ array_values fuel s = Raise e
    end.

Definition object_pairs_sim (fuel : nat) : Prop :=
  forall depth s,
    match _parse_object_unicode fuel depth s with
    | Ok (pairs, r) =>
      object_pairs fuel s = Ok (pairs, r)
      /\ Forall (fun kv => within depth (snd kv)) pairs
    | Raise e =>
      e = RecursionError \/ e = ValueError \/ object_pairs fuel s = Raise e
    end.

(** More fuel than twice the length of the text changes nothing: the
    scanner of the server never runs out of it. *)
Definition scan_once_stable (fuel : nat) : Prop :=
  forall depth s extra,
    (2 * List.length s < fuel)%nat ->
    scan_once_unicode (fuel + extra) depth s = scan_once_unicode fuel depth s.

Definition array_values_stable (fuel : nat) : Prop :=
  forall depth s extra,
    (2 * List.length s + 2 <= fuel)%nat ->
    _parse_array_unicode (fuel + extra) depth s
    = _parse_array_unicode fuel depth s.

Definition object_pairs_stable (fuel : nat) : Prop :=
  forall depth s extra,
    (2 * List.length s + 2 <= fuel)%nat ->
    _parse_object_unicode (fuel + extra) depth s
    = _parse_object_unicode fuel depth s.

End LimitNotions.

(** ** Requests and runs *)

Section BackendNotions.
Context {PF : PyFloat} {PL : PyLib}.
Variable script : list text.

(** What a fresh handler has sent after [_send_json] *)
Definition json_response (target : text) (status : Z) (body : bytes)
  : handler :=
  {| path := target; status_line := Some status;
     headers_buffer := json_headers body; headers_ended := true;
     wfile := body; connected := true |}.

(** [json.loads(body.decode('utf-8'))]: what a client reads in a body,
    none of its limits being met *)
Definition response_json (self : handler) : result json :=
  txt <- utf8_decode (map Byte.to_N (wfile self)) ;; loads txt.

(** [json.load(fp)] on a file with the given content *)
Definition file_json (content : bytes) : result json :=
  txt <- read_text content ;; json_loads txt.

(** What a client observes of the handling of one request *)
Definition outcome (r : result served)
  : result (option (option Z * list (text * text) * bytes)) :=
  match r with
  | Ok (Json self) =>
    Ok (Some (status_line self, headers_buffer self, wfile self))
  | Ok (Static _) => Ok None
  | Raise e => Raise e
  end.

Definition is_static (r : result served) : bool :=
  match r with
  | Ok (Static _) => true
  | _ => false
  end.

(** Every entry of a list of opened files is the sample graph, opened
    for reading *)
Definition sample_reads (l : list (Path * text)) : Prop :=
  Forall (fun pm => pm = (SAMPLE_GRAPH_PATH script, str "r")) l.

(** [s'] differs from [s] only in what was printed, replied and opened,
    the files opened being reads of the sample graph *)
Definition same_surroundings (s s' : process) : Prop :=
  fs s' = fs s /\ cwd s' = cwd s /\ environ s' = environ s
  /\ listening s' = listening s
  /\ exists l, opened s' = opened s ++ l /\ sample_reads l.

(** The files a list of reads of the static file handler logs as
    opened *)
Definition static_opened (files : list (Path * bool)) : list (Path * text) :=
  map (fun pb => (fst pb, if snd pb : bool then str "rb" else str "r")) files.

(** Every entry of a list of opened files is opened for reading *)
Definition read_mode (pm : Path * text) : Prop :=
  snd pm = str "r" \/ snd pm = str "rb".

(** [s'] differs from [s] only in what was printed, replied and opened,
    the files opened being opened for reading *)
Definition only_reads (s s' : process) : Prop :=
  fs s' = fs s /\ cwd s' = cwd s /\ environ s' = environ s
  /\ listening s' = listening s
  /\ exists l, opened s' = opened s ++ l /\ Forall read_mode l.

(** The static root of a run, and whether it is a directory *)
Definition static_root (args : Namespace) : Path :=
  joinpath (ROOT_DIR script) (args_root args).

Definition static_root_ok (args : Namespace) (s : process) : bool :=
  path_exists (static_root args) s && path_is_dir (static_root args) s.

(** The state in which [main] starts to serve *)
Definition serving (args : Namespace) (s : process) : process :=
  print (str "  - GET /api/sample-graph")
    (print (str "  - GET /api/health")
      (print (str "API endpoints:")
        (print (str "Static root: " ++ path_str (static_root args))
          (print (str "Backend serving on http://" ++ args_host args
                    ++ str ":" ++ int_repr (args_port args))
            (set_listening (Some (args_host args, args_port args))
              (set_cwd (os_path s (static_root args)) s)))))).

End BackendNotions.

(** ** A deployment under [/srv/app], for the examples

    The script is [/srv/app/backend/server.py], the static root
    [/srv/app/dist] is a directory and the sample graph is what each
    example says. *)

Definition example_script : list text :=
  [str "srv"; str "app"; str "backend"; str "server.py"].

Definition example_fs (sample : node) : filesystem :=
  fun p =>
    if path_eqb p {| root := Root;
                     parts := [str "srv"; str "app"; str "data";
                               str "sample-graph.json"] |}
    then sample
    else if path_eqb p {| root := Root; parts := [str "srv"; str "app"] |}
            || path_eqb p {| root := Root;
                             parts := [str "srv"; str "app"; str "dist"] |}
    then Directory
    else Absent.

Definition example_process (sample : node) (port : option text) : process :=
  {| fs := example_fs sample;
     cwd := {| root := Root; parts := [str "srv"; str "app"] |};
     environ := fun k => if text_eqb k (str "PORT") then port else None;
     stdout := []; stderr := []; opened := []; listening := None;
     replies := [] |}.

Definition example_world (failure : option exn) (events : list event)
  : world :=
  {| bind_error := fun _ _ => failure; incoming := events;
     serving_ends := Some KeyboardInterrupt |}.

Definition example_parsed (p query : text) : ParseResult :=
  {| url_scheme := []; url_netloc := []; url_path := p; url_params := [];
     url_query := query; url_fragment := [] |}.

Definition file_of (t : text) : node := RegularFile (map byte_of_N t).

(** The text [{"nodes": [1, 2]}] *)
Definition example_graph : text :=
  [c_lbrace; c_quote] ++ str "nodes" ++ [c_quote] ++ str ": [1, 2]}".

(** The decimal literal of 4301 digits [11...1] *)
Definition long_integer : text := repeat 49 4301.

(** [n] opening square brackets and [n] closing ones: empty arrays, one
    in the other, and the value they denote *)
Definition deep_array (n : nat) : text :=
  repeat c_lbracket n ++ repeat c_rbracket n.

Fixpoint deep_list {PF : PyFloat} (n : nat) : json :=
  match n with
  | O => JList []
  | S n => JList [deep_list n]
  end.

(** The deployment with a file [index.html] in the static root *)
Definition example_index : Path :=
  {| root := Root;
     parts := [str "srv"; str "app"; str "dist"; str "index.html"] |}.

Definition example_site (sample : node) (index : bytes) : process :=
  {| fs := fun p => if path_eqb p example_index then RegularFile index
                    else example_fs sample p;
     cwd := {| root := Root; parts := [str "srv"; str "app"] |};
     environ := fun _ => None;
     stdout := []; stderr := []; opened := []; listening := None;
     replies := [] |}.

(** Two values for the sample graph *)
Definition example_value {PF : PyFloat} (nodes : list Z) : json :=
  JDict [(str "nodes", JList (map JInt nodes))].

(** A reply is an HTTP response with the given status *)
Definition responds_with (status : Z) (r : result reply) : Prop :=
  exists self, r = Ok (Response self) /\ status_line self = Some status.

(** ** Notions of the further properties *)

(** The requests among the events of a run *)
Fixpoint count_requests (events : list event) : nat :=
  match events with
  | [] => 0%nat
  | Request _ :: events' => S (count_requests events')
  | FileSystemChange _ :: events' => count_requests events'
  | Hangup _ :: events' => S (count_requests events')
  end.

(** The exceptions [do_GET] can raise *)
Definition handler_errors : list exn :=
  [ValueError; UnicodeEncodeError; IsADirectoryError; UnicodeDecodeError;
   JSONDecodeError; RecursionError; BrokenPipeError].

(** A character the encoder writes: a line feed or a printable ASCII
    character *)
Definition printable (c : N) : bool :=
  (c =? c_lf) || ((c_space <=? c) && (c <=? 126)).

Definition printable_text (t : text) : bool := forallb printable t.

(** A byte no UTF-8 text holds: [0xC0], [0xC1] and [0xF5] to [0xFF] *)
Definition never_utf8 (b : N) : bool :=
  (b =? 0xc0) || (b =? 0xc1) || (0xf5 <=? b).


(** * Properties *)


Arguments is_digit : simpl never.
Arguments is_ws : simpl never.
Arguments is_surrogate : simpl never.
Arguments is_high_surrogate : simpl never.
Arguments is_low_surrogate : simpl never.
Arguments valid_char : simpl never.
Arguments hexval : simpl never.
Arguments N.mul : simpl never.
Arguments N.add : simpl never.
Arguments N.sub : simpl never.
Arguments N.leb : simpl never.
Arguments N.ltb : simpl never.
Arguments N.eqb : simpl never.
Arguments N.div : simpl never.
Arguments N.modulo : simpl never.

(** ** Text *)

Lemma text_eqb_eq (a b : text) : text_eqb a b = true <-> a = b.
Proof.
  revert b; induction a as [|x a IH]; intros [|y b]; simpl;
    try (split; [discriminate | congruence]); try tauto.
  rewrite andb_true_iff, N.eqb_eq, IH. split.
  - intros [-> ->]; reflexivity.
  - intros E; injection E; auto.
Qed.

Lemma text_eqb_refl (a : text) : text_eqb a a = true.
Proof. apply text_eqb_eq; reflexivity. Qed.

Lemma text_eqb_neq (a b : text) : text_eqb a b = false <-> a <> b.
Proof.
  rewrite <- text_eqb_eq. destruct (text_eqb a b); split; congruence.
Qed.

Lemma strip_prefix_app (p r : text) : strip_prefix p (p ++ r) = Some r.
Proof.
  induction p as [|x p IH]; simpl; [reflexivity|].
  rewrite N.eqb_refl; exact IH.
Qed.

Lemma strip_prefix_Some (p s r : text) :
  strip_prefix p s = Some r -> s = p ++ r.
Proof.
  revert s; induction p as [|x p IH]; intros s; simpl.
  - congruence.
  - destruct s as [|y s]; [discriminate|].
    destruct (N.eqb_spec x y); [|discriminate].
    intros H; apply IH in H; subst; reflexivity.
Qed.

Lemma strip_prefix_head (p s : text) (x y : N) :
  x <> y -> strip_prefix (x :: p) (y :: s) = None.
Proof.
  intros H; simpl. destruct (N.eqb_spec x y); congruence.
Qed.

(** ** Decimal digits *)

Lemma uint_chars_digits (d : Decimal.uint) :
  forallb is_digit (uint_chars d) = true.
Proof. induction d; simpl; auto. Qed.

Lemma chars_uint_of_chars (d : Decimal.uint) : chars_uint (uint_chars d) = d.
Proof. induction d; simpl; congruence. Qed.

Lemma span_digits_app (ds rest : text) :
  forallb is_digit ds = true -> starts_with_digit rest = false ->
  span_digits (ds ++ rest) = (ds, rest).
Proof.
  intros Hd Hr; induction ds as [|c ds IH]; simpl in *.
  - destruct rest as [|c r]; simpl in *; [reflexivity|].
    rewrite Hr; reflexivity.
  - apply andb_true_iff in Hd as [Hc Hd].
    rewrite Hc, (IH Hd); reflexivity.
Qed.

Lemma span_digits_spec (s ds r : text) :
  span_digits s = (ds, r) ->
  s = ds ++ r /\ forallb is_digit ds = true /\ starts_with_digit r = false.
Proof.
  revert ds r; induction s as [|c s IH]; simpl; intros ds r H.
  - injection H as <- <-; auto.
  - destruct (is_digit c) eqn:Hc.
    + destruct (span_digits s) as [ds' r'].
      injection H as <- <-.
      destruct (IH _ _ eq_refl) as (-> & Hd & Hr).
      simpl; rewrite Hc; auto.
    + injection H as <- <-; simpl; rewrite Hc; auto.
Qed.

(** The digits of a positive number do not start with a zero. *)
Lemma to_uint_head (p : positive) :
  exists c r, uint_chars (Pos.to_uint p) = c :: r
              /\ is_digit c = true /\ c <> c_0.
Proof.
  pose proof (DecimalPos.Unsigned.to_uint_nonzero p) as Hz.
  pose proof (DecimalPos.Unsigned.to_uint_nonnil p) as Hn.
  assert (Hu : Decimal.unorm (Pos.to_uint p) = Pos.to_uint p).
  { pose proof (DecimalPos.Unsigned.to_of (Pos.to_uint p)) as H.
    rewrite DecimalPos.Unsigned.of_to in H. simpl in H. congruence. }
  destruct (Pos.to_uint p) as [|d|d|d|d|d|d|d|d|d|d] eqn:E;
    try congruence;
    try (simpl; eexists; eexists; split; [reflexivity|];
         split; [reflexivity | discriminate]).
  exfalso. rewrite DecimalFacts.unorm_D0 in Hu.
  unfold Decimal.unorm in Hu.
  pose proof (DecimalFacts.nzhead_nonzero d d) as Hnz.
  destruct (Decimal.nzhead d) eqn:E'; congruence.
Qed.

Lemma int_of_literal_repr (z : Z) : int_of_literal (int_repr z) = z.
Proof.
  pose proof (DecimalZ.of_to z) as H.
  unfold int_repr, int_of_literal.
  destruct z as [|p|p]; simpl Z.to_int in *.
  - reflexivity.
  - destruct (to_uint_head p) as (c & r & E & Hd & Hc). rewrite E.
    destruct (N.eqb_spec c c_minus) as [->|_]; [discriminate Hd|].
    rewrite <- E, chars_uint_of_chars. exact H.
  - cbn iota. rewrite N.eqb_refl, chars_uint_of_chars. exact H.
Qed.

(** ** Number literals *)

Ltac head_cases H :=
  match type of H with
  | delimited ?t = true =>
    destruct t as [|?c ?t]; simpl in H;
    [| apply orb_true_iff in H as [H|H]; apply N.eqb_eq in H; subst ]
  end.

Lemma delimited_not_digit (t : text) :
  delimited t = true -> starts_with_digit t = false.
Proof. intros H; head_cases H; reflexivity. Qed.

Lemma span_digits_ext (s ds r t : text) :
  span_digits s = (ds, r) -> starts_with_digit t = false ->
  span_digits (s ++ t) = (ds, r ++ t).
Proof.
  intros H Ht. apply span_digits_spec in H as (-> & Hd & Hr).
  rewrite <- List.app_assoc. apply span_digits_app; [exact Hd|].
  destruct r; simpl in *; auto.
Qed.

Lemma match_integer_ext (s i r t : text) :
  match_integer s = Some (i, r) -> starts_with_digit t = false ->
  match_integer (s ++ t) = Some (i, r ++ t).
Proof.
  unfold match_integer. intros H Ht.
  assert (Hgen : forall sign s1,
    match s1 with
    | c :: r0 =>
      if c =? c_0 then Some (sign ++ [c], r0)
      else if is_digit c then
        let (ds, r') := span_digits r0 in Some (sign ++ c :: ds, r')
      else None
    | [] => None
    end = Some (i, r) ->
    match s1 ++ t with
    | c :: r0 =>
      if c =? c_0 then Some (sign ++ [c], r0)
      else if is_digit c then
        let (ds, r') := span_digits r0 in Some (sign ++ c :: ds, r')
      else None
    | [] => None
    end = Some (i, r ++ t)).
  { intros sign [|c r0]; simpl; [discriminate|].
    destruct (c =? c_0); [intros E; injection E as <- <-; reflexivity|].
    destruct (is_digit c); [|discriminate].
    destruct (span_digits r0) as [ds r'] eqn:E.
    rewrite (span_digits_ext _ _ _ _ E Ht).
    intros E'; injection E' as <- <-; reflexivity. }
  destruct s as [|c s']; simpl in *; [discriminate|].
  destruct (c =? c_minus).
  - apply Hgen; exact H.
  - apply (Hgen [] (c :: s')); exact H.
Qed.

Lemma match_frac_ext (s fr r t : text) :
  match_frac s = (fr, r) -> delimited t = true ->
  match_frac (s ++ t) = (fr, r ++ t).
Proof.
  intros H Ht. pose proof (delimited_not_digit _ Ht) as Hd.
  destruct s as [|c s']; simpl in *.
  - injection H as <- <-. head_cases Ht; reflexivity.
  - destruct (c =? c_dot); [|injection H as <- <-; reflexivity].
    destruct (span_digits s') as [ds r'] eqn:E.
    rewrite (span_digits_ext _ _ _ _ E Hd).
    destruct ds; injection H as <- <-; reflexivity.
Qed.

Lemma match_exp_ext (s ex r t : text) :
  match_exp s = (ex, r) -> delimited t = true ->
  match_exp (s ++ t) = (ex, r ++ t).
Proof.
  intros H Ht. pose proof (delimited_not_digit _ Ht) as Hd.
  destruct s as [|c s']; simpl in *.
  - injection H as <- <-. head_cases Ht; reflexivity.
  - destruct ((c =? c_e) || (c =? c_E)); [|injection H as <- <-; reflexivity].
    destruct s' as [|g s'']; simpl in *.
    + injection H as <- <-. head_cases Ht; reflexivity.
    + destruct ((g =? c_minus) || (g =? c_plus)).
      * destruct (span_digits s'') as [ds r'] eqn:E.
        rewrite (span_digits_ext _ _ _ _ E Hd).
        destruct ds; injection H as <- <-; reflexivity.
      * change (g :: s'' ++ t) with ((g :: s'') ++ t).
        destruct (span_digits (g :: s'')) as [ds r'] eqn:E.
        rewrite (span_digits_ext _ _ _ _ E Hd).
        destruct ds; injection H as <- <-; reflexivity.
Qed.

Lemma match_number_ext (l i fr ex t : text) :
  match_number l = Some (i, fr, ex, []) -> delimited t = true ->
  match_number (l ++ t) = Some (i, fr, ex, t).
Proof.
  unfold match_number. intros H Ht.
  destruct (match_integer l) as [[i' r1]|] eqn:E1; [|discriminate].
  rewrite (match_integer_ext _ _ _ _ E1 (delimited_not_digit _ Ht)).
  destruct (match_frac r1) as [fr' r2] eqn:E2.
  rewrite (match_frac_ext _ _ _ _ E2 Ht).
  destruct (match_exp r2) as [ex' r3] eqn:E3.
  rewrite (match_exp_ext _ _ _ _ E3 Ht).
  injection H as <- <- <- ->. reflexivity.
Qed.

Lemma match_integer_spec (s i r : text) :
  match_integer s = Some (i, r) ->
  s = i ++ r /\ exists c i', i = c :: i' /\ (c = c_minus \/ is_digit c = true).
Proof.
  unfold match_integer. intros H.
  assert (Hgen : forall sign s1,
    match s1 with
    | c :: r0 =>
      if c =? c_0 then Some (sign ++ [c], r0)
      else if is_digit c then
        let (ds, r') := span_digits r0 in Some (sign ++ c :: ds, r')
      else None
    | [] => None
    end = Some (i, r) ->
    sign ++ s1 = i ++ r /\
    exists c i', s1 = c :: i' /\ is_digit c = true /\
                 exists i'', i = sign ++ c :: i'').
  { intros sign [|c r0]; [discriminate|].
    destruct (N.eqb_spec c c_0) as [->|_].
    - intros E; injection E as <- <-. rewrite <- List.app_assoc. split; [reflexivity|].
      eauto 6.
    - destruct (is_digit c) eqn:Hc; [|discriminate].
      destruct (span_digits r0) as [ds r'] eqn:E.
      apply span_digits_spec in E as (-> & _ & _).
      intros E; injection E as <- <-. rewrite <- List.app_assoc. split; [reflexivity|].
      eauto 6. }
  destruct s as [|c s']; [discriminate|].
  destruct (N.eqb_spec c c_minus) as [->|_].
  - apply Hgen in H as (E & c & i' & -> & Hc & i'' & ->).
    split; [exact E|]. simpl. eauto.
  - apply (Hgen [] (c :: s')) in H as (E & c' & i' & E' & Hc & i'' & ->).
    split; [exact E|]. simpl. eauto.
Qed.

Lemma match_frac_spec (s fr r : text) : match_frac s = (fr, r) -> s = fr ++ r.
Proof.
  destruct s as [|c s']; simpl.
  - intros H; injection H as <- <-; reflexivity.
  - destruct (c =? c_dot); [|intros H; injection H as <- <-; reflexivity].
    destruct (span_digits s') as [ds r'] eqn:E.
    apply span_digits_spec in E as (-> & _ & _).
    destruct ds; intros H; injection H as <- <-; reflexivity.
Qed.

Lemma match_exp_spec (s ex r : text) : match_exp s = (ex, r) -> s = ex ++ r.
Proof.
  destruct s as [|c s']; simpl.
  - intros H; injection H as <- <-; reflexivity.
  - destruct ((c =? c_e) || (c =? c_E)); [|intros H; injection H as <- <-; reflexivity].
    destruct s' as [|g s'']; simpl.
    + intros H; injection H as <- <-; reflexivity.
    + destruct ((g =? c_minus) || (g =? c_plus)).
      * destruct (span_digits s'') as [ds r'] eqn:E.
        apply span_digits_spec in E as (-> & _ & _).
        destruct ds; intros H; injection H as <- <-; reflexivity.
      * destruct (span_digits (g :: s'')) as [ds r'] eqn:E.
        apply span_digits_spec in E as (E & _ & _).
        destruct ds; intros H; injection H as <- <-; simpl in *; congruence.
Qed.

Lemma match_number_spec (s i fr ex r : text) :
  match_number s = Some (i, fr, ex, r) ->
  s = i ++ fr ++ ex ++ r /\
  exists c i', i = c :: i' /\ (c = c_minus \/ is_digit c = true).
Proof.
  unfold match_number. intros H.
  destruct (match_integer s) as [[i' r1]|] eqn:E1; [|discriminate].
  destruct (match_frac r1) as [fr' r2] eqn:E2.
  destruct (match_exp r2) as [ex' r3] eqn:E3.
  injection H as <- <- <- <-.
  apply match_integer_spec in E1 as (-> & Hi).
  apply match_frac_spec in E2 as ->.
  apply match_exp_spec in E3 as ->.
  auto.
Qed.

Lemma match_number_int (z : Z) (t : text) :
  delimited t = true ->
  match_number (int_repr z ++ t) = Some (int_repr z, [], [], t).
Proof.
  intros Ht.
  replace (int_repr z) with (int_repr z ++ []) at 1 by apply List.app_nil_r.
  rewrite <- List.app_assoc.
  assert (H : match_number (int_repr z) = Some (int_repr z, [], [], [])).
  { unfold match_number, match_integer, int_repr.
    destruct z as [|p|p]; simpl Z.to_int; cbn iota.
    - reflexivity.
    - destruct (to_uint_head p) as (c & r & E & Hd & Hc). rewrite E.
      destruct (N.eqb_spec c c_minus) as [->|_]; [discriminate Hd|].
      destruct (N.eqb_spec c c_0) as [|_]; [contradiction|].
      rewrite Hd.
      pose proof (uint_chars_digits (Pos.to_uint p)) as Hall.
      rewrite E in Hall. simpl in Hall. rewrite Hd in Hall. simpl in Hall.
      replace r with (r ++ []) at 1 by apply List.app_nil_r.
      rewrite (span_digits_app r [] Hall eq_refl). reflexivity.
    - rewrite N.eqb_refl.
      destruct (to_uint_head p) as (c & r & E & Hd & Hc). rewrite E.
      destruct (N.eqb_spec c c_0) as [|_]; [contradiction|].
      rewrite Hd.
      pose proof (uint_chars_digits (Pos.to_uint p)) as Hall.
      rewrite E in Hall. simpl in Hall. rewrite Hd in Hall. simpl in Hall.
      replace r with (r ++ []) at 1 by apply List.app_nil_r.
      rewrite (span_digits_app r [] Hall eq_refl). reflexivity. }
  simpl app. apply (match_number_ext _ _ _ _ _ H Ht).
Qed.

(** ** Hexadecimal escapes and surrogate pairs *)

(** Decide the comparisons in the goal, one after the other. *)
Ltac nb :=
  repeat match goal with
  | |- context [?a <=? ?b] => destruct (N.leb_spec a b); try lia
  | |- context [?a <? ?b] => destruct (N.ltb_spec a b); try lia
  | |- context [?a =? ?b] => destruct (N.eqb_spec a b); try lia
  end; simpl.

Lemma hexval_hexdigit (d : N) : d < 16 -> hexval (hexdigit d) = Some d.
Proof.
  intros H. unfold hexval, hexdigit, is_digit. nb; f_equal; lia.
Qed.

Lemma decode_hex4_hex4 (n : N) (t : text) :
  n < 0x10000 ->
  match hex4 n ++ t with
  | h1 :: h2 :: h3 :: h4 :: t' => decode_hex4 h1 h2 h3 h4 = Some n /\ t' = t
  | _ => False
  end.
Proof.
  intros H. unfold hex4, decode_hex4; simpl.
  rewrite !hexval_hexdigit by (apply N.mod_lt; lia).
  split; [f_equal|reflexivity].
  pose proof (N.div_mod n 16). pose proof (N.div_mod (n / 16) 16).
  pose proof (N.div_mod (n / 256) 16).
  assert (n / 256 = n / 16 / 16) by (rewrite N.Div0.div_div; reflexivity).
  assert (n / 4096 = n / 256 / 16) by (rewrite N.Div0.div_div; reflexivity).
  assert (n / 4096 < 16) by (apply N.Div0.div_lt_upper_bound; lia).
  rewrite (N.mod_small (n / 4096) 16) by assumption.
  lia.
Qed.

Lemma lor_add (a b k : N) : b < 2 ^ k -> N.lor (a * 2 ^ k) b = a * 2 ^ k + b.
Proof.
  intros Hb.
  assert (H0 : N.land (a * 2 ^ k) b = 0).
  { apply N.bits_inj_0. intros m. rewrite N.land_spec.
    destruct (N.lt_ge_cases m k) as [Hm|Hm].
    - rewrite N.mul_pow2_bits_low by exact Hm. reflexivity.
    - rewrite <- (N.mod_small b (2 ^ k)) by exact Hb.
      rewrite N.mod_pow2_bits_high by exact Hm. apply andb_false_r. }
  rewrite (N.add_nocarry_lxor _ _ H0). symmetry. apply N.lxor_lor. exact H0.
Qed.

Lemma high_half_eq (c : N) :
  0x10000 <= c -> c < 0x110000 -> high_half c = 0xd800 + (c - 0x10000) / 1024.
Proof.
  intros H1 H2. unfold high_half.
  change 0x3ff with (N.ones 10). rewrite N.land_ones, N.shiftr_div_pow2.
  change (2 ^ 10) with 1024.
  assert ((c - 0x10000) / 1024 < 1024)
    by (apply N.Div0.div_lt_upper_bound; lia).
  rewrite N.mod_small by assumption.
  change 0xd800 with (54 * 2 ^ 10). apply lor_add. assumption.
Qed.

Lemma low_half_eq (c : N) :
  low_half c = 0xdc00 + (c - 0x10000) mod 1024.
Proof.
  unfold low_half.
  change 0x3ff with (N.ones 10). rewrite N.land_ones.
  change (2 ^ 10) with 1024.
  change 0xdc00 with (55 * 2 ^ 10). apply lor_add.
  apply N.mod_lt. discriminate.
Qed.

Lemma join_halves (c : N) :
  0x10000 <= c -> c < 0x110000 ->
  join_surrogates (high_half c) (low_half c) = c.
Proof.
  intros H1 H2. unfold join_surrogates.
  rewrite high_half_eq, low_half_eq by assumption.
  rewrite N.shiftl_mul_pow2.
  rewrite (N.add_comm 0xd800), (N.add_comm 0xdc00), !N.add_sub.
  rewrite lor_add by (apply N.mod_lt; discriminate).
  change (2 ^ 10) with 1024.
  pose proof (N.div_mod (c - 0x10000) 1024). lia.
Qed.

Lemma halves_range (c : N) :
  0x10000 <= c -> c < 0x110000 ->
  is_high_surrogate (high_half c) = true /\ is_low_surrogate (low_half c) = true.
Proof.
  intros H1 H2. rewrite high_half_eq, low_half_eq by assumption.
  assert ((c - 0x10000) / 1024 < 1024)
    by (apply N.Div0.div_lt_upper_bound; lia).
  assert ((c - 0x10000) mod 1024 < 1024) by (apply N.mod_lt; discriminate).
  unfold is_high_surrogate, is_low_surrogate.
  generalize dependent ((c - 0x10000) / 1024).
  generalize dependent ((c - 0x10000) mod 1024).
  intros; split; nb; reflexivity.
Qed.

(** ** Strings: [scanstring] undoes [encode_basestring_ascii] *)

Lemma scanstring_u_escape (n : N) (t : text) :
  n < 0x10000 ->
  (is_high_surrogate n = true -> pair_safe t = true) ->
  scanstring (u_escape n ++ t) = cons_char n (scanstring t).
Proof.
  intros Hn Hsafe. unfold u_escape.
  pose proof (decode_hex4_hex4 n t Hn) as Hd.
  change ((c_backslash :: c_u :: hex4 n) ++ t)
    with (c_backslash :: c_u :: (hex4 n ++ t)).
  destruct (hex4 n ++ t) as [|h1 [|h2 [|h3 [|h4 t']]]]; try contradiction.
  destruct Hd as [Hd ->].
  cbn [scanstring]. change (c_backslash =? c_quote) with false.
  change (c_backslash =? c_backslash) with true.
  change (c_u =? c_u) with true. cbn iota. rewrite Hd.
  destruct (is_high_surrogate n) eqn:Hh; [|reflexivity].
  specialize (Hsafe eq_refl). unfold pair_safe in Hsafe.
  destruct (starts_with_backslash_u t) eqn:Hs; [|reflexivity].
  cbn [andb].
  destruct t as [|a [|b [|l1 [|l2 [|l3 [|l4 t']]]]]]; try discriminate.
  destruct (decode_hex4 l1 l2 l3 l4) as [uni2|]; [|discriminate].
  destruct (is_low_surrogate uni2); [discriminate|reflexivity].
Qed.

Lemma scanstring_pair (c : N) (t : text) :
  0x10000 <= c -> c < 0x110000 ->
  scanstring (u_escape (high_half c) ++ u_escape (low_half c) ++ t)
  = cons_char c (scanstring t).
Proof.
  intros H1 H2.
  destruct (halves_range c H1 H2) as [Hh Hl].
  assert (Hh' : high_half c < 0x10000)
    by (unfold is_high_surrogate in Hh; apply andb_true_iff in Hh as [_ Hh];
        apply N.leb_le in Hh; lia).
  assert (Hl' : low_half c < 0x10000)
    by (unfold is_low_surrogate in Hl; apply andb_true_iff in Hl as [_ Hl];
        apply N.leb_le in Hl; lia).
  unfold u_escape at 1.
  pose proof (decode_hex4_hex4 (high_half c) (u_escape (low_half c) ++ t) Hh')
    as Hd.
  change ((c_backslash :: c_u :: hex4 (high_half c)) ++ ?x)
    with (c_backslash :: c_u :: (hex4 (high_half c) ++ x)).
  destruct (hex4 (high_half c) ++ u_escape (low_half c) ++ t)
    as [|h1 [|h2 [|h3 [|h4 t']]]]; try contradiction.
  destruct Hd as [Hd ->].
  cbn [scanstring]. change (c_backslash =? c_quote) with false.
  change (c_backslash =? c_backslash) with true.
  change (c_u =? c_u) with true. cbn iota. rewrite Hd, Hh.
  unfold u_escape.
  pose proof (decode_hex4_hex4 (low_half c) t Hl') as Hd2.
  change ((c_backslash :: c_u :: hex4 (low_half c)) ++ t)
    with (c_backslash :: c_u :: (hex4 (low_half c) ++ t)).
  destruct (hex4 (low_half c) ++ t)
    as [|l1 [|l2 [|l3 [|l4 t']]]]; try contradiction.
  destruct Hd2 as [Hd2 ->].
  cbn [starts_with_backslash_u andb].
  change (c_backslash =? c_backslash) with true.
  change (c_u =? c_u) with true. cbn [andb].
  rewrite Hd2, Hl, join_halves by assumption. reflexivity.
Qed.

Lemma scanstring_escape_char (c : N) (t : text) :
  valid_char c = true ->
  (is_high_surrogate c = true -> pair_safe t = true) ->
  scanstring (escape_char c ++ t) = cons_char c (scanstring t).
Proof.
  intros Hv Hsafe. unfold valid_char in Hv. apply N.ltb_lt in Hv.
  unfold escape_char.
  destruct (N.eqb_spec c c_backslash) as [->|N1]; [reflexivity|].
  destruct (N.eqb_spec c c_quote) as [->|N2]; [reflexivity|].
  destruct (N.eqb_spec c 8) as [->|N3]; [reflexivity|].
  destruct (N.eqb_spec c 12) as [->|N4]; [reflexivity|].
  destruct (N.eqb_spec c c_lf) as [->|N5]; [reflexivity|].
  destruct (N.eqb_spec c c_cr) as [->|N6]; [reflexivity|].
  destruct (N.eqb_spec c c_tab) as [->|N7]; [reflexivity|].
  destruct ((c_space <=? c) && (c <=? 126)) eqn:Hp.
  - apply andb_true_iff in Hp as [Hp1 Hp2].
    apply N.leb_le in Hp1. apply N.leb_le in Hp2.
    cbn [app scanstring]. nb. reflexivity.
  - destruct (N.ltb_spec c 0x10000) as [Hlt|Hge].
    + apply scanstring_u_escape; assumption.
    + cbv zeta. fold (high_half c). fold (low_half c).
      rewrite <- List.app_assoc. apply scanstring_pair; assumption.
Qed.

Lemma pair_safe_escape_char (c : N) (t : text) :
  valid_char c = true -> is_low_surrogate c = false ->
  pair_safe (escape_char c ++ t) = true.
Proof.
  intros Hv Hl. unfold valid_char in Hv. apply N.ltb_lt in Hv.
  unfold escape_char.
  destruct (N.eqb_spec c c_backslash) as [->|N1]; [reflexivity|].
  destruct (N.eqb_spec c c_quote) as [->|N2]; [reflexivity|].
  destruct (N.eqb_spec c 8) as [->|N3]; [reflexivity|].
  destruct (N.eqb_spec c 12) as [->|N4]; [reflexivity|].
  destruct (N.eqb_spec c c_lf) as [->|N5]; [reflexivity|].
  destruct (N.eqb_spec c c_cr) as [->|N6]; [reflexivity|].
  destruct (N.eqb_spec c c_tab) as [->|N7]; [reflexivity|].
  assert (Hu : forall n t', n < 0x10000 -> is_low_surrogate n = false ->
                            pair_safe (u_escape n ++ t') = true).
  { intros n t' Hn Hnl. unfold u_escape.
    pose proof (decode_hex4_hex4 n t' Hn) as Hd.
    change ((c_backslash :: c_u :: hex4 n) ++ t')
      with (c_backslash :: c_u :: (hex4 n ++ t')).
    destruct (hex4 n ++ t') as [|h1 [|h2 [|h3 [|h4 t'']]]]; try contradiction.
    destruct Hd as [Hd ->]. unfold pair_safe.
    cbn [starts_with_backslash_u].
    change (c_backslash =? c_backslash) with true.
    change (c_u =? c_u) with true. cbn [andb].
    rewrite Hd, Hnl. reflexivity. }
  destruct ((c_space <=? c) && (c <=? 126)) eqn:Hp.
  - unfold pair_safe. cbn [app starts_with_backslash_u].
    destruct t as [|u t']; [reflexivity|].
    destruct (N.eqb_spec c c_backslash); [contradiction|reflexivity].
  - destruct (N.ltb_spec c 0x10000) as [Hlt|Hge].
    + apply Hu; assumption.
    + cbv zeta. fold (high_half c). fold (low_half c).
      rewrite <- List.app_assoc.
      destruct (halves_range c Hge Hv) as [Hh _].
      apply Hu.
      * unfold is_high_surrogate in Hh. apply andb_true_iff in Hh as [_ Hh].
        apply N.leb_le in Hh. lia.
      * unfold is_high_surrogate in Hh. unfold is_low_surrogate.
        apply andb_true_iff in Hh as [Hh1 Hh2].
        apply N.leb_le in Hh1. apply N.leb_le in Hh2. nb; reflexivity.
Qed.

Lemma scanstring_encode (s rest : text) :
  wf_str s = true ->
  scanstring (flat_map escape_char s ++ c_quote :: rest) = Ok (s, rest).
Proof.
  unfold wf_str. rewrite andb_true_iff. intros [Hv Hp].
  induction s as [|c s IH]; [reflexivity|].
  cbn [flat_map]. rewrite <- List.app_assoc.
  cbn [forallb] in Hv. apply andb_true_iff in Hv as [Hc Hv].
  cbn [no_surrogate_pair] in Hp. apply andb_true_iff in Hp as [Hcp Hp].
  rewrite scanstring_escape_char.
  - rewrite (IH Hv Hp). reflexivity.
  - exact Hc.
  - intros Hh. destruct s as [|b s']; [destruct rest; reflexivity|].
    rewrite Hh in Hcp. cbn [andb] in Hcp. apply negb_true_iff in Hcp.
    cbn [flat_map]. rewrite <- List.app_assoc.
    cbn [forallb] in Hv. apply andb_true_iff in Hv as [Hb _].
    apply pair_safe_escape_char; assumption.
Qed.

(** ** Whitespace and the first character of an encoded value *)

Lemma skip_ws_spaces (n : nat) (t : text) :
  skip_ws (repeat c_space n ++ t) = skip_ws t.
Proof. induction n; simpl; auto. Qed.

Lemma skip_ws_newline_indent (level : nat) (t : text) :
  skip_ws (newline_indent level ++ t) = skip_ws t.
Proof. unfold newline_indent. cbn [app skip_ws]. apply skip_ws_spaces. Qed.

Lemma starts_value_skip_ws (t : text) : starts_value t = true -> skip_ws t = t.
Proof.
  destruct t as [|c t]; [discriminate|]. simpl.
  destruct (is_ws c); [discriminate|reflexivity].
Qed.

Lemma starts_value_app (a b : text) :
  starts_value a = true -> starts_value (a ++ b) = true.
Proof. destruct a; [discriminate|auto]. Qed.

Lemma length_newline_indent (level : nat) :
  List.length (newline_indent level) = S (2 * level).
Proof. unfold newline_indent. simpl. rewrite repeat_length. lia. Qed.

Lemma delimited_newline_indent (level : nat) (t : text) :
  delimited (newline_indent level ++ t) = true.
Proof. reflexivity. Qed.

(** ** Induction on Python objects *)

Section JsonFacts.
Context {PF : PyFloat}.

Lemma json_ind (P : json -> Prop)
  (HNull : P JNull)
  (HBool : forall b, P (JBool b))
  (HInt : forall z, P (JInt z))
  (HFloat : forall f, P (JFloat f))
  (HString : forall s, P (JString s))
  (HList : forall l, Forall P l -> P (JList l))
  (HDict : forall d, Forall (fun kv => P (snd kv)) d -> P (JDict d)) :
  forall o, P o.
Proof.
  exact (fix IH (o : json) : P o :=
    match o with
    | JNull => HNull
    | JBool b => HBool b
    | JInt z => HInt z
    | JFloat f => HFloat f
    | JString s => HString s
    | JList l =>
      HList l ((fix items (l : list json) : Forall P l :=
                  match l with
                  | [] => Forall_nil P
                  | x :: l' => Forall_cons x (IH x) (items l')
                  end) l)
    | JDict d =>
      HDict d ((fix items (d : list (text * json))
                  : Forall (fun kv => P (snd kv)) d :=
                  match d with
                  | [] => Forall_nil _
                  | kv :: d' =>
                    Forall_cons (P:=fun kv => P (snd kv)) kv (IH (snd kv))
                                (items d')
                  end) d)
    end).
Qed.

Lemma iterencode_list (v : json) (vs : list json) (level : nat) :
  _iterencode (JList (v :: vs)) level
  = c_lbracket :: newline_indent (S level)
      ++ join_chunks (c_comma :: newline_indent (S level))
           (map (fun value => _iterencode value (S level)) (v :: vs))
      ++ newline_indent level ++ [c_rbracket].
Proof. reflexivity. Qed.

Lemma iterencode_dict (kv : text * json) (d : list (text * json)) (level : nat) :
  _iterencode (JDict (kv :: d)) level
  = c_lbrace :: newline_indent (S level)
      ++ join_chunks (c_comma :: newline_indent (S level))
           (map (fun '(key, value) =>
                   encode_basestring_ascii key ++ str ": "
                     ++ _iterencode value (S level)) (kv :: d))
      ++ newline_indent level ++ [c_rbrace].
Proof. reflexivity. Qed.

(** ** [dict(pairs)] of pairs with distinct keys *)

Lemma dict_set_fresh (d : list (text * json)) (k : text) (v : json) :
  existsb (text_eqb k) (map fst d) = false ->
  dict_set d k v = d ++ [(k, v)].
Proof.
  induction d as [|[k' v'] d IH]; simpl; [reflexivity|].
  intros H. apply orb_false_iff in H as [Hk H].
  assert (Hk' : text_eqb k' k = false).
  { apply text_eqb_neq. apply text_eqb_neq in Hk. congruence. }
  rewrite Hk', (IH H). reflexivity.
Qed.

Lemma existsb_app_false (k : text) (a b : list text) :
  existsb (text_eqb k) (a ++ b) = false <->
  existsb (text_eqb k) a = false /\ existsb (text_eqb k) b = false.
Proof. rewrite existsb_app. apply orb_false_iff. Qed.

Lemma fold_dict_set_distinct (pairs acc : list (text * json)) :
  distinct (map fst (acc ++ pairs)) = true ->
  fold_left (fun d kv => dict_set d (fst kv) (snd kv)) pairs acc = acc ++ pairs.
Proof.
  revert acc. induction pairs as [|[k v] pairs IH]; intros acc H; simpl.
  - symmetry; apply List.app_nil_r.
  - assert (Hfresh : existsb (text_eqb k) (map fst acc) = false).
    { clear IH. induction acc as [|[k' v'] acc IHa]; [reflexivity|].
      simpl in H. apply andb_true_iff in H as [H1 H2].
      apply negb_true_iff in H1. rewrite map_app in H1.
      apply existsb_app_false in H1 as [_ H1]. simpl in H1.
      apply orb_false_iff in H1 as [H1 _].
      simpl. apply orb_false_iff. split.
      - apply text_eqb_neq. apply text_eqb_neq in H1. congruence.
      - apply IHa. exact H2. }
    rewrite (dict_set_fresh _ _ _ Hfresh).
    rewrite IH; rewrite <- List.app_assoc; [reflexivity | exact H].
Qed.

Lemma dict_of_pairs_distinct (d : list (text * json)) :
  distinct (map fst d) = true -> dict_of_pairs d = d.
Proof. intros H. apply (fold_dict_set_distinct d []). exact H. Qed.

End JsonFacts.

(** ** [json.loads] undoes [json.dumps] *)

Section Roundtrip.
Context {PF : PyFloat} {Laws : PyFloatLaws PF}.

Lemma digit_cases (c : N) :
  is_digit c = true ->
  c = 48 \/ c = 49 \/ c = 50 \/ c = 51 \/ c = 52 \/ c = 53 \/ c = 54
  \/ c = 55 \/ c = 56 \/ c = 57.
Proof.
  unfold is_digit. rewrite andb_true_iff, !N.leb_le. lia.
Qed.

Lemma scan_once_number_head (fuel : nat) (c : N) (s : text) :
  c = c_minus \/ is_digit c = true ->
  scan_once (S fuel) (c :: s)
  = match match_number (c :: s) with
    | Some (integer, frac, exp, rest) =>
      if is_nil frac && is_nil exp
      then Ok (JInt (int_of_literal integer), rest)
      else Ok (JFloat (float (integer ++ frac ++ exp)), rest)
    | None =>
      match strip_prefix (str "NaN") (c :: s),
            strip_prefix (str "Infinity") (c :: s),
            strip_prefix (str "-Infinity") (c :: s) with
      | Some rest, _, _ => Ok (JFloat (float (str "nan")), rest)
      | _, Some rest, _ => Ok (JFloat (float (str "inf")), rest)
      | _, _, Some rest => Ok (JFloat (float (str "-inf")), rest)
      | None, None, None => Raise StopIteration
      end
    end.
Proof.
  intros [->|H]; [reflexivity|].
  apply digit_cases in H.
  repeat (destruct H as [->|H]; [reflexivity|]). subst; reflexivity.
Qed.

Lemma number_head_starts_value (c : N) (t : text) :
  c = c_minus \/ is_digit c = true -> starts_value (c :: t) = true.
Proof.
  intros [->|H]; [reflexivity|].
  apply digit_cases in H.
  repeat (destruct H as [->|H]; [reflexivity|]). subst; reflexivity.
Qed.

Lemma float_lexeme_cases (l : text) :
  float_lexeme l = true ->
  l = str "NaN" \/ l = str "Infinity" \/ l = str "-Infinity"
  \/ (text_eqb l (str "NaN") = false /\ text_eqb l (str "Infinity") = false
      /\ text_eqb l (str "-Infinity") = false
      /\ exists i fr ex, match_number l = Some (i, fr, ex, [])
                         /\ is_nil fr && is_nil ex = false).
Proof.
  unfold float_lexeme. intros H.
  destruct (text_eqb l (str "NaN")) eqn:E1;
    [left; apply text_eqb_eq; exact E1|].
  destruct (text_eqb l (str "Infinity")) eqn:E2;
    [right; left; apply text_eqb_eq; exact E2|].
  destruct (text_eqb l (str "-Infinity")) eqn:E3;
    [right; right; left; apply text_eqb_eq; exact E3|].
  right; right; right. repeat split.
  cbn [orb] in H.
  destruct (match_number l) as [[[[i fr] ex] [|? ?]]|]; try discriminate.
  exists i, fr, ex. split; [reflexivity|]. apply negb_true_iff. exact H.
Qed.

Lemma scan_once_float (f : pyfloat) (fuel : nat) (rest : text) :
  delimited rest = true ->
  scan_once (S fuel) (float_repr f ++ rest) = Ok (JFloat f, rest).
Proof.
  intros Hd.
  pose proof (float_of_repr f) as Hf. unfold float_of_lexeme in Hf.
  destruct (float_lexeme_cases _ (float_repr_lexeme f))
    as [E|[E|[E|(E1 & E2 & E3 & i & fr & ex & Hm & Hn)]]].
  - rewrite E in *. rewrite <- Hf. reflexivity.
  - rewrite E in *. rewrite <- Hf. reflexivity.
  - rewrite E in *. rewrite <- Hf. reflexivity.
  - rewrite E1, E2, E3 in Hf.
    destruct (match_number_spec _ _ _ _ _ Hm) as (El & c & i' & Ei & Hc).
    rewrite List.app_nil_r in El.
    pose proof (match_number_ext _ _ _ _ _ Hm Hd) as Hm'.
    assert (Eh : float_repr f ++ rest = c :: (i' ++ fr ++ ex) ++ rest).
    { rewrite El, Ei. reflexivity. }
    rewrite Eh. rewrite scan_once_number_head by exact Hc.
    rewrite <- Eh, Hm', Hn, <- El, Hf. reflexivity.
Qed.

Lemma int_repr_head (z : Z) :
  exists c i, int_repr z = c :: i /\ (c = c_minus \/ is_digit c = true).
Proof.
  pose proof (match_number_int z [] eq_refl) as H.
  apply match_number_spec in H as (_ & H). exact H.
Qed.

Lemma scan_once_int (z : Z) (fuel : nat) (rest : text) :
  delimited rest = true ->
  scan_once (S fuel) (int_repr z ++ rest) = Ok (JInt z, rest).
Proof.
  intros Hd. pose proof (match_number_int z rest Hd) as Hm.
  destruct (int_repr_head z) as (c & i & E & Hc).
  rewrite E in *. cbn [app] in *.
  rewrite scan_once_number_head by exact Hc.
  rewrite Hm. cbn [is_nil andb]. rewrite <- E, int_of_literal_repr.
  reflexivity.
Qed.

Lemma float_repr_head (f : pyfloat) (t : text) :
  starts_value (float_repr f ++ t) = true.
Proof.
  destruct (float_lexeme_cases _ (float_repr_lexeme f))
    as [E|[E|[E|(_ & _ & _ & i & fr & ex & Hm & _)]]];
    try (rewrite E; reflexivity).
  destruct (match_number_spec _ _ _ _ _ Hm) as (El & c & i' & Ei & Hc).
  rewrite El, Ei. apply number_head_starts_value. exact Hc.
Qed.

Lemma iterencode_starts_value (o : json) (level : nat) (t : text) :
  starts_value (_iterencode o level ++ t) = true.
Proof.
  destruct o as [|[|]|z|f|s|[|v l]|[|kv d]]; try reflexivity.
  - destruct (int_repr_head z) as (c & i & E & Hc).
    cbn [_iterencode]. rewrite E. apply number_head_starts_value. exact Hc.
  - apply float_repr_head.
Qed.

Lemma scan_once_string (s : text) (fuel : nat) (rest : text) :
  wf_str s = true ->
  scan_once (S fuel) (encode_basestring_ascii s ++ rest)
  = Ok (JString s, rest).
Proof.
  intros H. unfold encode_basestring_ascii.
  cbn [app scan_once]. change (c_quote =? c_quote) with true. cbn iota.
  rewrite <- List.app_assoc. cbn [app].
  rewrite (scanstring_encode _ _ H). reflexivity.
Qed.

Lemma join_chunks_starts_value (sep : text) (chunks : list text) (t : text) :
  chunks <> [] ->
  Forall (fun c => forall t', starts_value (c ++ t') = true) chunks ->
  starts_value (join_chunks sep chunks ++ t) = true.
Proof.
  intros Hne H. destruct chunks as [|c chunks]; [congruence|].
  apply Forall_inv in H.
  destruct chunks; cbn [join_chunks]; [|rewrite <- List.app_assoc]; apply H.
Qed.

Lemma join_chunks_cons2 (sep a b : text) (l : list text) :
  join_chunks sep (a :: b :: l) = a ++ sep ++ join_chunks sep (b :: l).
Proof. reflexivity. Qed.

Lemma array_values_chunks (items : list json) :
  Forall scans_back items -> items <> [] ->
  forall (level : nat) (rest : text) (fuel : nat),
    (2 * List.length
           (join_chunks (c_comma :: newline_indent (S level))
              (map (fun value => _iterencode value (S level)) items)
            ++ newline_indent level ++ c_rbracket :: rest) + 2 <= fuel)%nat ->
    array_values fuel
      (join_chunks (c_comma :: newline_indent (S level))
         (map (fun value => _iterencode value (S level)) items)
       ++ newline_indent level ++ c_rbracket :: rest)
    = Ok (items, rest).
Proof.
  induction 1 as [|v items Hv Hitems IH]; [congruence|].
  intros _ level rest fuel Hfuel.
  destruct fuel as [|fuel]; [lia|].
  set (T := newline_indent level ++ c_rbracket :: rest) in *.
  destruct items as [|v' items].
  - cbn [map join_chunks] in *. cbn [array_values].
    rewrite Hv; [| apply delimited_newline_indent | lia].
    cbn [expecting_value bind]. unfold T. rewrite skip_ws_newline_indent.
    reflexivity.
  - specialize (IH ltac:(discriminate) level rest fuel). fold T in IH.
    assert (Hs : starts_value
                   (join_chunks (c_comma :: newline_indent (S level))
                      (map (fun value => _iterencode value (S level))
                           (v' :: items)) ++ T) = true).
    { apply join_chunks_starts_value; [discriminate|].
      apply Forall_forall. intros c Hc t'.
      apply in_map_iff in Hc as (x & <- & _). apply iterencode_starts_value. }
    cbn [map] in *. rewrite join_chunks_cons2 in Hfuel |- *.
    set (J := join_chunks (c_comma :: newline_indent (S level))
                (_iterencode v' (S level)
                 :: map (fun value => _iterencode value (S level)) items))
      in *.
    rewrite <- ?List.app_assoc in Hfuel |- *. cbn [app] in Hfuel |- *.
    cbn [array_values].
    rewrite Hv; [| reflexivity | lia].
    cbn [expecting_value bind skip_ws].
    change (is_ws c_comma) with false. cbn iota.
    change (c_comma =? c_rbracket) with false.
    change (c_comma =? c_comma) with true. cbn iota.
    rewrite skip_ws_newline_indent, (starts_value_skip_ws _ Hs).
    rewrite IH; [reflexivity|].
    rewrite !length_app in Hfuel. cbn [List.length] in Hfuel.
    rewrite !length_app in Hfuel. rewrite !length_app. lia.
Qed.

Lemma dict_chunks_text (level : nat) (d : list (text * json)) (T : text) :
  d <> [] ->
  join_chunks (c_comma :: newline_indent (S level))
    (map (fun '(key, value) =>
            encode_basestring_ascii key ++ str ": "
              ++ _iterencode value (S level)) d) ++ T
  = c_quote :: pairs_text level d T.
Proof.
  induction d as [|[k v] d IH]; [congruence|]. intros _.
  destruct d as [|kv d].
  - cbn [map join_chunks pairs_text]. unfold encode_basestring_ascii.
    change (str ": ") with [c_colon; c_space].
    cbn [app]. rewrite <- ?List.app_assoc. reflexivity.
  - specialize (IH ltac:(discriminate)).
    cbn [map] in IH |- *. rewrite join_chunks_cons2. cbn [pairs_text].
    set (J := join_chunks _ _) in *.
    set (chunk := encode_basestring_ascii k ++ _).
    rewrite <- List.app_assoc. rewrite <- List.app_assoc.
    rewrite IH. subst chunk.
    unfold encode_basestring_ascii.
    change (str ": ") with [c_colon; c_space].
    cbn [app]. rewrite <- ?List.app_assoc. reflexivity.
Qed.

Ltac norm_len H :=
  repeat (progress (cbn [List.length] in H) || rewrite length_app in H).

Ltac norm_len_goal :=
  repeat (progress (cbn [List.length]) || rewrite length_app).

Lemma object_pairs_text (d : list (text * json)) :
  Forall (fun kv => wf_str (fst kv) = true /\ scans_back (snd kv)) d ->
  d <> [] ->
  forall (level : nat) (rest : text) (fuel : nat),
    (2 * List.length
           (pairs_text level d (newline_indent level ++ c_rbrace :: rest))
     + 2 <= fuel)%nat ->
    object_pairs fuel
      (pairs_text level d (newline_indent level ++ c_rbrace :: rest))
    = Ok (d, rest).
Proof.
  induction 1 as [|[k v] d [Hk Hv] Hd IH]; [congruence|].
  intros _ level rest fuel Hfuel.
  destruct fuel as [|fuel]; [lia|].
  cbn [fst snd] in *.
  cbn [pairs_text] in Hfuel |- *. cbn [object_pairs].
  rewrite (scanstring_encode _ _ Hk). cbn [bind].
  change (skip_ws (c_colon :: ?x)) with (c_colon :: x). cbn iota.
  change (c_colon =? c_colon) with true. cbn iota.
  change (skip_ws (c_space :: ?x)) with (skip_ws x).
  rewrite starts_value_skip_ws by apply iterencode_starts_value.
  destruct d as [|kv d]; norm_len Hfuel.
  - rewrite Hv; [| apply delimited_newline_indent | norm_len_goal; lia].
    cbn [expecting_value bind]. rewrite skip_ws_newline_indent. reflexivity.
  - rewrite Hv; [| reflexivity | norm_len_goal; lia].
    cbn [expecting_value bind].
    change (skip_ws (c_comma :: ?x)) with (c_comma :: x). cbn iota.
    change (c_comma =? c_rbrace) with false.
    change (c_comma =? c_comma) with true. cbn iota.
    rewrite skip_ws_newline_indent.
    change (skip_ws (c_quote :: ?x)) with (c_quote :: x). cbn iota.
    change (c_quote =? c_quote) with true. cbn iota.
    rewrite IH; [reflexivity | discriminate |]. lia.
Qed.

Lemma scans_back_all (o : json) : wf_json o = true -> scans_back o.
Proof.
  induction o as [|b|z|f|s|l IH|d IH] using json_ind;
    intros Hwf level rest fuel Hd Hfuel;
    (destruct fuel as [|fuel]; [lia|]).
  - reflexivity.
  - destruct b; reflexivity.
  - apply scan_once_int; exact Hd.
  - apply scan_once_float; exact Hd.
  - apply scan_once_string; exact Hwf.
  - destruct l as [|v l]; [reflexivity|].
    assert (Hall : Forall scans_back (v :: l)).
    { cbn [wf_json] in Hwf. rewrite forallb_forall in Hwf.
      rewrite Forall_forall in IH |- *. intros x Hx. auto. }
    rewrite iterencode_list in Hfuel |- *.
    set (J := join_chunks _ _) in *.
    cbn [app] in Hfuel |- *. rewrite <- ?List.app_assoc in Hfuel |- *.
    cbn [app] in Hfuel |- *. cbn [scan_once].
    change (c_lbracket =? c_quote) with false.
    change (c_lbracket =? c_lbrace) with false.
    change (c_lbracket =? c_lbracket) with true. cbn iota.
    assert (Hs : starts_value (J ++ newline_indent level ++ c_rbracket :: rest)
                 = true).
    { apply join_chunks_starts_value; [discriminate|].
      apply Forall_forall. intros c Hc t'.
      apply in_map_iff in Hc as (x & <- & _). apply iterencode_starts_value. }
    rewrite skip_ws_newline_indent, (starts_value_skip_ws _ Hs).
    pose proof (array_values_chunks (v :: l) Hall ltac:(discriminate)
                  level rest fuel) as Ha.
    fold J in Ha.
    destruct (J ++ newline_indent level ++ c_rbracket :: rest)
      as [|c s2] eqn:E; [discriminate Hs|].
    cbn [starts_value] in Hs.
    destruct (c =? c_rbracket);
      [rewrite !andb_false_r in Hs; cbn in Hs;
       rewrite ?andb_false_r in Hs; discriminate|].
    rewrite Ha; [reflexivity|].
    cbn [List.length] in Hfuel. rewrite length_app in Hfuel.
    rewrite length_newline_indent in Hfuel. lia.
  - destruct d as [|kv d]; [reflexivity|].
    cbn [wf_json] in Hwf. apply andb_true_iff in Hwf as [Hkeys Hwf].
    assert (Hall : Forall (fun kv => wf_str (fst kv) = true
                                     /\ scans_back (snd kv)) (kv :: d)).
    { rewrite forallb_forall in Hwf.
      rewrite Forall_forall in IH |- *. intros [k x] Hx.
      specialize (Hwf _ Hx). specialize (IH _ Hx). cbn in Hwf, IH |- *.
      apply andb_true_iff in Hwf as [Hk Hx']. auto. }
    rewrite iterencode_dict in Hfuel |- *.
    cbn [app] in Hfuel |- *. rewrite <- ?List.app_assoc in Hfuel |- *.
    cbn [app] in Hfuel |- *.
    rewrite dict_chunks_text in Hfuel |- * by discriminate.
    cbn [scan_once].
    change (c_lbrace =? c_quote) with false.
    change (c_lbrace =? c_lbrace) with true. cbn iota.
    rewrite skip_ws_newline_indent.
    change (skip_ws (c_quote :: ?x)) with (c_quote :: x). cbn iota.
    change (c_quote =? c_rbrace) with false.
    change (c_quote =? c_quote) with true. cbn iota.
    rewrite (object_pairs_text (kv :: d) Hall ltac:(discriminate)).
    + cbn [bind]. rewrite (dict_of_pairs_distinct _ Hkeys). reflexivity.
    + cbn [List.length] in Hfuel. rewrite length_app in Hfuel.
      rewrite length_newline_indent in Hfuel. cbn [List.length] in Hfuel. lia.
Qed.

(** Reading back what [dumps] wrote gives the object. *)
Lemma loads_dumps (o : json) : wf_json o = true -> loads (dumps o) = Ok o.
Proof.
  intros Hwf. unfold loads, dumps.
  pose proof (iterencode_starts_value o 0 []) as Hs.
  rewrite List.app_nil_r in Hs.
  assert (Hb : starts_with_bom (_iterencode o 0) = false).
  { destruct (_iterencode o 0) as [|c s]; [reflexivity|].
    cbn [starts_value] in Hs. cbn [starts_with_bom].
    destruct (c =? 0xfeff); [|reflexivity].
    rewrite andb_false_r in Hs. discriminate. }
  rewrite Hb, (starts_value_skip_ws _ Hs).
  pose proof (scans_back_all o Hwf 0%nat []
                (2 * List.length (_iterencode o 0) + 1)%nat eq_refl) as H.
  rewrite List.app_nil_r in H. rewrite H by lia. reflexivity.
Qed.

End Roundtrip.

(** ** What [scanstring] returns *)

Lemma scanstring_step (s : text) :
  scanstring s
  = match string_step s with
    | Raise e => Raise e
    | Ok (None, rest) => Ok ([], rest)
    | Ok (Some c, s') => cons_char c (scanstring s')
    end.
Proof.
  destruct s as [|c s1]; [reflexivity|]. cbn [scanstring string_step].
  destruct (c =? c_quote); [reflexivity|].
  destruct (c =? c_backslash).
  - destruct s1 as [|esc s2]; [reflexivity|].
    destruct (esc =? c_u).
    + destruct s2 as [|h1 [|h2 [|h3 [|h4 s3]]]]; try reflexivity.
      destruct (decode_hex4 h1 h2 h3 h4) as [uni|]; [|reflexivity].
      destruct (is_high_surrogate uni && starts_with_backslash_u s3);
        [|reflexivity].
      destruct s3 as [|a [|b [|l1 [|l2 [|l3 [|l4 s4]]]]]]; try reflexivity.
      destruct (decode_hex4 l1 l2 l3 l4) as [uni2|]; [|reflexivity].
      destruct (is_low_surrogate uni2); reflexivity.
    + destruct (BACKSLASH esc); reflexivity.
  - destruct (c <? 32); reflexivity.
Qed.

Lemma scanstring_raises (s : text) (e : exn) :
  scanstring s = Raise e -> e = JSONDecodeError.
Proof.
  remember (List.length s) as n eqn:En. revert s En.
  induction n as [n IH] using lt_wf_ind. intros s En.
  rewrite scanstring_step.
  destruct (string_step s) as [[[c|] s']|e'] eqn:E.
  - assert (Hlen : (List.length s' < List.length s)%nat).
    { clear IH. unfold string_step in E.
      repeat match type of E with
      | context [match ?x with _ => _ end] => destruct x; try discriminate
      end; injection E as <- <-; cbn [List.length]; lia. }
    unfold cons_char, bind.
    destruct (scanstring s') as [[chars rest]|e''] eqn:E'; [discriminate|].
    intros H; injection H as <-.
    apply (IH (List.length s') ltac:(lia) s' eq_refl E').
  - discriminate.
  - intros H; injection H as <-. unfold string_step in E.
    repeat match type of E with
    | context [match ?x with _ => _ end] => destruct x; try discriminate
    end; injection E as <-; reflexivity.
Qed.

Lemma hexval_bound (c d : N) : hexval c = Some d -> d < 16.
Proof.
  unfold hexval, is_digit.
  destruct ((c_0 <=? c) && (c <=? c_9)) eqn:E1;
    [|destruct ((97 <=? c) && (c <=? 102)) eqn:E2;
      [|destruct ((65 <=? c) && (c <=? 70)) eqn:E3; [|discriminate]]];
    intros H; injection H as <-;
    match goal with
    | E : _ && _ = true |- _ =>
      apply andb_true_iff in E as [A B]; apply N.leb_le in A, B; lia
    end.
Qed.

Lemma decode_hex4_bound (h1 h2 h3 h4 u : N) :
  decode_hex4 h1 h2 h3 h4 = Some u -> u < 0x10000.
Proof.
  unfold decode_hex4.
  destruct (hexval h1) as [a|] eqn:E1; [|discriminate].
  destruct (hexval h2) as [b|] eqn:E2; [|discriminate].
  destruct (hexval h3) as [c|] eqn:E3; [|discriminate].
  destruct (hexval h4) as [d|] eqn:E4; [|discriminate].
  apply hexval_bound in E1, E2, E3, E4.
  intros H; injection H as <-. lia.
Qed.

Lemma join_surrogates_range (u u2 : N) :
  is_high_surrogate u = true -> is_low_surrogate u2 = true ->
  0x10000 <= join_surrogates u u2 /\ join_surrogates u u2 < 0x110000.
Proof.
  unfold is_high_surrogate, is_low_surrogate, join_surrogates.
  rewrite !andb_true_iff, !N.leb_le. intros [H1 H2] [H3 H4].
  rewrite N.shiftl_mul_pow2, lor_add by (change (2 ^ 10) with 1024; lia).
  change (2 ^ 10) with 1024. lia.
Qed.

Lemma BACKSLASH_range (esc c : N) : BACKSLASH esc = Some c -> c < 128.
Proof.
  unfold BACKSLASH.
  repeat match goal with
  | |- context [if ?b then _ else _] => destruct b
  end; intros H; try discriminate; injection H as <-; reflexivity.
Qed.

Lemma scalar_text_cons (c : N) (s : text) :
  scalar_text (c :: s) = true <->
  (valid_char c = true /\ is_surrogate c = false) /\ scalar_text s = true.
Proof.
  unfold scalar_text. cbn [forallb].
  rewrite !andb_true_iff, negb_true_iff. tauto.
Qed.

Lemma surrogate_split (c : N) :
  is_surrogate c = is_high_surrogate c || is_low_surrogate c.
Proof.
  unfold is_surrogate, is_high_surrogate, is_low_surrogate. nb; reflexivity.
Qed.

Lemma small_char (c : N) :
  c < 0xd800 ->
  valid_char c = true /\ is_high_surrogate c = false
  /\ is_low_surrogate c = false.
Proof.
  intros H. unfold valid_char, is_high_surrogate, is_low_surrogate.
  repeat split; nb; reflexivity.
Qed.

Lemma string_step_spec (s : text) (c : N) (s' : text) :
  string_step s = Ok (Some c, s') ->
  (List.length s' < List.length s)%nat
  /\ (scalar_text s = true ->
      scalar_text s' = true /\ valid_char c = true
      /\ (is_low_surrogate c = true -> low_escape s c)
      /\ (is_high_surrogate c = true -> forall c', ~ low_escape s' c')).
Proof.
  unfold string_step.
  destruct s as [|a s1]; [discriminate|].
  destruct (a =? c_quote); [discriminate|].
  destruct (N.eqb_spec a c_backslash) as [->|Ha].
  - destruct s1 as [|esc s2]; [discriminate|].
    destruct (N.eqb_spec esc c_u) as [->|Hesc].
    + destruct s2 as [|h1 [|h2 [|h3 [|h4 s3]]]]; try discriminate.
      destruct (decode_hex4 h1 h2 h3 h4) as [uni|] eqn:Hd; [|discriminate].
      pose proof (decode_hex4_bound _ _ _ _ _ Hd) as Hb.
      assert (Hvu : valid_char uni = true)
        by (unfold valid_char; apply N.ltb_lt; lia).
      destruct (is_high_surrogate uni) eqn:Hh; cbn [andb].
      * destruct (starts_with_backslash_u s3) eqn:Hs.
        -- destruct s3 as [|x [|y [|l1 [|l2 [|l3 [|l4 s4]]]]]];
             try discriminate.
           destruct (decode_hex4 l1 l2 l3 l4) as [uni2|] eqn:Hd2;
             [|discriminate].
           destruct (is_low_surrogate uni2) eqn:Hl2;
             intros H; injection H as <- <-.
           ++ split; [cbn [List.length]; lia|]. intros Hsc.
              destruct (join_surrogates_range _ _ Hh Hl2) as [J1 J2].
              repeat (apply scalar_text_cons in Hsc as [_ Hsc]).
              split; [exact Hsc|].
              unfold valid_char, is_low_surrogate, is_high_surrogate.
              repeat split; try (nb; reflexivity); nb; discriminate.
           ++ split; [cbn [List.length]; lia|]. intros Hsc.
              do 6 (apply scalar_text_cons in Hsc as [_ Hsc]).
              split; [exact Hsc|]. split; [exact Hvu|]. split.
              ** intros Hl. exists h1, h2, h3, h4. eauto.
              ** intros _ c' (k1 & k2 & k3 & k4 & r & E & Hdc & Hlc).
                 injection E as -> -> -> -> -> -> ->. congruence.
        -- intros H; injection H as <- <-.
           split; [cbn [List.length]; lia|]. intros Hsc.
           repeat (apply scalar_text_cons in Hsc as [_ Hsc]).
           split; [exact Hsc|]. split; [exact Hvu|]. split.
           ++ intros Hl. exists h1, h2, h3, h4. eauto.
           ++ intros _ c' (k1 & k2 & k3 & k4 & r & E & _).
              rewrite E in Hs. discriminate.
      * intros H; injection H as <- <-.
        split; [cbn [List.length]; lia|]. intros Hsc.
        repeat (apply scalar_text_cons in Hsc as [_ Hsc]).
        split; [exact Hsc|]. split; [exact Hvu|]. split.
        -- intros Hl. exists h1, h2, h3, h4. eauto.
        -- congruence.
    + destruct (BACKSLASH esc) as [char|] eqn:Hbs; [|discriminate].
      intros H; injection H as <- <-.
      split; [cbn [List.length]; lia|]. intros Hsc.
      repeat (apply scalar_text_cons in Hsc as [_ Hsc]).
      apply BACKSLASH_range in Hbs.
      destruct (small_char char ltac:(lia)) as (V & Hh & Hl).
      split; [exact Hsc|]. split; [exact V|]. split; congruence.
  - destruct (a <? 32); [discriminate|].
    intros H; injection H as <- <-.
    split; [cbn [List.length]; lia|]. intros Hsc.
    apply scalar_text_cons in Hsc as [[V Hs] Hsc].
    rewrite surrogate_split in Hs. apply orb_false_iff in Hs as [Hh Hl].
    split; [exact Hsc|]. split; [exact V|]. split; congruence.
Qed.

Lemma scanstring_spec (s chars rest : text) :
  scanstring s = Ok (chars, rest) ->
  (List.length rest < List.length s)%nat
  /\ (scalar_text s = true ->
      wf_str chars = true /\ scalar_text rest = true
      /\ forall c chars', chars = c :: chars' ->
                          is_low_surrogate c = true -> low_escape s c).
Proof.
  remember (List.length s) as n eqn:En. revert s En chars rest.
  induction n as [n IH] using lt_wf_ind. intros s En chars rest.
  rewrite scanstring_step.
  destruct (string_step s) as [[[c|] s']|e'] eqn:E; [| |discriminate].
  - destruct (string_step_spec _ _ _ E) as [Hlen Hstep].
    unfold cons_char, bind.
    destruct (scanstring s') as [[chars' rest']|e''] eqn:E'; [|discriminate].
    intros H; injection H as <- <-.
    destruct (IH (List.length s') ltac:(lia) s' eq_refl _ _ E') as [Hlen' Hrec].
    split; [lia|]. intros Hsc.
    destruct (Hstep Hsc) as (Hsc' & V & Hlow & Hhigh).
    destruct (Hrec Hsc') as (Hwf & Hscr & Hhead).
    unfold wf_str in *. apply andb_true_iff in Hwf as [Hv Hp].
    split; [|split; [exact Hscr|]].
    + cbn [forallb no_surrogate_pair]. rewrite V, Hv, Hp.
      rewrite !andb_true_r. cbn [andb].
      destruct chars' as [|b chars'']; [reflexivity|].
      destruct (is_high_surrogate c) eqn:Hh; [|reflexivity].
      destruct (is_low_surrogate b) eqn:Hl; [|reflexivity].
      exfalso. apply (Hhigh eq_refl b). apply (Hhead b chars''); auto.
    + intros c0 chars0 H Hl. injection H as <- <-. auto.
  - intros H; injection H as <- <-.
    unfold string_step in E.
    destruct s as [|a s1]; [discriminate|].
    destruct (a =? c_quote) eqn:Ha.
    + injection E as <-. split; [subst n; cbn [List.length]; lia|].
      intros Hsc. apply scalar_text_cons in Hsc as [_ Hsc].
      split; [reflexivity|]. split; [exact Hsc|]. discriminate.
    + exfalso.
      repeat match type of E with
      | context [match ?x with _ => _ end] => destruct x; try discriminate
      end.
Qed.

(** ** What the scanner returns *)

Lemma scalar_text_app (a b : text) :
  scalar_text (a ++ b) = scalar_text a && scalar_text b.
Proof. unfold scalar_text. apply forallb_app. Qed.

Lemma rest_of_refl (s : text) : rest_of s s.
Proof. split; auto. Qed.

Lemma rest_of_suffix (p r : text) : rest_of r (p ++ r).
Proof.
  split.
  - rewrite length_app. lia.
  - rewrite scalar_text_app, andb_true_iff. tauto.
Qed.

Lemma shorter_suffix (p r : text) : p <> [] -> shorter r (p ++ r).
Proof.
  intros Hp. split.
  - rewrite length_app. destruct p; [congruence|cbn [List.length]; lia].
  - rewrite scalar_text_app, andb_true_iff. tauto.
Qed.

Lemma shorter_cons (c : N) (s : text) : shorter s (c :: s).
Proof. apply (shorter_suffix [c] s). discriminate. Qed.

Lemma shorter_rest_of (a b c : text) : shorter a b -> rest_of b c -> shorter a c.
Proof. intros [H1 H2] [H3 H4]. split; [lia|auto]. Qed.

Lemma rest_of_shorter (a b c : text) : rest_of a b -> shorter b c -> shorter a c.
Proof. intros [H1 H2] [H3 H4]. split; [lia|auto]. Qed.

Lemma shorter_trans (a b c : text) : shorter a b -> shorter b c -> shorter a c.
Proof. intros [H1 H2] [H3 H4]. split; [lia|auto]. Qed.

Lemma skip_ws_rest_of (s : text) : rest_of (skip_ws s) s.
Proof.
  induction s as [|c s IH]; cbn [skip_ws]; [apply rest_of_refl|].
  destruct (is_ws c); [|apply rest_of_refl].
  destruct IH as [H1 H2]. split; [cbn [List.length]; lia|].
  intros H. apply scalar_text_cons in H as [_ H]. auto.
Qed.

Lemma skip_ws_cons_shorter (s : text) (c : N) (r : text) :
  skip_ws s = c :: r -> shorter r s.
Proof.
  intros H. pose proof (skip_ws_rest_of s) as Hs. rewrite H in Hs.
  exact (shorter_rest_of _ _ _ (shorter_cons c r) Hs).
Qed.

Lemma expecting_value_Ok {A} (r : result A) (x : A) :
  expecting_value r = Ok x -> r = Ok x.
Proof. destruct r as [a|[]]; cbn; congruence. Qed.

Lemma expecting_value_RecursionError {A} (r : result A) :
  expecting_value r = Raise RecursionError -> r = Raise RecursionError.
Proof. destruct r as [a|[]]; cbn; congruence. Qed.

Lemma bind_Ok {A B} (r : result A) (k : A -> result B) (y : B) :
  bind r k = Ok y -> exists x, r = Ok x /\ k x = Ok y.
Proof. destruct r; cbn; [eauto|discriminate]. Qed.

Lemma bind_Raise {A B} (r : result A) (k : A -> result B) (e : exn) :
  bind r k = Raise e -> r = Raise e \/ exists x, r = Ok x /\ k x = Raise e.
Proof. destruct r; cbn; [eauto|intros H; left; congruence]. Qed.

Section ScannerFacts.
Context {PF : PyFloat}.

Lemma wf_json_dict (d : list (text * json)) :
  wf_json (JDict d) = distinct (map fst d) && forallb wf_pair d.
Proof. reflexivity. Qed.

Lemma dict_set_keys (d : list (text * json)) (k : text) (v : json) :
  map fst (dict_set d k v)
  = if existsb (text_eqb k) (map fst d) then map fst d else map fst d ++ [k].
Proof.
  induction d as [|[k' v'] d IH]; cbn [dict_set map fst existsb];
    [reflexivity|].
  destruct (text_eqb k' k) eqn:E.
  - apply text_eqb_eq in E as ->. rewrite text_eqb_refl. reflexivity.
  - assert (E' : text_eqb k k' = false).
    { apply text_eqb_neq. apply text_eqb_neq in E. congruence. }
    rewrite E'. cbn [orb map fst]. rewrite IH.
    destruct (existsb (text_eqb k) (map fst d)); reflexivity.
Qed.

Lemma distinct_snoc (ks : list text) (k : text) :
  distinct ks = true -> existsb (text_eqb k) ks = false ->
  distinct (ks ++ [k]) = true.
Proof.
  induction ks as [|k' ks IH]; cbn [distinct app existsb]; [reflexivity|].
  rewrite andb_true_iff, negb_true_iff, orb_false_iff.
  intros [H1 H2] [H3 H4]. rewrite existsb_app, H1, (IH H2 H4).
  cbn [existsb]. rewrite orb_false_r.
  assert (E : text_eqb k' k = false).
  { apply text_eqb_neq. apply text_eqb_neq in H3. congruence. }
  rewrite E. reflexivity.
Qed.

Lemma dict_set_wf (d : list (text * json)) (k : text) (v : json) :
  distinct (map fst d) = true -> forallb wf_pair d = true ->
  wf_pair (k, v) = true ->
  distinct (map fst (dict_set d k v)) = true
  /\ forallb wf_pair (dict_set d k v) = true.
Proof.
  intros Hd Hw Hkv. split.
  - rewrite dict_set_keys.
    destruct (existsb (text_eqb k) (map fst d)) eqn:E; [exact Hd|].
    apply distinct_snoc; assumption.
  - clear Hd. induction d as [|[k' v'] d IH]; cbn [dict_set forallb].
    + rewrite Hkv. reflexivity.
    + cbn [forallb] in Hw. apply andb_true_iff in Hw as [H1 H2].
      destruct (text_eqb k' k) eqn:E.
      * apply text_eqb_eq in E as ->. cbn [forallb]. rewrite Hkv, H2.
        reflexivity.
      * cbn [forallb]. rewrite H1, (IH H2). reflexivity.
Qed.

Lemma dict_of_pairs_wf (pairs : list (text * json)) :
  forallb wf_pair pairs = true -> wf_json (JDict (dict_of_pairs pairs)) = true.
Proof.
  intros H. rewrite wf_json_dict. unfold dict_of_pairs.
  assert (Hgen : forall acc,
    distinct (map fst acc) = true -> forallb wf_pair acc = true ->
    distinct (map fst (fold_left (fun d kv => dict_set d (fst kv) (snd kv))
                                 pairs acc)) = true
    /\ forallb wf_pair (fold_left (fun d kv => dict_set d (fst kv) (snd kv))
                                  pairs acc) = true).
  { induction pairs as [|[k v] pairs IH]; intros acc Hd Hw; cbn [fold_left].
    - auto.
    - cbn [forallb] in H. apply andb_true_iff in H as [Hkv H].
      destruct (dict_set_wf acc k v Hd Hw Hkv) as [Hd' Hw'].
      apply (IH H); assumption. }
  destruct (Hgen [] eq_refl eq_refl) as [H1 H2]. rewrite H1, H2. reflexivity.
Qed.

End ScannerFacts.

Section ScannerSpec.
Context {PF : PyFloat}.

Ltac raised :=
  let e := fresh "e" in let H := fresh "H" in
  intros e H; first [discriminate | injection H as <-; auto].

Ltac atom E :=
  apply strip_prefix_Some in E;
  split;
  [ intros ? ? H; injection H as <- <-;
    split; [rewrite E; apply shorter_suffix; discriminate | reflexivity]
  | raised ].

Lemma scan_once_step (fuel : nat) :
  array_values_ok fuel -> object_pairs_ok fuel -> scan_once_ok (S fuel).
Proof.
  intros B C s. destruct s as [|c s1].
  { split; [intros v r H; discriminate | raised]. }
  cbn [scan_once].
  destruct (c =? c_quote).
  { split.
    - intros v r H. apply bind_Ok in H as ([chars rest] & Hs & H).
      injection H as <- <-. apply scanstring_spec in Hs as [Hl Hw].
      split; [split; [cbn [List.length]; lia|]|];
        intros Hsc; apply scalar_text_cons in Hsc as [_ Hsc]; apply Hw;
        exact Hsc.
    - intros e H. apply bind_Raise in H as [H|([chars rest] & _ & H)];
        [apply scanstring_raises in H; auto | discriminate]. }
  destruct (c =? c_lbrace).
  { destruct (skip_ws s1) as [|c' s2] eqn:Ews.
    { split; [intros v r H; discriminate | raised]. }
    pose proof (skip_ws_cons_shorter _ _ _ Ews) as Hsh.
    pose proof (shorter_trans _ _ _ Hsh (shorter_cons c s1)) as Hsh'.
    destruct (c' =? c_rbrace).
    { split; [|raised].
      intros v r H; injection H as <- <-. split; [exact Hsh'|reflexivity]. }
    destruct (c' =? c_quote);
      [|split; [intros v r H; discriminate | raised]].
    destruct (C s2) as [C1 C2]. split.
    - intros v r H. apply bind_Ok in H as ([pairs rest] & Hp & H).
      injection H as <- <-. destruct (C1 _ _ Hp) as [Hr Hw].
      split; [exact (shorter_trans _ _ _ Hr Hsh')|].
      intros Hsc. apply dict_of_pairs_wf. apply Hw. apply Hsh'. exact Hsc.
    - intros e H. apply bind_Raise in H as [H|([pairs rest] & _ & H)];
        [|discriminate].
      destruct (C2 _ H) as [->|[-> Hf]]; [auto|].
      right; right. split; [reflexivity|]. destruct Hsh as [Hlen _].
      cbn [List.length]. lia. }
  destruct (c =? c_lbracket).
  { destruct (skip_ws s1) as [|c' s2] eqn:Ews.
    { split; [intros v r H; discriminate | raised]. }
    pose proof (skip_ws_cons_shorter _ _ _ Ews) as Hsh.
    pose proof (shorter_trans _ _ _ Hsh (shorter_cons c s1)) as Hsh'.
    pose proof (skip_ws_rest_of s1) as Hro. rewrite Ews in Hro.
    pose proof (rest_of_shorter _ _ _ Hro (shorter_cons c s1)) as Hro'.
    destruct (c' =? c_rbracket).
    { split; [|raised].
      intros v r H; injection H as <- <-. split; [exact Hsh'|reflexivity]. }
    destruct (B (c' :: s2)) as [B1 B2]. split.
    - intros v r H. apply bind_Ok in H as ([values rest] & Hp & H).
      injection H as <- <-. destruct (B1 _ _ Hp) as [Hr Hw].
      split; [exact (shorter_trans _ _ _ Hr Hro')|].
      intros Hsc. cbn [wf_json]. apply Hw. apply Hro'. exact Hsc.
    - intros e H. apply bind_Raise in H as [H|([values rest] & _ & H)];
        [|discriminate].
      destruct (B2 _ H) as [->|[-> Hf]]; [auto|].
      right; right. split; [reflexivity|]. destruct Hro as [Hlen _].
      cbn [List.length] in Hf, Hlen |- *. lia. }
  destruct (strip_prefix (str "null") (c :: s1)) as [rest|] eqn:E1;
    [atom E1|].
  destruct (strip_prefix (str "true") (c :: s1)) as [rest|] eqn:E2;
    [atom E2|].
  destruct (strip_prefix (str "false") (c :: s1)) as [rest|] eqn:E3;
    [atom E3|].
  destruct (match_number (c :: s1)) as [[[[i fr] ex] rest]|] eqn:Em.
  { apply match_number_spec in Em as (E & c0 & i' & Ei & _).
    assert (Hsh : shorter rest (c :: s1)).
    { rewrite E, Ei, !List.app_assoc. apply shorter_suffix. discriminate. }
    destruct (is_nil fr && is_nil ex);
      (split; [|raised]);
      intros v r H; injection H as <- <-; (split; [exact Hsh|reflexivity]). }
  destruct (strip_prefix (str "NaN") (c :: s1)) as [rest|] eqn:E4;
    [atom E4|].
  destruct (strip_prefix (str "Infinity") (c :: s1)) as [rest|] eqn:E5;
    [atom E5|].
  destruct (strip_prefix (str "-Infinity") (c :: s1)) as [rest|] eqn:E6;
    [atom E6|].
  split; [intros v r H; discriminate | raised].
Qed.

Lemma array_values_step (fuel : nat) :
  scan_once_ok fuel -> array_values_ok fuel -> array_values_ok (S fuel).
Proof.
  intros A B s. cbn [array_values]. destruct (A s) as [A1 A2].
  destruct (scan_once fuel s) as [[value s1]|e] eqn:Es.
  - destruct (A1 _ _ eq_refl) as [Hs1 Hv]. cbn [expecting_value bind].
    destruct (skip_ws s1) as [|c s2] eqn:Ews.
    { split; [intros v r H; discriminate | raised]. }
    pose proof (skip_ws_cons_shorter _ _ _ Ews) as Hs2.
    pose proof (shorter_trans _ _ _ Hs2 Hs1) as Hs2'.
    destruct (c =? c_rbracket).
    { split; [|raised].
      intros vs r H; injection H as <- <-. split; [exact Hs2'|].
      intros Hsc. cbn [forallb]. rewrite (Hv Hsc). reflexivity. }
    destruct (c =? c_comma);
      [|split; [intros v r H; discriminate | raised]].
    pose proof (rest_of_shorter _ _ _ (skip_ws_rest_of s2) Hs2') as Hs3.
    destruct (B (skip_ws s2)) as [B1 B2]. split.
    + intros vs r H. apply bind_Ok in H as ([values rest] & Hp & H).
      injection H as <- <-. destruct (B1 _ _ Hp) as [Hr Hw].
      split; [exact (shorter_trans _ _ _ Hr Hs3)|].
      intros Hsc. cbn [forallb]. rewrite (Hv Hsc), Hw; [reflexivity|].
      apply Hs3. exact Hsc.
    + intros e H. apply bind_Raise in H as [H|([values rest] & _ & H)];
        [|discriminate].
      destruct (B2 _ H) as [->|[-> Hf]]; [auto|].
      right. split; [reflexivity|]. destruct Hs3 as [Hlen _]. lia.
  - split.
    + intros vs r H. apply bind_Ok in H as (x & Hx & _).
      apply expecting_value_Ok in Hx. discriminate.
    + intros e' H. cbn [bind] in H.
      destruct (A2 _ eq_refl) as [->|[->|[-> Hf]]]; cbn in H;
        injection H as <-; auto.
      right. split; [reflexivity|]. lia.
Qed.

Lemma object_pairs_step (fuel : nat) :
  scan_once_ok fuel -> object_pairs_ok fuel -> object_pairs_ok (S fuel).
Proof.
  intros A C s. cbn [object_pairs].
  destruct (scanstring s) as [[key s1]|e] eqn:Ek.
  2:{ split; [intros v r H; discriminate|].
      intros e' H. cbn [bind] in H. apply scanstring_raises in Ek.
      left. congruence. }
  apply scanstring_spec in Ek as [Hlen1 Hk]. cbn [bind].
  assert (Hs1 : shorter s1 s) by (split; [exact Hlen1 | apply Hk]).
  destruct (skip_ws s1) as [|c s2] eqn:Ews.
  { split; [intros v r H; discriminate | raised]. }
  pose proof (shorter_trans _ _ _ (skip_ws_cons_shorter _ _ _ Ews) Hs1) as Hs2.
  destruct (c =? c_colon);
    [|split; [intros v r H; discriminate | raised]].
  pose proof (rest_of_shorter _ _ _ (skip_ws_rest_of s2) Hs2) as Hs2'.
  destruct (A (skip_ws s2)) as [A1 A2].
  destruct (scan_once fuel (skip_ws s2)) as [[value s3]|e] eqn:Es.
  - destruct (A1 _ _ eq_refl) as [Hs3 Hv]. cbn [expecting_value bind].
    pose proof (shorter_trans _ _ _ Hs3 Hs2') as Hs3'.
    destruct (skip_ws s3) as [|d s4] eqn:Ews3.
    { split; [intros v r H; discriminate | raised]. }
    pose proof (shorter_trans _ _ _ (skip_ws_cons_shorter _ _ _ Ews3) Hs3')
      as Hs4.
    assert (Hkv : scalar_text s = true -> wf_pair (key, value) = true).
    { intros Hsc. cbn [wf_pair]. destruct (Hk Hsc) as (Hwk & _ & _).
      rewrite Hwk, Hv; [reflexivity|]. apply Hs2'. exact Hsc. }
    destruct (d =? c_rbrace).
    { split; [|raised].
      intros pairs r H; injection H as <- <-. split; [exact Hs4|].
      intros Hsc. cbn [forallb]. rewrite (Hkv Hsc). reflexivity. }
    destruct (d =? c_comma);
      [|split; [intros v r H; discriminate | raised]].
    destruct (skip_ws s4) as [|q s5] eqn:Ews4.
    { split; [intros v r H; discriminate | raised]. }
    pose proof (shorter_trans _ _ _ (skip_ws_cons_shorter _ _ _ Ews4) Hs4)
      as Hs5.
    destruct (q =? c_quote);
      [|split; [intros v r H; discriminate | raised]].
    destruct (C s5) as [C1 C2]. split.
    + intros pairs r H. apply bind_Ok in H as ([pairs' rest] & Hp & H).
      injection H as <- <-. destruct (C1 _ _ Hp) as [Hr Hw].
      split; [exact (shorter_trans _ _ _ Hr Hs5)|].
      intros Hsc. cbn [forallb]. rewrite (Hkv Hsc), Hw; [reflexivity|].
      apply Hs5. exact Hsc.
    + intros e H. apply bind_Raise in H as [H|([pairs' rest] & _ & H)];
        [|discriminate].
      destruct (C2 _ H) as [->|[-> Hf]]; [auto|].
      right. split; [reflexivity|]. destruct Hs5 as [Hlen _]. lia.
  - split.
    + intros pairs r H. apply bind_Ok in H as (x & Hx & _).
      apply expecting_value_Ok in Hx. discriminate.
    + intros e' H. cbn [bind] in H.
      destruct (A2 _ eq_refl) as [->|[->|[-> Hf]]]; cbn in H;
        injection H as <-; auto.
      right. split; [reflexivity|]. destruct Hs2' as [Hlen _]. lia.
Qed.

Lemma scanner_ok (fuel : nat) :
  scan_once_ok fuel /\ array_values_ok fuel /\ object_pairs_ok fuel.
Proof.
  induction fuel as [|fuel (A & B & C)].
  - split; [|split]; intros s;
      (split; [intros ? ? H; discriminate|]);
      intros e H; injection H as <-;
      [right; right|right|right]; (split; [reflexivity|lia]).
  - split; [|split].
    + apply scan_once_step; assumption.
    + apply array_values_step; assumption.
    + apply object_pairs_step; assumption.
Qed.

(** [json.loads] returns an object or raises [JSONDecodeError]; what it
    returns for a text of scalar values is well formed. *)
Lemma loads_total (s : text) :
  (exists o, loads s = Ok o) \/ loads s = Raise JSONDecodeError.
Proof.
  unfold loads. destruct (starts_with_bom s); [right; reflexivity|].
  destruct (scanner_ok (2 * List.length s + 1)) as (A & _ & _).
  destruct (A (skip_ws s)) as [_ A2].
  destruct (scan_once (2 * List.length s + 1) (skip_ws s))
    as [[obj rest]|e] eqn:E.
  - cbn [expecting_value bind].
    destruct (skip_ws rest); [left; eauto | right; reflexivity].
  - right. destruct (A2 _ eq_refl) as [->|[->|[-> Hf]]]; try reflexivity.
    pose proof (skip_ws_rest_of s) as [Hlen _]. lia.
Qed.

Lemma loads_wf (s : text) (o : json) :
  scalar_text s = true -> loads s = Ok o -> wf_json o = true.
Proof.
  unfold loads. intros Hsc. destruct (starts_with_bom s); [discriminate|].
  destruct (scanner_ok (2 * List.length s + 1)) as (A & _ & _).
  destruct (A (skip_ws s)) as [A1 _].
  intros H. apply bind_Ok in H as ([obj rest] & Hx & H).
  apply expecting_value_Ok in Hx.
  destruct (A1 _ _ Hx) as [_ Hw].
  destruct (skip_ws rest); [|discriminate]. injection H as <-.
  apply Hw. apply (skip_ws_rest_of s). exact Hsc.
Qed.

End ScannerSpec.

(** ** ASCII text and UTF-8 *)

Lemma ascii_text_app (a b : text) :
  ascii_text (a ++ b) = ascii_text a && ascii_text b.
Proof. apply forallb_app. Qed.

Lemma ascii_text_cons (c : N) (t : text) :
  ascii_text (c :: t) = (c <? 128) && ascii_text t.
Proof. reflexivity. Qed.

Lemma to_N_byte_of_N (n : N) : n < 256 -> Byte.to_N (byte_of_N n) = n.
Proof.
  intros H. unfold byte_of_N.
  destruct (Byte.of_N n) as [b|] eqn:E.
  - apply Byte.to_of_N. exact E.
  - apply Byte.of_N_None_iff in E. lia.
Qed.

Lemma encode_utf8_ascii (t : text) :
  ascii_text t = true -> encode_utf8 t = Ok (map byte_of_N t).
Proof.
  induction t as [|c t IH]; [reflexivity|].
  rewrite ascii_text_cons, andb_true_iff. intros [Hc Ht].
  cbn [encode_utf8 map]. unfold utf8_encode_char. rewrite Hc.
  cbn [bind]. rewrite (IH Ht). reflexivity.
Qed.

Lemma utf8_decode_ascii (t : text) :
  ascii_text t = true -> utf8_decode t = Ok t.
Proof.
  induction t as [|c t IH]; [reflexivity|].
  rewrite ascii_text_cons, andb_true_iff. intros [Hc Ht].
  cbn [utf8_decode]. rewrite Hc, (IH Ht). reflexivity.
Qed.

Lemma map_to_N_byte_of_N (t : text) :
  ascii_text t = true -> map Byte.to_N (map byte_of_N t) = t.
Proof.
  induction t as [|c t IH]; [reflexivity|].
  rewrite ascii_text_cons, andb_true_iff. intros [Hc Ht].
  cbn [map]. rewrite (IH Ht), to_N_byte_of_N; [reflexivity|].
  apply N.ltb_lt in Hc. lia.
Qed.

(** Encoding an ASCII text gives one byte for each character, and
    decoding those bytes gives the text back. *)
Lemma encode_utf8_ascii_spec (t : text) :
  ascii_text t = true ->
  exists body, encode_utf8 t = Ok body
               /\ List.length body = List.length t
               /\ utf8_decode (map Byte.to_N body) = Ok t.
Proof.
  intros H. exists (map byte_of_N t). split; [|split].
  - apply encode_utf8_ascii. exact H.
  - apply length_map.
  - rewrite (map_to_N_byte_of_N _ H). apply utf8_decode_ascii. exact H.
Qed.

Lemma hexdigit_ascii (d : N) : d < 16 -> hexdigit d < 128.
Proof. intros H. unfold hexdigit. destruct (d <? 10); lia. Qed.

Lemma u_escape_ascii (n : N) : ascii_text (u_escape n) = true.
Proof.
  unfold u_escape, hex4, ascii_text. cbn [forallb].
  rewrite !andb_true_iff. repeat split; try reflexivity;
    apply N.ltb_lt, hexdigit_ascii, N.mod_lt; discriminate.
Qed.

Lemma escape_char_ascii (c : N) : ascii_text (escape_char c) = true.
Proof.
  unfold escape_char.
  repeat match goal with
  | |- context [if ?a =? ?b then _ else _] => destruct (a =? b); [reflexivity|]
  end.
  destruct ((c_space <=? c) && (c <=? 126)) eqn:Hp.
  - apply andb_true_iff in Hp as [_ Hp]. apply N.leb_le in Hp.
    unfold ascii_text. cbn [forallb]. rewrite andb_true_r.
    apply N.ltb_lt. lia.
  - destruct (c <? 0x10000); [apply u_escape_ascii|].
    cbv zeta. rewrite ascii_text_app, !u_escape_ascii. reflexivity.
Qed.

Lemma encode_basestring_ascii_ascii (s : text) :
  ascii_text (encode_basestring_ascii s) = true.
Proof.
  unfold encode_basestring_ascii.
  rewrite ascii_text_cons, ascii_text_app. cbn [andb].
  change (c_quote <? 128) with true. cbn [andb].
  rewrite andb_true_r.
  induction s as [|c s IH]; [reflexivity|].
  cbn [flat_map]. rewrite ascii_text_app, escape_char_ascii, IH. reflexivity.
Qed.

Lemma digits_ascii (ds : text) :
  forallb is_digit ds = true -> ascii_text ds = true.
Proof.
  induction ds as [|c ds IH]; [reflexivity|]. cbn [forallb].
  rewrite andb_true_iff. intros [Hc Hd].
  rewrite ascii_text_cons, (IH Hd), andb_true_r.
  unfold is_digit in Hc. apply andb_true_iff in Hc as [_ Hc].
  apply N.leb_le in Hc. apply N.ltb_lt. lia.
Qed.

Lemma int_repr_ascii (z : Z) : ascii_text (int_repr z) = true.
Proof.
  unfold int_repr. destruct (Z.to_int z) as [d|d];
    [|rewrite ascii_text_cons; change (c_minus <? 128) with true; cbn [andb]];
    apply digits_ascii, uint_chars_digits.
Qed.

Lemma span_digits_ascii (s ds r : text) :
  span_digits s = (ds, r) -> ascii_text ds = true.
Proof.
  intros H. apply span_digits_spec in H as (_ & H & _).
  apply digits_ascii. exact H.
Qed.

Lemma match_number_ascii (s i fr ex r : text) :
  match_number s = Some (i, fr, ex, r) ->
  ascii_text i = true /\ ascii_text fr = true /\ ascii_text ex = true.
Proof.
  unfold match_number.
  destruct (match_integer s) as [[i' r1]|] eqn:E1; [|discriminate].
  destruct (match_frac r1) as [fr' r2] eqn:E2.
  destruct (match_exp r2) as [ex' r3] eqn:E3.
  intros H; injection H as <- <- <- <-. split; [|split].
  - unfold match_integer in E1.
    assert (Hgen : forall sign s1,
      ascii_text sign = true ->
      match s1 with
      | c :: r0 =>
        if c =? c_0 then Some (sign ++ [c], r0)
        else if is_digit c then
          let (ds, r') := span_digits r0 in Some (sign ++ c :: ds, r')
        else None
      | [] => None
      end = Some (i', r1) -> ascii_text i' = true).
    { intros sign [|c r0] Hs; [discriminate|].
      destruct (N.eqb_spec c c_0) as [->|_].
      - intros E; injection E as <- <-. rewrite ascii_text_app, Hs.
        reflexivity.
      - destruct (is_digit c) eqn:Hc; [|discriminate].
        destruct (span_digits r0) as [ds r'] eqn:E.
        intros E'; injection E' as <- <-.
        rewrite ascii_text_app, Hs. cbn [andb].
        change (c :: ds) with ([c] ++ ds). rewrite ascii_text_app.
        rewrite (span_digits_ascii _ _ _ E), andb_true_r.
        apply digits_ascii. cbn [forallb]. rewrite Hc. reflexivity. }
    destruct s as [|c s']; [discriminate|].
    destruct (N.eqb_spec c c_minus) as [->|_].
    + apply (Hgen [c_minus] s' eq_refl E1).
    + apply (Hgen [] (c :: s') eq_refl E1).
  - unfold match_frac in E2.
    destruct r1 as [|c s']; [injection E2 as <- <-; reflexivity|].
    destruct (N.eqb_spec c c_dot) as [->|_];
      [|injection E2 as <- <-; reflexivity].
    destruct (span_digits s') as [ds r'] eqn:E.
    destruct ds as [|d ds]; injection E2 as <- <-; [reflexivity|].
    rewrite ascii_text_cons, (span_digits_ascii _ _ _ E). reflexivity.
  - unfold match_exp in E3.
    destruct r2 as [|c s']; [injection E3 as <- <-; reflexivity|].
    destruct ((c =? c_e) || (c =? c_E)) eqn:Hc;
      [|injection E3 as <- <-; reflexivity].
    assert (Hc' : (c <? 128) = true).
    { apply orb_true_iff in Hc as [Hc|Hc]; apply N.eqb_eq in Hc; subst;
        reflexivity. }
    destruct s' as [|g s''].
    + cbn in E3. injection E3 as <- <-; reflexivity.
    + destruct ((g =? c_minus) || (g =? c_plus)) eqn:Hg.
      * destruct (span_digits s'') as [ds r'] eqn:E.
        destruct ds as [|d ds]; injection E3 as <- <-; [reflexivity|].
        rewrite ascii_text_cons, Hc'. cbn [andb app].
        rewrite ascii_text_cons, (span_digits_ascii _ _ _ E), andb_true_r.
        apply orb_true_iff in Hg as [Hg|Hg]; apply N.eqb_eq in Hg; subst;
          reflexivity.
      * destruct (span_digits (g :: s'')) as [ds r'] eqn:E.
        destruct ds as [|d ds]; injection E3 as <- <-; [reflexivity|].
        rewrite ascii_text_cons, Hc'. cbn [andb app].
        apply (span_digits_ascii _ _ _ E).
Qed.

Lemma float_lexeme_ascii (l : text) :
  float_lexeme l = true -> ascii_text l = true.
Proof.
  unfold float_lexeme. rewrite !orb_true_iff.
  intros [[[H|H]|H]|H]; try (apply text_eqb_eq in H; subst; reflexivity).
  destruct (match_number l) as [[[[i fr] ex] [|? ?]]|] eqn:E;
    try discriminate.
  destruct (match_number_ascii _ _ _ _ _ E) as (H1 & H2 & H3).
  apply match_number_spec in E as [-> _].
  rewrite !ascii_text_app, H1, H2, H3. reflexivity.
Qed.

Section EncoderFacts.
Context {PF : PyFloat}.

Lemma newline_indent_ascii (level : nat) :
  ascii_text (newline_indent level) = true.
Proof.
  unfold newline_indent. rewrite ascii_text_cons. cbn [andb].
  change (c_lf <? 128) with true. cbn [andb].
  induction (2 * level)%nat; [reflexivity|]. cbn [repeat].
  rewrite ascii_text_cons. assumption.
Qed.

Lemma join_chunks_ascii (sep : text) (chunks : list text) :
  ascii_text sep = true -> Forall (fun c => ascii_text c = true) chunks ->
  ascii_text (join_chunks sep chunks) = true.
Proof.
  intros Hs H. induction H as [|c chunks Hc _ IH]; [reflexivity|].
  destruct chunks as [|c' chunks]; [exact Hc|].
  rewrite join_chunks_cons2, !ascii_text_app, Hc, Hs, IH. reflexivity.
Qed.

Lemma iterencode_ascii (o : json) :
  floats_ascii o = true ->
  forall level, ascii_text (_iterencode o level) = true.
Proof.
  induction o as [|b|z|f|s|l IH|d IH] using json_ind; intros Hf level.
  - reflexivity.
  - destruct b; reflexivity.
  - apply int_repr_ascii.
  - exact Hf.
  - apply encode_basestring_ascii_ascii.
  - destruct l as [|v l]; [reflexivity|].
    rewrite iterencode_list, ascii_text_cons, !ascii_text_app.
    rewrite !newline_indent_ascii. cbn [andb].
    change (c_lbracket <? 128) with true.
    change (ascii_text [c_rbracket]) with true. rewrite andb_true_r.
    cbn [andb]. apply join_chunks_ascii.
    + rewrite ascii_text_cons, newline_indent_ascii. reflexivity.
    + cbn [floats_ascii] in Hf. rewrite forallb_forall in Hf.
      rewrite Forall_forall in IH |- *. intros c Hc.
      apply in_map_iff in Hc as (x & <- & Hx). apply IH; auto.
  - destruct d as [|kv d]; [reflexivity|].
    rewrite iterencode_dict, ascii_text_cons, !ascii_text_app.
    rewrite !newline_indent_ascii. cbn [andb].
    change (c_lbrace <? 128) with true.
    change (ascii_text [c_rbrace]) with true. rewrite andb_true_r.
    cbn [andb]. apply join_chunks_ascii.
    + rewrite ascii_text_cons, newline_indent_ascii. reflexivity.
    + cbn [floats_ascii] in Hf. rewrite forallb_forall in Hf.
      rewrite Forall_forall in IH |- *. intros c Hc.
      apply in_map_iff in Hc as ([k x] & <- & Hx).
      rewrite !ascii_text_app, encode_basestring_ascii_ascii.
      change (ascii_text (str ": ")) with true. cbn [andb].
      apply (IH _ Hx). apply (Hf _ Hx).
Qed.

Lemma floats_ascii_laws (Laws : PyFloatLaws PF) (o : json) :
  floats_ascii o = true.
Proof.
  induction o as [|b|z|f|s|l IH|d IH] using json_ind; try reflexivity.
  - apply float_lexeme_ascii, float_repr_lexeme.
  - cbn [floats_ascii]. apply forallb_forall. rewrite Forall_forall in IH.
    exact IH.
  - cbn [floats_ascii]. apply forallb_forall. rewrite Forall_forall in IH.
    exact IH.
Qed.

(** The body [_send_json] writes for an object: one byte for each
    character of [dumps], which a client decodes back to that text. *)
Lemma body_of_dumps (o : json) :
  floats_ascii o = true ->
  exists body, encode_utf8 (dumps o) = Ok body
               /\ List.length body = List.length (dumps o)
               /\ utf8_decode (map Byte.to_N body) = Ok (dumps o).
Proof.
  intros H. apply encode_utf8_ascii_spec. apply iterencode_ascii. exact H.
Qed.

End EncoderFacts.

(** ** Text files hold scalar values *)

Lemma utf8_decode_scalar (bs : list N) (t : text) :
  Forall (fun b => b < 256) bs ->
  utf8_decode bs = Ok t -> scalar_text t = true.
Proof.
  remember (List.length bs) as n eqn:En. revert bs En t.
  induction n as [n IH] using lt_wf_ind. intros bs En t Hb.
  assert (Hrec : forall bs' c t',
             (List.length bs' < n)%nat -> Forall (fun b => b < 256) bs' ->
             (valid_char c && negb (is_surrogate c)) = true ->
             cons_decoded c (utf8_decode bs') = Ok t' ->
             scalar_text t' = true).
  { intros bs' c t' Hlen Hb' Hc H. unfold cons_decoded in H.
    apply bind_Ok in H as (chars & Hd & H). injection H as <-.
    unfold scalar_text. cbn [forallb]. rewrite Hc. cbn [andb].
    apply (IH _ Hlen bs' eq_refl _ Hb' Hd). }
  assert (Hchar : forall c, c < 0x110000 -> (c < 0xd800 \/ 0xdfff < c) ->
                            (valid_char c && negb (is_surrogate c)) = true).
  { intros c H1 H2. unfold valid_char, is_surrogate.
    destruct H2; nb; reflexivity. }
  destruct bs as [|b0 r0]; cbn [utf8_decode].
  { intros H; injection H as <-; reflexivity. }
  subst n. cbn [List.length] in *.
  apply Forall_cons_iff in Hb as [H0 Hb].
  destruct (N.ltb_spec b0 0x80).
  { apply Hrec; [lia | exact Hb | apply Hchar; lia]. }
  destruct ((0xc2 <=? b0) && (b0 <=? 0xdf)) eqn:E2.
  { apply andb_true_iff in E2 as [A1 A2]. apply N.leb_le in A1, A2.
    destruct r0 as [|b1 r1]; [discriminate|].
    apply Forall_cons_iff in Hb as [H1 Hb].
    destruct (is_continuation b1) eqn:C1; [|discriminate].
    unfold is_continuation in C1. apply andb_true_iff in C1 as [C1 C1'].
    apply N.leb_le in C1, C1'.
    apply Hrec; [cbn [List.length]; lia | exact Hb | apply Hchar; lia]. }
  destruct ((0xe0 <=? b0) && (b0 <=? 0xef)) eqn:E3.
  { apply andb_true_iff in E3 as [A1 A2]. apply N.leb_le in A1, A2.
    destruct r0 as [|b1 [|b2 r2]]; try discriminate.
    apply Forall_cons_iff in Hb as [H1 Hb].
    apply Forall_cons_iff in Hb as [H2 Hb].
    match goal with
    | |- (if ?c then _ else _) = _ -> _ => destruct c eqn:C; [|discriminate]
    end.
    rewrite !andb_true_iff in C. destruct C as [[[C1 C2] C3] C4].
    unfold is_continuation in C1, C2.
    apply andb_true_iff in C1 as [C1 C1'], C2 as [C2 C2'].
    apply N.leb_le in C1, C1', C2, C2'.
    apply Hrec; [cbn [List.length]; lia | exact Hb |].
    apply Hchar; [lia|].
    destruct (b0 =? 0xed) eqn:Ed; rewrite ?Ed in C4; cbn [negb orb] in C4;
      [apply N.leb_le in C4; apply N.eqb_eq in Ed | apply N.eqb_neq in Ed];
      lia. }
  destruct ((0xf0 <=? b0) && (b0 <=? 0xf4)) eqn:E4; [|discriminate].
  apply andb_true_iff in E4 as [A1 A2]. apply N.leb_le in A1, A2.
  destruct r0 as [|b1 [|b2 [|b3 r3]]]; try discriminate.
  apply Forall_cons_iff in Hb as [H1 Hb].
  apply Forall_cons_iff in Hb as [H2 Hb].
  apply Forall_cons_iff in Hb as [H3 Hb].
  match goal with
  | |- (if ?c then _ else _) = _ -> _ => destruct c eqn:C; [|discriminate]
  end.
  rewrite !andb_true_iff in C. destruct C as [[[[C1 C2] C3] C4] C5].
  unfold is_continuation in C1, C2, C3.
  apply andb_true_iff in C1 as [C1 C1'], C2 as [C2 C2'], C3 as [C3 C3'].
  apply N.leb_le in C1, C1', C2, C2', C3, C3'.
  apply Hrec; [cbn [List.length]; lia | exact Hb |].
  destruct (b0 =? 0xf0) eqn:E0; rewrite ?E0 in C4; cbn [negb orb] in C4;
    [apply N.leb_le in C4; apply N.eqb_eq in E0 | apply N.eqb_neq in E0];
    (destruct (b0 =? 0xf4) eqn:E4; rewrite ?E4 in C5; cbn [negb orb] in C5;
     [apply N.leb_le in C5; apply N.eqb_eq in E4 | apply N.eqb_neq in E4]);
    apply Hchar; lia.
Qed.

Lemma universal_newlines_scalar (s : text) :
  scalar_text s = true -> scalar_text (universal_newlines s) = true.
Proof.
  remember (List.length s) as n eqn:En. revert s En.
  induction n as [n IH] using lt_wf_ind. intros s En Hs.
  destruct s as [|c r]; [reflexivity|]. subst n.
  apply scalar_text_cons in Hs as [Hc Hr]. cbn [universal_newlines].
  destruct (c =? c_cr).
  - destruct r as [|d r']; [reflexivity|].
    apply scalar_text_cons in Hr as [Hd Hr'].
    destruct (d =? c_lf); apply scalar_text_cons;
      (split; [split; reflexivity|]).
    + apply (IH (List.length r')); [cbn [List.length]; lia | reflexivity|].
      exact Hr'.
    + apply (IH (List.length (d :: r'))); [cbn [List.length]; lia | reflexivity|].
      apply scalar_text_cons. auto.
  - apply scalar_text_cons. split; [exact Hc|].
    apply (IH (List.length r)); [cbn [List.length]; lia | reflexivity|].
    exact Hr.
Qed.

Lemma read_text_scalar (content : bytes) (t : text) :
  read_text content = Ok t -> scalar_text t = true.
Proof.
  unfold read_text. intros H. apply bind_Ok in H as (chars & Hd & H).
  injection H as <-. apply universal_newlines_scalar.
  apply (utf8_decode_scalar (map Byte.to_N content)); [|exact Hd].
  apply Forall_forall. intros b Hb. apply in_map_iff in Hb as (x & <- & _).
  pose proof (Byte.to_N_bounded x). lia.
Qed.

(** ** Request targets in origin form *)

Lemma filter_all {A} (f : A -> bool) (l : list A) :
  forallb f l = true -> filter f l = l.
Proof.
  induction l as [|x l IH]; [reflexivity|]. cbn [forallb filter].
  rewrite andb_true_iff. intros [Hx Hl]. rewrite Hx, (IH Hl). reflexivity.
Qed.

Lemma split_scheme_slash (r : text) :
  split_scheme (c_slash :: r) = ([], c_slash :: r).
Proof.
  unfold split_scheme. cbn [partition_at].
  change (c_slash =? c_colon) with false. cbn iota.
  destruct (partition_at c_colon r) as [before [after|]]; reflexivity.
Qed.

Section UrlparseFacts.
Context {PL : PyLib}.

Lemma urlsplit_origin_form (t : text) :
  origin_form t = true ->
  urlsplit t
  = Ok ([], [], fst (cut c_question (fst (cut c_hash t))),
        snd (cut c_question (fst (cut c_hash t))), snd (cut c_hash t)).
Proof.
  destruct t as [|c r]; [discriminate|]. cbn [origin_form].
  rewrite !andb_true_iff, negb_true_iff. intros [[Hc Hr] Hu].
  apply N.eqb_eq in Hc. subst c. unfold urlsplit.
  cbn [lstrip_c0_space]. change (c_slash <=? c_space) with false. cbn iota.
  unfold remove_unsafe_bytes. rewrite (filter_all _ _ Hu).
  rewrite split_scheme_slash.
  destruct r as [|b r0]; cbn iota in Hr |- *;
    rewrite ?Hr, ?andb_false_r; cbn [bind]; unfold cut;
    (destruct (partition_at c_hash _) as [u1 [fragment|]]; cbn [fst snd];
     destruct (partition_at c_question u1) as [u2 [query|]]; reflexivity).
Qed.

Lemma urlparse_origin_form (t : text) :
  origin_form t = true ->
  exists parsed, urlparse t = Ok parsed
                 /\ url_path parsed = target_path t
                 /\ url_scheme parsed = [] /\ url_netloc parsed = [].
Proof.
  intros H. unfold urlparse. rewrite (urlsplit_origin_form _ H).
  cbn [bind]. unfold target_path.
  change (existsb (text_eqb []) uses_params) with true. cbn [andb].
  destruct (contains c_semi (fst (cut c_question (fst (cut c_hash t)))));
    [destruct (_splitparams _) as [url params]|];
    eexists; repeat split; reflexivity.
Qed.

End UrlparseFacts.

Lemma partition_at_absent (sep : N) (s : text) :
  contains sep s = false -> partition_at sep s = (s, None).
Proof.
  induction s as [|c s IH]; [reflexivity|]. unfold contains in *.
  cbn [existsb partition_at]. rewrite orb_false_iff. intros [Hc Hs].
  rewrite N.eqb_sym, Hc, (IH Hs). reflexivity.
Qed.

Lemma partition_at_before (sep : N) (s : text) :
  contains sep (fst (partition_at sep s)) = false.
Proof.
  induction s as [|c s IH]; [reflexivity|]. cbn [partition_at].
  destruct (c =? sep) eqn:E; [reflexivity|].
  destruct (partition_at sep s) as [before after]. cbn [fst] in *.
  unfold contains in *. cbn [existsb]. rewrite N.eqb_sym, E, IH. reflexivity.
Qed.

Lemma partition_at_keeps (sep x : N) (s : text) :
  contains x s = false -> contains x (fst (partition_at sep s)) = false.
Proof.
  induction s as [|c s IH]; [reflexivity|]. unfold contains in *.
  cbn [existsb partition_at]. rewrite orb_false_iff. intros [Hc Hs].
  destruct (c =? sep); [reflexivity|].
  destruct (partition_at sep s) as [before after]. cbn [fst] in *.
  cbn [existsb]. rewrite Hc, (IH Hs). reflexivity.
Qed.

(** Without a fragment and without parameters the extracted path is the
    target with its query string stripped. *)
Lemma target_path_plain (t : text) :
  contains c_hash t = false -> contains c_semi t = false ->
  target_path t = strip_query t.
Proof.
  intros Hh Hs. unfold target_path, strip_query, cut.
  rewrite (partition_at_absent _ _ Hh). cbn [fst].
  pose proof (partition_at_keeps c_question c_semi t Hs) as Hk.
  destruct (partition_at c_question t) as [before [after|]]; cbn [fst] in *;
    rewrite Hk; reflexivity.
Qed.

(** ** [json] under the interpreter's limits *)

Lemma count_digits_app (a b : text) :
  count_digits (a ++ b) = (count_digits a + count_digits b)%nat.
Proof. unfold count_digits. rewrite filter_app, length_app. reflexivity. Qed.

Lemma count_digits_all (ds : text) :
  forallb is_digit ds = true -> count_digits ds = List.length ds.
Proof.
  unfold count_digits. induction ds as [|c ds IH]; [reflexivity|].
  cbn [forallb filter]. rewrite andb_true_iff. intros [Hc Hd].
  rewrite Hc. cbn [List.length]. rewrite (IH Hd). reflexivity.
Qed.

Lemma count_digits_uint_chars (d : Decimal.uint) :
  count_digits (uint_chars d) = Decimal.nb_digits d.
Proof.
  rewrite (count_digits_all _ (uint_chars_digits d)).
  induction d; cbn [uint_chars List.length Decimal.nb_digits]; congruence.
Qed.

Lemma nb_digits_chars_uint (ds : text) :
  forallb is_digit ds = true ->
  Decimal.nb_digits (chars_uint ds) = List.length ds.
Proof.
  induction ds as [|c ds IH]; [reflexivity|]. cbn [forallb].
  rewrite andb_true_iff. intros [Hc Hd]. specialize (IH Hd).
  destruct (digit_cases c Hc) as [E|[E|[E|[E|[E|[E|[E|[E|[E|E]]]]]]]]];
    subst c; cbn [chars_uint Decimal.nb_digits List.length]; congruence.
Qed.

(** The integer part of a number: an optional minus sign and one or more
    digits. *)
Lemma match_integer_shape (s i r : text) :
  match_integer s = Some (i, r) ->
  exists sign ds,
    i = sign ++ ds /\ (sign = [] \/ sign = [c_minus])
    /\ ds <> [] /\ forallb is_digit ds = true.
Proof.
  unfold match_integer. intros H.
  assert (Hgen : forall sign s1,
    match s1 with
    | c :: r0 =>
      if c =? c_0 then Some (sign ++ [c], r0)
      else if is_digit c then
        let (ds, r') := span_digits r0 in Some (sign ++ c :: ds, r')
      else None
    | [] => None
    end = Some (i, r) ->
    exists ds, i = sign ++ ds /\ ds <> [] /\ forallb is_digit ds = true).
  { intros sign [|c r0]; [discriminate|].
    destruct (N.eqb_spec c c_0) as [->|_].
    - intros E; injection E as <- <-. exists [c_0].
      split; [reflexivity|]. split; [discriminate|reflexivity].
    - destruct (is_digit c) eqn:Hc; [|discriminate].
      destruct (span_digits r0) as [ds r'] eqn:E.
      apply span_digits_spec in E as (_ & Hds & _).
      intros E; injection E as <- <-. exists (c :: ds).
      split; [reflexivity|]. split; [discriminate|].
      cbn [forallb]. rewrite Hc, Hds. reflexivity. }
  destruct s as [|c s']; [discriminate|].
  destruct (N.eqb_spec c c_minus) as [->|_].
  - apply Hgen in H as (ds & -> & Hne & Hds). exists [c_minus], ds. auto.
  - apply (Hgen [] (c :: s')) in H as (ds & -> & Hne & Hds).
    exists [], ds. auto.
Qed.

(** [int] of a literal has no more digits than the literal. *)
Lemma literal_digits (s i r : text) :
  match_integer s = Some (i, r) ->
  (count_digits (int_repr (int_of_literal i)) <= count_digits i)%nat.
Proof.
  intros H.
  destruct (match_integer_shape _ _ _ H) as (sign & ds & -> & Hsign & Hne & Hds).
  pose proof (nb_digits_chars_uint ds Hds) as Hnb.
  assert (Hlen : (0 < List.length ds)%nat).
  { destruct ds; [congruence|cbn [List.length]; lia]. }
  destruct Hsign as [-> | ->]; cbn [app].
  - rewrite (count_digits_all ds Hds).
    destruct ds as [|c ds']; [congruence|].
    assert (Hc : (c =? c_minus) = false).
    { cbn [forallb] in Hds. apply andb_true_iff in Hds as [Hc _].
      destruct (digit_cases c Hc) as [E|[E|[E|[E|[E|[E|[E|[E|[E|E]]]]]]]]];
        subst c; reflexivity. }
    unfold int_of_literal, int_repr. rewrite Hc, DecimalZ.to_of.
    cbn [Decimal.norm]. rewrite count_digits_uint_chars, <- Hnb.
    apply DecimalFacts.nb_digits_unorm.
    intros E. rewrite E in Hnb. cbn [Decimal.nb_digits] in Hnb. lia.
  - unfold int_of_literal, int_repr.
    change (c_minus =? c_minus) with true. cbn iota.
    rewrite DecimalZ.to_of.
    assert (Hcount : count_digits (c_minus :: ds) = List.length ds).
    { change (c_minus :: ds) with ([c_minus] ++ ds).
      rewrite count_digits_app, (count_digits_all ds Hds). reflexivity. }
    rewrite Hcount, <- Hnb.
    pose proof (DecimalFacts.nb_digits_nzhead (chars_uint ds)) as Hnz.
    cbn [Decimal.norm].
    destruct (Decimal.nzhead (chars_uint ds)) eqn:E;
      try (change (count_digits (c_minus :: ?t))
             with (count_digits ([c_minus] ++ t));
           rewrite count_digits_app, count_digits_uint_chars;
           change (count_digits [c_minus]) with 0%nat; exact Hnz).
    rewrite count_digits_uint_chars. cbn [Decimal.nb_digits]. lia.
Qed.

Section LimitFacts.
Context {PF : PyFloat} {PL : PyLib}.

Lemma exceeds_max_str_digits_le (m n : nat) :
  (m <= n)%nat -> exceeds_max_str_digits n = false ->
  exceeds_max_str_digits m = false.
Proof.
  unfold exceeds_max_str_digits. intros Hle H.
  destruct (0 <? int_max_str_digits)%nat;
    [|rewrite andb_false_r; reflexivity].
  rewrite andb_true_r in *.
  apply andb_false_iff in H. apply andb_false_iff.
  destruct H as [H|H]; [left|right]; apply Nat.ltb_ge in H;
    apply Nat.ltb_ge; lia.
Qed.

Lemma within_scalar (depth : nat) (o : json) :
  nesting o = 0%nat -> ints_within o = true -> within depth o.
Proof. intros H1 H2. split; [lia|exact H2]. Qed.

Lemma within_list (depth : nat) (vs : list json) :
  Forall (within depth) vs -> within (S depth) (JList vs).
Proof.
  intros H. split.
  - cbn [nesting]. apply le_n_S, list_max_le, Forall_map.
    eapply Forall_impl; [|exact H]. intros v [Hv _]. exact Hv.
  - cbn [ints_within]. apply forallb_forall. rewrite Forall_forall in H.
    intros v Hv. apply (H v Hv).
Qed.

Lemma within_dict_items (depth : nat) (d : list (text * json)) :
  Forall (fun kv => within depth (snd kv)) d -> within (S depth) (JDict d).
Proof.
  intros H. split.
  - cbn [nesting]. apply le_n_S, list_max_le, Forall_map.
    eapply Forall_impl; [|exact H]. intros v [Hv _]. exact Hv.
  - cbn [ints_within]. apply forallb_forall. rewrite Forall_forall in H.
    intros v Hv. apply (H v Hv).
Qed.

Lemma dict_set_values (P : json -> Prop) (d : list (text * json))
  (k : text) (v : json) :
  Forall (fun kv => P (snd kv)) d -> P v ->
  Forall (fun kv => P (snd kv)) (dict_set d k v).
Proof.
  intros Hd Hv. induction Hd as [|[k' v'] d Hkv Hd IH]; cbn [dict_set].
  - constructor; [exact Hv|constructor].
  - destruct (text_eqb k' k); constructor; auto.
Qed.

Lemma dict_of_pairs_values (P : json -> Prop) (pairs : list (text * json)) :
  Forall (fun kv => P (snd kv)) pairs ->
  Forall (fun kv => P (snd kv)) (dict_of_pairs pairs).
Proof.
  unfold dict_of_pairs. intros H.
  assert (Hgen : forall acc,
             Forall (fun kv => P (snd kv)) acc ->
             Forall (fun kv => P (snd kv))
               (fold_left (fun d kv => dict_set d (fst kv) (snd kv))
                          pairs acc)).
  { induction H as [|kv pairs Hkv _ IH]; intros acc Hacc; [exact Hacc|].
    cbn [fold_left]. apply IH, dict_set_values; assumption. }
  apply Hgen. constructor.
Qed.

Lemma within_dict (depth : nat) (pairs : list (text * json)) :
  Forall (fun kv => within depth (snd kv)) pairs ->
  within (S depth) (JDict (dict_of_pairs pairs)).
Proof.
  intros H. apply within_dict_items, (dict_of_pairs_values _ _ H).
Qed.

Lemma within_int (depth : nat) (s i fr ex r : text) :
  match_number s = Some (i, fr, ex, r) ->
  exceeds_max_str_digits (count_digits i) = false ->
  within depth (JInt (int_of_literal i)).
Proof.
  unfold match_number. intros H Hex.
  destruct (match_integer s) as [[i' r1]|] eqn:E; [|discriminate].
  destruct (match_frac r1) as [fr' r2]. destruct (match_exp r2) as [ex' r3].
  injection H as <- _ _ _.
  apply within_scalar; [reflexivity|]. cbn [ints_within].
  rewrite (exceeds_max_str_digits_le _ _ (literal_digits _ _ _ E) Hex).
  reflexivity.
Qed.

Ltac unfold_scanner :=
  cbn [scan_once_unicode _parse_array_unicode _parse_object_unicode
       scan_once array_values object_pairs];
  fold scan_once_unicode; fold _parse_array_unicode;
  fold _parse_object_unicode.

Ltac leaf :=
  first [ solve [auto]
        | solve [split; [reflexivity|apply within_scalar; reflexivity]] ].

Lemma scan_once_sim_step (fuel : nat) :
  array_values_sim fuel -> object_pairs_sim fuel -> scan_once_sim (S fuel).
Proof.
  intros Harr Hobj depth s.
  destruct s as [|nextchar s1]; [cbn; leaf|]. unfold_scanner.
  destruct (nextchar =? c_quote).
  { unfold bind. destruct (scanstring s1) as [[chars rest]|e]; leaf. }
  destruct (nextchar =? c_lbrace).
  { destruct depth as [|depth]; [leaf|].
    destruct (skip_ws s1) as [|c s2]; [leaf|].
    destruct (c =? c_rbrace).
    { split; [reflexivity|]. apply (within_dict_items depth []). constructor. }
    destruct (c =? c_quote); [|leaf].
    specialize (Hobj depth s2). unfold bind.
    destruct (_parse_object_unicode fuel depth s2) as [[pairs rest]|e].
    - cbn beta iota in Hobj. destruct Hobj as [-> Hall]. split; [reflexivity|].
      apply within_dict, Hall.
    - cbn beta iota in Hobj. destruct Hobj as [-> | [-> | ->]]; auto. }
  destruct (nextchar =? c_lbracket).
  { destruct depth as [|depth]; [leaf|].
    destruct (skip_ws s1) as [|c s2]; [leaf|].
    destruct (c =? c_rbracket).
    { split; [reflexivity|]. apply (within_list depth []). constructor. }
    specialize (Harr depth (c :: s2)). unfold bind.
    destruct (_parse_array_unicode fuel depth (c :: s2)) as [[vs rest]|e].
    - cbn beta iota in Harr. destruct Harr as [-> Hall]. split; [reflexivity|].
      apply within_list, Hall.
    - cbn beta iota in Harr. destruct Harr as [-> | [-> | ->]]; auto. }
  destruct (strip_prefix (str "null") (nextchar :: s1)); [leaf|].
  destruct (strip_prefix (str "true") (nextchar :: s1)); [leaf|].
  destruct (strip_prefix (str "false") (nextchar :: s1)); [leaf|].
  destruct (match_number (nextchar :: s1)) as [[[[i fr] ex] rest]|] eqn:E.
  { destruct (is_nil fr && is_nil ex); [|leaf].
    destruct (exceeds_max_str_digits (count_digits i)) eqn:Hex; [leaf|].
    split; [reflexivity|]. apply (within_int depth _ _ _ _ _ E Hex). }
  destruct (strip_prefix (str "NaN") (nextchar :: s1)); [leaf|].
  destruct (strip_prefix (str "Infinity") (nextchar :: s1)); [leaf|].
  destruct (strip_prefix (str "-Infinity") (nextchar :: s1)); leaf.
Qed.

Lemma expecting_value_sim {A} (lim ideal : result A) (e : exn) :
  lim = Raise e ->
  e = RecursionError \/ e = ValueError \/ ideal = Raise e ->
  exists e',
    expecting_value lim = Raise e'
    /\ (e' = RecursionError \/ e' = ValueError
        \/ expecting_value ideal = Raise e').
Proof.
  intros -> [-> | [-> | ->]].
  - exists RecursionError. auto.
  - exists ValueError. auto.
  - destruct e; eexists; (split; [reflexivity|]); auto.
Qed.

Lemma array_values_sim_step (fuel : nat) :
  scan_once_sim fuel -> array_values_sim fuel -> array_values_sim (S fuel).
Proof.
  intros Hscan Harr depth s. unfold_scanner.
  specialize (Hscan depth s).
  destruct (scan_once_unicode fuel depth s) as [[value s1]|e] eqn:E.
  - cbn beta iota in Hscan. destruct Hscan as [-> Hv]. cbn [expecting_value bind].
    destruct (skip_ws s1) as [|c s2]; [leaf|].
    destruct (c =? c_rbracket).
    { split; [reflexivity|]. constructor; [exact Hv|constructor]. }
    destruct (c =? c_comma); [|leaf].
    specialize (Harr depth (skip_ws s2)). unfold bind.
    destruct (_parse_array_unicode fuel depth (skip_ws s2))
      as [[vs rest]|e].
    + cbn beta iota in Harr. destruct Harr as [-> Hall]. split; [reflexivity|].
      constructor; assumption.
    + cbn beta iota in Harr. destruct Harr as [-> | [-> | ->]]; auto.
  - destruct (expecting_value_sim (Raise e) (scan_once fuel s) e eq_refl Hscan)
      as (e' & -> & H). cbn [bind].
    destruct H as [-> | [-> | ->]]; auto.
Qed.

Lemma object_pairs_sim_step (fuel : nat) :
  scan_once_sim fuel -> object_pairs_sim fuel -> object_pairs_sim (S fuel).
Proof.
  intros Hscan Hobj depth s. unfold_scanner.
  destruct (scanstring s) as [[key s1]|e]; cbn [bind]; [|leaf].
  destruct (skip_ws s1) as [|c s2]; [leaf|].
  destruct (c =? c_colon); [|leaf].
  specialize (Hscan depth (skip_ws s2)).
  destruct (scan_once_unicode fuel depth (skip_ws s2)) as [[value s3]|e] eqn:E.
  - cbn beta iota in Hscan. destruct Hscan as [-> Hv]. cbn [expecting_value bind].
    destruct (skip_ws s3) as [|d s4]; [leaf|].
    destruct (d =? c_rbrace).
    { split; [reflexivity|]. constructor; [exact Hv|constructor]. }
    destruct (d =? c_comma); [|leaf].
    destruct (skip_ws s4) as [|q s5]; [leaf|].
    destruct (q =? c_quote); [|leaf].
    specialize (Hobj depth s5). unfold bind.
    destruct (_parse_object_unicode fuel depth s5) as [[pairs rest]|e].
    + cbn beta iota in Hobj. destruct Hobj as [-> Hall]. split; [reflexivity|].
      constructor; assumption.
    + cbn beta iota in Hobj. destruct Hobj as [-> | [-> | ->]]; auto.
  - destruct (expecting_value_sim (Raise e) (scan_once fuel (skip_ws s2)) e
                eq_refl Hscan) as (e' & -> & H). cbn [bind].
    destruct H as [-> | [-> | ->]]; auto.
Qed.

Lemma scanner_sim (fuel : nat) :
  scan_once_sim fuel /\ array_values_sim fuel /\ object_pairs_sim fuel.
Proof.
  induction fuel as [|fuel (A & B & C)].
  - split; [|split]; intros depth s; cbn; auto.
  - split; [|split].
    + apply scan_once_sim_step; assumption.
    + apply array_values_sim_step; assumption.
    + apply object_pairs_sim_step; assumption.
Qed.

(** The scanner of the server does not run out of fuel: its
    [RecursionError] is that of the recursion limit. *)
Lemma scan_once_unicode_shorter (fuel depth : nat) (s r : text) (o : json) :
  scan_once_unicode fuel depth s = Ok (o, r) -> shorter r s.
Proof.
  intros H. destruct (scanner_sim fuel) as (A & _ & _).
  specialize (A depth s). rewrite H in A. destruct A as [A _].
  destruct (scanner_ok fuel) as (B & _ & _).
  destruct (B s) as [B1 _]. apply (B1 _ _ A).
Qed.

Lemma scan_once_stable_step (fuel : nat) :
  array_values_stable fuel -> object_pairs_stable fuel ->
  scan_once_stable (S fuel).
Proof.
  intros B C depth s extra Hf. destruct s as [|c s1]; [reflexivity|].
  change (S fuel + extra)%nat with (S (fuel + extra)). unfold_scanner.
  cbn [List.length] in Hf.
  destruct (c =? c_quote); [reflexivity|].
  destruct (c =? c_lbrace).
  { destruct depth as [|depth]; [reflexivity|].
    destruct (skip_ws s1) as [|c' s2] eqn:Ews; [reflexivity|].
    destruct (c' =? c_rbrace); [reflexivity|].
    destruct (c' =? c_quote); [|reflexivity].
    rewrite C; [reflexivity|].
    destruct (skip_ws_cons_shorter _ _ _ Ews) as [Hl _]. lia. }
  destruct (c =? c_lbracket); [|reflexivity].
  destruct depth as [|depth]; [reflexivity|].
  destruct (skip_ws s1) as [|c' s2] eqn:Ews; [reflexivity|].
  destruct (c' =? c_rbracket); [reflexivity|].
  rewrite B; [reflexivity|].
  destruct (skip_ws_rest_of s1) as [Hl _]. rewrite Ews in Hl. lia.
Qed.

Lemma array_values_stable_step (fuel : nat) :
  scan_once_stable fuel -> array_values_stable fuel ->
  array_values_stable (S fuel).
Proof.
  intros A B depth s extra Hf.
  change (S fuel + extra)%nat with (S (fuel + extra)). unfold_scanner.
  rewrite A by lia.
  destruct (scan_once_unicode fuel depth s) as [[value s1]|e] eqn:Es;
    [|destruct e; reflexivity].
  cbn [expecting_value bind].
  destruct (scan_once_unicode_shorter _ _ _ _ _ Es) as [Hl1 _].
  destruct (skip_ws s1) as [|c s2] eqn:Ews; [reflexivity|].
  destruct (c =? c_rbracket); [reflexivity|].
  destruct (c =? c_comma); [|reflexivity].
  rewrite B; [reflexivity|].
  destruct (skip_ws_cons_shorter _ _ _ Ews) as [Hl2 _].
  destruct (skip_ws_rest_of s2) as [Hl3 _]. lia.
Qed.

Lemma object_pairs_stable_step (fuel : nat) :
  scan_once_stable fuel -> object_pairs_stable fuel ->
  object_pairs_stable (S fuel).
Proof.
  intros A C depth s extra Hf.
  change (S fuel + extra)%nat with (S (fuel + extra)). unfold_scanner.
  destruct (scanstring s) as [[key s1]|e] eqn:Ek; [|reflexivity].
  apply scanstring_spec in Ek as [Hl1 _]. cbn [bind].
  destruct (skip_ws s1) as [|c s2] eqn:Ews; [reflexivity|].
  destruct (skip_ws_cons_shorter _ _ _ Ews) as [Hl2 _].
  destruct (c =? c_colon); [|reflexivity].
  destruct (skip_ws_rest_of s2) as [Hl3 _].
  rewrite A by lia.
  destruct (scan_once_unicode fuel depth (skip_ws s2)) as [[value s3]|e]
    eqn:Es; [|destruct e; reflexivity].
  cbn [expecting_value bind].
  destruct (scan_once_unicode_shorter _ _ _ _ _ Es) as [Hl4 _].
  destruct (skip_ws s3) as [|d s4] eqn:Ews3; [reflexivity|].
  destruct (skip_ws_cons_shorter _ _ _ Ews3) as [Hl5 _].
  destruct (d =? c_rbrace); [reflexivity|].
  destruct (d =? c_comma); [|reflexivity].
  destruct (skip_ws s4) as [|q s5] eqn:Ews4; [reflexivity|].
  destruct (skip_ws_cons_shorter _ _ _ Ews4) as [Hl6 _].
  destruct (q =? c_quote); [|reflexivity].
  rewrite C; [reflexivity|]. lia.
Qed.

Lemma scanner_stable (fuel : nat) :
  scan_once_stable fuel /\ array_values_stable fuel
  /\ object_pairs_stable fuel.
Proof.
  induction fuel as [|fuel (A & B & C)].
  - split; [|split]; intros depth s extra Hf; lia.
  - split; [|split].
    + apply scan_once_stable_step; assumption.
    + apply array_values_stable_step; assumption.
    + apply object_pairs_stable_step; assumption.
Qed.

(** [json.loads] of the server with more fuel than it takes *)
Lemma json_loads_fuel (s : text) (extra : nat) :
  scan_once_unicode (2 * List.length s + 1 + extra) decoder_depth (skip_ws s)
  = scan_once_unicode (2 * List.length s + 1) decoder_depth (skip_ws s).
Proof.
  destruct (scanner_stable (2 * List.length s + 1)) as (A & _ & _).
  apply A. destruct (skip_ws_rest_of s) as [Hl _]. lia.
Qed.

(** What the server's [json.loads] returns, [loads] returns, and it is
    within the limits; it raises one of three exceptions. *)
Lemma json_loads_Ok (s : text) (o : json) :
  json_loads s = Ok o -> loads s = Ok o /\ within decoder_depth o.
Proof.
  unfold json_loads, loads. destruct (starts_with_bom s); [discriminate|].
  destruct (scanner_sim (2 * List.length s + 1)) as (A & _ & _).
  specialize (A decoder_depth (skip_ws s)).
  destruct (scan_once_unicode (2 * List.length s + 1) decoder_depth
              (skip_ws s)) as [[obj rest]|e].
  - destruct A as [-> Hw]. cbn [expecting_value bind].
    destruct (skip_ws rest); [|discriminate].
    intros H; injection H as <-. auto.
  - intros H. destruct e; discriminate.
Qed.

Lemma json_loads_raises (s : text) (e : exn) :
  json_loads s = Raise e ->
  e = JSONDecodeError \/ e = RecursionError \/ e = ValueError.
Proof.
  unfold json_loads. destruct (starts_with_bom s).
  { intros H; injection H as <-. auto. }
  destruct (scanner_sim (2 * List.length s + 1)) as (A & _ & _).
  specialize (A decoder_depth (skip_ws s)).
  destruct (scan_once_unicode (2 * List.length s + 1) decoder_depth
              (skip_ws s)) as [[obj rest]|e'].
  - cbn [expecting_value bind]. destruct (skip_ws rest); [discriminate|].
    intros H; injection H as <-. auto.
  - destruct A as [-> | [-> | A]];
      try (cbn [expecting_value bind]; intros H; injection H as <-; auto).
    destruct (scanner_ok (2 * List.length s + 1)) as (B & _ & _).
    destruct (B (skip_ws s)) as [_ B2].
    destruct (B2 _ A) as [-> | [-> | [-> _]]];
      cbn [expecting_value bind]; intros H; injection H as <-; auto.
Qed.

(** ** The encoder under the limits *)

Lemma iterencode_within_list (depth : nat) (lst : list json) (level : nat) :
  _iterencode_within depth (JList lst) level
  = match depth with
    | O => Raise RecursionError
    | S depth =>
      match lst with
      | [] => Ok (str "[]")
      | _ =>
        chunks <- mapM (fun value => _iterencode_within depth value (S level))
                       lst ;;
        Ok (c_lbracket :: newline_indent (S level)
              ++ join_chunks (c_comma :: newline_indent (S level)) chunks
              ++ newline_indent level ++ [c_rbracket])
      end
    end.
Proof. destruct depth; reflexivity. Qed.

Lemma iterencode_within_dict (depth : nat) (dct : list (text * json))
  (level : nat) :
  _iterencode_within depth (JDict dct) level
  = match depth with
    | O => Raise RecursionError
    | S depth =>
      match dct with
      | [] => Ok (str "{}")
      | _ =>
        chunks <- mapM (fun '(key, value) =>
                          chunk <- _iterencode_within depth value (S level) ;;
                          Ok (encode_basestring_ascii key ++ str ": "
                                ++ chunk))
                       dct ;;
        Ok (c_lbrace :: newline_indent (S level)
              ++ join_chunks (c_comma :: newline_indent (S level)) chunks
              ++ newline_indent level ++ [c_rbrace])
      end
    end.
Proof. destruct depth; reflexivity. Qed.

Lemma mapM_spec {A B} (f : A -> result B) (g : A -> B) (P : A -> Prop)
  (l : list A) :
  Forall (fun a => match f a with
                   | Ok b => b = g a /\ P a
                   | Raise e =>
                     (e = RecursionError \/ e = ValueError) /\ ~ P a
                   end) l ->
  match mapM f l with
  | Ok bs => bs = map g l /\ Forall P l
  | Raise e => (e = RecursionError \/ e = ValueError) /\ ~ Forall P l
  end.
Proof.
  induction 1 as [|a l Ha _ IH]; cbn [mapM map].
  - split; [reflexivity|constructor].
  - destruct (f a) as [b|e]; cbn [bind].
    + destruct Ha as [-> Ha]. destruct (mapM f l) as [bs|e]; cbn [bind].
      * destruct IH as [-> IH]. split; [reflexivity|constructor; assumption].
      * destruct IH as [He IH]. split; [exact He|].
        intros H. apply IH. apply (Forall_inv_tail H).
    + destruct Ha as [He Ha]. split; [exact He|].
      intros H. apply Ha. apply (Forall_inv H).
Qed.

Lemma within_leb (depth : nat) (o : json) :
  (nesting o <=? depth)%nat && ints_within o = true -> within depth o.
Proof.
  intros H. apply andb_true_iff in H as [H1 H2]. split; [|exact H2].
  apply Nat.leb_le, H1.
Qed.

Lemma servable_leb (o : json) :
  wf_json o && (nesting o <=? decoder_depth)%nat
  && (nesting o <=? encoder_depth)%nat && ints_within o = true ->
  servable o.
Proof.
  intros H. apply andb_true_iff in H as [H Hi].
  apply andb_true_iff in H as [H He]. apply andb_true_iff in H as [Hwf Hd].
  split; [exact Hwf|]. split; apply within_leb; rewrite Hi, ?Hd, ?He;
    reflexivity.
Qed.

Lemma within_list_inv (depth : nat) (vs : list json) :
  within (S depth) (JList vs) -> Forall (within depth) vs.
Proof.
  intros [Hn Hi]. cbn [nesting] in Hn. apply le_S_n in Hn.
  apply list_max_le in Hn. cbn [ints_within] in Hi.
  rewrite forallb_forall in Hi. apply Forall_forall. intros v Hv. split.
  - rewrite Forall_forall in Hn. apply Hn, in_map, Hv.
  - apply Hi, Hv.
Qed.

Lemma within_dict_inv (depth : nat) (d : list (text * json)) :
  within (S depth) (JDict d) -> Forall (fun kv => within depth (snd kv)) d.
Proof.
  intros [Hn Hi]. cbn [nesting] in Hn. apply le_S_n in Hn.
  apply list_max_le in Hn. cbn [ints_within] in Hi.
  rewrite forallb_forall in Hi. apply Forall_forall. intros kv Hkv. split.
  - rewrite Forall_forall in Hn.
    apply Hn, (in_map (fun kv => nesting (snd kv))), Hkv.
  - apply Hi, Hkv.
Qed.

Lemma within_zero_list (vs : list json) : ~ within 0 (JList vs).
Proof. intros [H _]. cbn [nesting] in H. lia. Qed.

Lemma within_zero_dict (d : list (text * json)) : ~ within 0 (JDict d).
Proof. intros [H _]. cbn [nesting] in H. lia. Qed.

(** The encoder of the server writes what [_iterencode] writes for a
    value within the limits, and fails for any other value. *)
Lemma iterencode_within_spec (o : json) :
  forall depth level,
    match _iterencode_within depth o level with
    | Ok t => t = _iterencode o level /\ within depth o
    | Raise e => (e = RecursionError \/ e = ValueError) /\ ~ within depth o
    end.
Proof.
  induction o as [|b|z|f|s|l IH|d IH] using json_ind; intros depth level.
  - split; [reflexivity|apply within_scalar; reflexivity].
  - destruct b; (split; [reflexivity|apply within_scalar; reflexivity]).
  - cbn [_iterencode_within].
    destruct (exceeds_max_str_digits (count_digits (int_repr z))) eqn:E.
    + split; [auto|]. intros [_ H]. cbn [ints_within] in H.
      rewrite E in H. discriminate.
    + split; [reflexivity|]. apply within_scalar; [reflexivity|].
      cbn [ints_within]. rewrite E. reflexivity.
  - split; [reflexivity|apply within_scalar; reflexivity].
  - split; [reflexivity|apply within_scalar; reflexivity].
  - rewrite iterencode_within_list.
    destruct depth as [|depth]; [split; [auto|apply within_zero_list]|].
    destruct l as [|v l].
    { split; [reflexivity|]. apply (within_list depth []). constructor. }
    pose proof (mapM_spec
                  (fun value => _iterencode_within depth value (S level))
                  (fun value => _iterencode value (S level))
                  (within depth) (v :: l)) as H.
    destruct (mapM _ (v :: l)) as [chunks|e]; cbn [bind].
    + destruct H as [-> H].
      { eapply Forall_impl; [|exact IH]. intros x Hx. apply Hx. }
      split; [rewrite iterencode_list; reflexivity|apply within_list, H].
    + destruct H as [He H].
      { eapply Forall_impl; [|exact IH]. intros x Hx. apply Hx. }
      split; [exact He|]. intros Hw. apply H, within_list_inv, Hw.
  - rewrite iterencode_within_dict.
    destruct depth as [|depth]; [split; [auto|apply within_zero_dict]|].
    destruct d as [|kv d].
    { split; [reflexivity|]. apply (within_dict_items depth []). constructor. }
    pose proof (mapM_spec
                  (fun '(key, value) =>
                     chunk <- _iterencode_within depth value (S level) ;;
                     Ok (encode_basestring_ascii key ++ str ": " ++ chunk))
                  (fun '(key, value) =>
                     encode_basestring_ascii key ++ str ": "
                       ++ _iterencode value (S level))
                  (fun kv => within depth (snd kv)) (kv :: d)) as H.
    destruct (mapM _ (kv :: d)) as [chunks|e]; cbn [bind].
    + destruct H as [-> H].
      { eapply Forall_impl; [|exact IH]. intros [k x] Hx. cbn [snd] in Hx.
        specialize (Hx depth (S level)).
        destruct (_iterencode_within depth x (S level)); cbn [bind snd].
        - destruct Hx as [-> Hx]. auto.
        - exact Hx. }
      split; [rewrite iterencode_dict; reflexivity|apply within_dict_items, H].
    + destruct H as [He H].
      { eapply Forall_impl; [|exact IH]. intros [k x] Hx. cbn [snd] in Hx.
        specialize (Hx depth (S level)).
        destruct (_iterencode_within depth x (S level)); cbn [bind snd].
        - destruct Hx as [-> Hx]. auto.
        - exact Hx. }
      split; [exact He|]. intros Hw. apply H, within_dict_inv, Hw.
Qed.

Lemma json_dumps_Ok (o : json) (t : text) :
  json_dumps o = Ok t -> t = dumps o /\ within encoder_depth o.
Proof.
  unfold json_dumps, dumps. intros H.
  pose proof (iterencode_within_spec o encoder_depth 0) as S.
  rewrite H in S. exact S.
Qed.

Lemma json_dumps_within (o : json) :
  within encoder_depth o -> json_dumps o = Ok (dumps o).
Proof.
  unfold json_dumps, dumps. intros H.
  pose proof (iterencode_within_spec o encoder_depth 0) as S.
  destruct (_iterencode_within encoder_depth o 0) as [t|e].
  - destruct S as [-> _]. reflexivity.
  - destruct S as [_ S]. contradiction.
Qed.

Lemma json_dumps_raises (o : json) (e : exn) :
  json_dumps o = Raise e -> e = RecursionError \/ e = ValueError.
Proof.
  unfold json_dumps. intros H.
  pose proof (iterencode_within_spec o encoder_depth 0) as S.
  rewrite H in S. apply S.
Qed.

End LimitFacts.

(** ** The server's [json.loads] undoes [json.dumps] within the limits *)

Section RoundtripLimits.
Context {PF : PyFloat} {Laws : PyFloatLaws PF} {PL : PyLib}.

Lemma scan_once_unicode_number_head (fuel depth : nat) (c : N) (s : text) :
  c = c_minus \/ is_digit c = true ->
  scan_once_unicode (S fuel) depth (c :: s)
  = match match_number (c :: s) with
    | Some (integer, frac, exp, rest) =>
      if is_nil frac && is_nil exp
      then
        if exceeds_max_str_digits (count_digits integer)
        then Raise ValueError
        else Ok (JInt (int_of_literal integer), rest)
      else Ok (JFloat (float (integer ++ frac ++ exp)), rest)
    | None =>
      match strip_prefix (str "NaN") (c :: s),
            strip_prefix (str "Infinity") (c :: s),
            strip_prefix (str "-Infinity") (c :: s) with
      | Some rest, _, _ => Ok (JFloat (float (str "nan")), rest)
      | _, Some rest, _ => Ok (JFloat (float (str "inf")), rest)
      | _, _, Some rest => Ok (JFloat (float (str "-inf")), rest)
      | None, None, None => Raise StopIteration
      end
    end.
Proof.
  intros [->|H]; [reflexivity|].
  apply digit_cases in H.
  repeat (destruct H as [->|H]; [reflexivity|]). subst; reflexivity.
Qed.

Lemma scan_once_unicode_float (f : pyfloat) (fuel depth : nat) (rest : text) :
  delimited rest = true ->
  scan_once_unicode (S fuel) depth (float_repr f ++ rest)
  = Ok (JFloat f, rest).
Proof.
  intros Hd.
  pose proof (float_of_repr f) as Hf. unfold float_of_lexeme in Hf.
  destruct (float_lexeme_cases _ (float_repr_lexeme f))
    as [E|[E|[E|(E1 & E2 & E3 & i & fr & ex & Hm & Hn)]]].
  - rewrite E in *. rewrite <- Hf. reflexivity.
  - rewrite E in *. rewrite <- Hf. reflexivity.
  - rewrite E in *. rewrite <- Hf. reflexivity.
  - rewrite E1, E2, E3 in Hf.
    destruct (match_number_spec _ _ _ _ _ Hm) as (El & c & i' & Ei & Hc).
    rewrite List.app_nil_r in El.
    pose proof (match_number_ext _ _ _ _ _ Hm Hd) as Hm'.
    assert (Eh : float_repr f ++ rest = c :: (i' ++ fr ++ ex) ++ rest).
    { rewrite El, Ei. reflexivity. }
    rewrite Eh. rewrite scan_once_unicode_number_head by exact Hc.
    rewrite <- Eh, Hm', Hn, <- El, Hf. reflexivity.
Qed.

Lemma scan_once_unicode_int (z : Z) (fuel depth : nat) (rest : text) :
  delimited rest = true ->
  exceeds_max_str_digits (count_digits (int_repr z)) = false ->
  scan_once_unicode (S fuel) depth (int_repr z ++ rest) = Ok (JInt z, rest).
Proof.
  intros Hd Hlim. pose proof (match_number_int z rest Hd) as Hm.
  destruct (int_repr_head z) as (c & i & E & Hc).
  rewrite E in Hm |- *. cbn [app] in Hm |- *.
  rewrite scan_once_unicode_number_head by exact Hc.
  rewrite Hm. cbn [is_nil andb]. rewrite <- E, Hlim, int_of_literal_repr.
  reflexivity.
Qed.

Lemma scan_once_unicode_string (s : text) (fuel depth : nat) (rest : text) :
  wf_str s = true ->
  scan_once_unicode (S fuel) depth (encode_basestring_ascii s ++ rest)
  = Ok (JString s, rest).
Proof.
  intros H. unfold encode_basestring_ascii.
  cbn [app scan_once_unicode]. change (c_quote =? c_quote) with true.
  cbn iota.
  rewrite <- List.app_assoc. cbn [app].
  rewrite (scanstring_encode _ _ H). reflexivity.
Qed.

Ltac unfold_limited :=
  cbn [scan_once_unicode _parse_array_unicode _parse_object_unicode];
  fold scan_once_unicode; fold _parse_array_unicode;
  fold _parse_object_unicode.

Lemma parse_array_chunks (depth : nat) (items : list json) :
  Forall scans_back_within items -> Forall (within depth) items ->
  items <> [] ->
  forall (level : nat) (rest : text) (fuel : nat),
    (2 * List.length
           (join_chunks (c_comma :: newline_indent (S level))
              (map (fun value => _iterencode value (S level)) items)
            ++ newline_indent level ++ c_rbracket :: rest) + 2 <= fuel)%nat ->
    _parse_array_unicode fuel depth
      (join_chunks (c_comma :: newline_indent (S level))
         (map (fun value => _iterencode value (S level)) items)
       ++ newline_indent level ++ c_rbracket :: rest)
    = Ok (items, rest).
Proof.
  induction 1 as [|v items Hv Hitems IH]; [congruence|].
  intros Hw _ level rest fuel Hfuel.
  pose proof (Forall_inv Hw) as Hwv. apply Forall_inv_tail in Hw.
  destruct fuel as [|fuel]; [lia|].
  set (T := newline_indent level ++ c_rbracket :: rest) in *.
  destruct items as [|v' items].
  - cbn [map join_chunks] in *. unfold_limited.
    rewrite Hv; [| apply delimited_newline_indent | lia | exact Hwv].
    cbn [expecting_value bind]. unfold T. rewrite skip_ws_newline_indent.
    reflexivity.
  - specialize (IH Hw ltac:(discriminate) level rest fuel). fold T in IH.
    assert (Hs : starts_value
                   (join_chunks (c_comma :: newline_indent (S level))
                      (map (fun value => _iterencode value (S level))
                           (v' :: items)) ++ T) = true).
    { apply join_chunks_starts_value; [discriminate|].
      apply Forall_forall. intros c Hc t'.
      apply in_map_iff in Hc as (x & <- & _). apply iterencode_starts_value. }
    cbn [map] in *. rewrite join_chunks_cons2 in Hfuel |- *.
    set (J := join_chunks (c_comma :: newline_indent (S level))
                (_iterencode v' (S level)
                 :: map (fun value => _iterencode value (S level)) items))
      in *.
    rewrite <- ?List.app_assoc in Hfuel |- *. cbn [app] in Hfuel |- *.
    unfold_limited.
    rewrite Hv; [| reflexivity | lia | exact Hwv].
    cbn [expecting_value bind skip_ws].
    change (is_ws c_comma) with false. cbn iota.
    change (c_comma =? c_rbracket) with false.
    change (c_comma =? c_comma) with true. cbn iota.
    rewrite skip_ws_newline_indent, (starts_value_skip_ws _ Hs).
    rewrite IH; [reflexivity|].
    rewrite !length_app in Hfuel. cbn [List.length] in Hfuel.
    rewrite !length_app in Hfuel. rewrite !length_app. lia.
Qed.

Ltac norm_len H :=
  repeat (progress (cbn [List.length] in H) || rewrite length_app in H).

Ltac norm_len_goal :=
  repeat (progress (cbn [List.length]) || rewrite length_app).

Lemma parse_object_pairs_text (depth : nat) (d : list (text * json)) :
  Forall (fun kv => wf_str (fst kv) = true /\ scans_back_within (snd kv)) d ->
  Forall (fun kv => within depth (snd kv)) d ->
  d <> [] ->
  forall (level : nat) (rest : text) (fuel : nat),
    (2 * List.length
           (pairs_text level d (newline_indent level ++ c_rbrace :: rest))
     + 2 <= fuel)%nat ->
    _parse_object_unicode fuel depth
      (pairs_text level d (newline_indent level ++ c_rbrace :: rest))
    = Ok (d, rest).
Proof.
  induction 1 as [|[k v] d [Hk Hv] Hd IH]; [congruence|].
  intros Hw _ level rest fuel Hfuel.
  pose proof (Forall_inv Hw) as Hwv. apply Forall_inv_tail in Hw.
  destruct fuel as [|fuel]; [lia|].
  cbn [fst snd] in *.
  cbn [pairs_text] in Hfuel |- *. unfold_limited.
  rewrite (scanstring_encode _ _ Hk). cbn [bind].
  change (skip_ws (c_colon :: ?x)) with (c_colon :: x). cbn iota.
  change (c_colon =? c_colon) with true. cbn iota.
  change (skip_ws (c_space :: ?x)) with (skip_ws x).
  rewrite starts_value_skip_ws by apply iterencode_starts_value.
  destruct d as [|kv d]; norm_len Hfuel.
  - rewrite Hv;
      [| apply delimited_newline_indent | norm_len_goal; lia | exact Hwv].
    cbn [expecting_value bind]. rewrite skip_ws_newline_indent. reflexivity.
  - rewrite Hv; [| reflexivity | norm_len_goal; lia | exact Hwv].
    cbn [expecting_value bind].
    change (skip_ws (c_comma :: ?x)) with (c_comma :: x). cbn iota.
    change (c_comma =? c_rbrace) with false.
    change (c_comma =? c_comma) with true. cbn iota.
    rewrite skip_ws_newline_indent.
    change (skip_ws (c_quote :: ?x)) with (c_quote :: x). cbn iota.
    change (c_quote =? c_quote) with true. cbn iota.
    rewrite IH; [reflexivity | exact Hw | discriminate |]. lia.
Qed.

Lemma scans_back_within_all (o : json) :
  wf_json o = true -> scans_back_within o.
Proof.
  induction o as [|b|z|f|s|l IH|d IH] using json_ind;
    intros Hwf level rest fuel depth Hd Hfuel Hw;
    (destruct fuel as [|fuel]; [lia|]).
  - reflexivity.
  - destruct b; reflexivity.
  - apply scan_once_unicode_int; [exact Hd|].
    destruct Hw as [_ Hw]. cbn [ints_within] in Hw.
    apply negb_true_iff in Hw. exact Hw.
  - apply scan_once_unicode_float; exact Hd.
  - apply scan_once_unicode_string; exact Hwf.
  - destruct depth as [|depth]; [destruct (within_zero_list _ Hw)|].
    destruct l as [|v l]; [reflexivity|].
    apply within_list_inv in Hw.
    assert (Hall : Forall scans_back_within (v :: l)).
    { cbn [wf_json] in Hwf. rewrite forallb_forall in Hwf.
      rewrite Forall_forall in IH |- *. intros x Hx. auto. }
    rewrite iterencode_list in Hfuel |- *.
    set (J := join_chunks _ _) in *.
    cbn [app] in Hfuel |- *. rewrite <- ?List.app_assoc in Hfuel |- *.
    cbn [app] in Hfuel |- *. unfold_limited.
    change (c_lbracket =? c_quote) with false.
    change (c_lbracket =? c_lbrace) with false.
    change (c_lbracket =? c_lbracket) with true. cbn iota.
    assert (Hs : starts_value (J ++ newline_indent level ++ c_rbracket :: rest)
                 = true).
    { apply join_chunks_starts_value; [discriminate|].
      apply Forall_forall. intros c Hc t'.
      apply in_map_iff in Hc as (x & <- & _). apply iterencode_starts_value. }
    rewrite skip_ws_newline_indent, (starts_value_skip_ws _ Hs).
    pose proof (parse_array_chunks depth (v :: l) Hall Hw ltac:(discriminate)
                  level rest fuel) as Ha.
    fold J in Ha.
    destruct (J ++ newline_indent level ++ c_rbracket :: rest)
      as [|c s2] eqn:E; [discriminate Hs|].
    cbn [starts_value] in Hs.
    destruct (c =? c_rbracket);
      [rewrite !andb_false_r in Hs; cbn in Hs;
       rewrite ?andb_false_r in Hs; discriminate|].
    rewrite Ha; [reflexivity|].
    cbn [List.length] in Hfuel. rewrite length_app in Hfuel.
    rewrite length_newline_indent in Hfuel. lia.
  - destruct depth as [|depth]; [destruct (within_zero_dict _ Hw)|].
    destruct d as [|kv d]; [reflexivity|].
    apply within_dict_inv in Hw.
    cbn [wf_json] in Hwf. apply andb_true_iff in Hwf as [Hkeys Hwf].
    assert (Hall : Forall (fun kv => wf_str (fst kv) = true
                                     /\ scans_back_within (snd kv))
                          (kv :: d)).
    { rewrite forallb_forall in Hwf.
      rewrite Forall_forall in IH |- *. intros [k x] Hx.
      specialize (Hwf _ Hx). specialize (IH _ Hx). cbn in Hwf, IH |- *.
      apply andb_true_iff in Hwf as [Hk Hx']. auto. }
    rewrite iterencode_dict in Hfuel |- *.
    cbn [app] in Hfuel |- *. rewrite <- ?List.app_assoc in Hfuel |- *.
    cbn [app] in Hfuel |- *.
    rewrite dict_chunks_text in Hfuel |- * by discriminate.
    unfold_limited.
    change (c_lbrace =? c_quote) with false.
    change (c_lbrace =? c_lbrace) with true. cbn iota.
    rewrite skip_ws_newline_indent.
    change (skip_ws (c_quote :: ?x)) with (c_quote :: x). cbn iota.
    change (c_quote =? c_rbrace) with false.
    change (c_quote =? c_quote) with true. cbn iota.
    rewrite (parse_object_pairs_text depth (kv :: d) Hall Hw
               ltac:(discriminate)).
    + cbn [bind]. rewrite (dict_of_pairs_distinct _ Hkeys). reflexivity.
    + cbn [List.length] in Hfuel. rewrite length_app in Hfuel.
      rewrite length_newline_indent in Hfuel. cbn [List.length] in Hfuel. lia.
Qed.

(** The server reads back what [dumps] wrote for a value within its
    limits, with or without a final newline. *)
Lemma json_loads_dumps (o : json) (final_newline : bool) :
  wf_json o = true -> within decoder_depth o ->
  json_loads (dumps o ++ (if final_newline then [c_lf] else [])) = Ok o.
Proof.
  intros Hwf Hw. unfold json_loads, dumps.
  set (tail := if final_newline then [c_lf] else []).
  assert (Hd : delimited tail = true) by (destruct final_newline; reflexivity).
  assert (Ht : skip_ws tail = []) by (destruct final_newline; reflexivity).
  pose proof (iterencode_starts_value o 0 tail) as Hs.
  assert (Hb : starts_with_bom (_iterencode o 0 ++ tail) = false).
  { destruct (_iterencode o 0 ++ tail) as [|c s]; [reflexivity|].
    cbn [starts_value] in Hs. cbn [starts_with_bom].
    destruct (c =? 0xfeff); [|reflexivity].
    rewrite andb_false_r in Hs. discriminate. }
  rewrite Hb, (starts_value_skip_ws _ Hs).
  rewrite (scans_back_within_all o Hwf 0%nat tail _ decoder_depth Hd)
    by (lia || exact Hw).
  cbn [expecting_value bind]. rewrite Ht. reflexivity.
Qed.

End RoundtripLimits.

(** ** The characters of a body *)

Lemma printable_text_app (a b : text) :
  printable_text (a ++ b) = printable_text a && printable_text b.
Proof. apply forallb_app. Qed.

Lemma printable_text_cons (c : N) (t : text) :
  printable_text (c :: t) = printable c && printable_text t.
Proof. reflexivity. Qed.

Lemma printable_range (c : N) : 32 <= c <= 126 -> printable c = true.
Proof.
  intros [H1 H2]. unfold printable. apply orb_true_iff. right.
  apply andb_true_iff. split; apply N.leb_le; assumption.
Qed.

Lemma printable_bounds (c : N) :
  printable c = true -> c < 128 /\ c <> c_cr.
Proof.
  unfold printable. rewrite orb_true_iff, andb_true_iff, N.eqb_eq.
  rewrite !N.leb_le. lia.
Qed.

Lemma printable_text_ascii (t : text) :
  printable_text t = true -> ascii_text t = true.
Proof.
  induction t as [|c t IH]; [reflexivity|].
  rewrite printable_text_cons, ascii_text_cons, !andb_true_iff.
  intros [Hc Ht]. split; [|auto].
  apply N.ltb_lt. apply (printable_bounds c Hc).
Qed.

Lemma universal_newlines_printable (t : text) :
  printable_text t = true -> universal_newlines t = t.
Proof.
  induction t as [|c t IH]; [reflexivity|].
  rewrite printable_text_cons, andb_true_iff. intros [Hc Ht].
  cbn [universal_newlines].
  destruct (N.eqb_spec c c_cr) as [E|_].
  - destruct (printable_bounds c Hc) as [_ H]. contradiction.
  - rewrite (IH Ht). reflexivity.
Qed.

Lemma hexdigit_printable (d : N) : d < 16 -> printable (hexdigit d) = true.
Proof.
  intros H. apply printable_range. unfold hexdigit.
  destruct (d <? 10); lia.
Qed.

Lemma u_escape_printable (n : N) : printable_text (u_escape n) = true.
Proof.
  unfold u_escape, hex4, printable_text. cbn [forallb].
  rewrite !andb_true_iff. repeat split; try reflexivity;
    apply hexdigit_printable, N.mod_lt; discriminate.
Qed.

Lemma escape_char_printable (c : N) : printable_text (escape_char c) = true.
Proof.
  unfold escape_char.
  repeat match goal with
  | |- context [if ?a =? ?b then _ else _] => destruct (a =? b); [reflexivity|]
  end.
  destruct ((c_space <=? c) && (c <=? 126)) eqn:Hp.
  - unfold printable_text. cbn [forallb]. rewrite andb_true_r.
    unfold printable. rewrite Hp. apply orb_true_r.
  - destruct (c <? 0x10000); [apply u_escape_printable|].
    cbv zeta. rewrite printable_text_app, !u_escape_printable. reflexivity.
Qed.

Lemma encode_basestring_printable (s : text) :
  printable_text (encode_basestring_ascii s) = true.
Proof.
  unfold encode_basestring_ascii.
  rewrite printable_text_cons, printable_text_app. cbn [andb].
  change (printable c_quote) with true. cbn [andb].
  rewrite andb_true_r.
  induction s as [|c s IH]; [reflexivity|].
  cbn [flat_map]. rewrite printable_text_app, escape_char_printable, IH. reflexivity.
Qed.

Lemma digits_printable (ds : text) :
  forallb is_digit ds = true -> printable_text ds = true.
Proof.
  induction ds as [|c ds IH]; [reflexivity|]. cbn [forallb].
  rewrite andb_true_iff. intros [Hc Hd].
  rewrite printable_text_cons, (IH Hd), andb_true_r.
  unfold is_digit in Hc. apply andb_true_iff in Hc as [Hc1 Hc2].
  apply N.leb_le in Hc1, Hc2. apply printable_range. lia.
Qed.

Lemma int_repr_printable (z : Z) : printable_text (int_repr z) = true.
Proof.
  unfold int_repr. destruct (Z.to_int z) as [d|d];
    [|rewrite printable_text_cons; change (printable c_minus) with true; cbn [andb]];
    apply digits_printable, uint_chars_digits.
Qed.

Lemma span_digits_printable (s ds r : text) :
  span_digits s = (ds, r) -> printable_text ds = true.
Proof.
  intros H. apply span_digits_spec in H as (_ & H & _).
  apply digits_printable. exact H.
Qed.

Lemma match_number_printable (s i fr ex r : text) :
  match_number s = Some (i, fr, ex, r) ->
  printable_text i = true /\ printable_text fr = true /\ printable_text ex = true.
Proof.
  unfold match_number.
  destruct (match_integer s) as [[i' r1]|] eqn:E1; [|discriminate].
  destruct (match_frac r1) as [fr' r2] eqn:E2.
  destruct (match_exp r2) as [ex' r3] eqn:E3.
  intros H; injection H as <- <- <- <-. split; [|split].
  - unfold match_integer in E1.
    assert (Hgen : forall sign s1,
      printable_text sign = true ->
      match s1 with
      | c :: r0 =>
        if c =? c_0 then Some (sign ++ [c], r0)
        else if is_digit c then
          let (ds, r') := span_digits r0 in Some (sign ++ c :: ds, r')
        else None
      | [] => None
      end = Some (i', r1) -> printable_text i' = true).
    { intros sign [|c r0] Hs; [discriminate|].
      destruct (N.eqb_spec c c_0) as [->|_].
      - intros E; injection E as <- <-. rewrite printable_text_app, Hs.
        reflexivity.
      - destruct (is_digit c) eqn:Hc; [|discriminate].
        destruct (span_digits r0) as [ds r'] eqn:E.
        intros E'; injection E' as <- <-.
        rewrite printable_text_app, Hs. cbn [andb].
        change (c :: ds) with ([c] ++ ds). rewrite printable_text_app.
        rewrite (span_digits_printable _ _ _ E), andb_true_r.
        apply digits_printable. cbn [forallb]. rewrite Hc. reflexivity. }
    destruct s as [|c s']; [discriminate|].
    destruct (N.eqb_spec c c_minus) as [->|_].
    + apply (Hgen [c_minus] s' eq_refl E1).
    + apply (Hgen [] (c :: s') eq_refl E1).
  - unfold match_frac in E2.
    destruct r1 as [|c s']; [injection E2 as <- <-; reflexivity|].
    destruct (N.eqb_spec c c_dot) as [->|_];
      [|injection E2 as <- <-; reflexivity].
    destruct (span_digits s') as [ds r'] eqn:E.
    destruct ds as [|d ds]; injection E2 as <- <-; [reflexivity|].
    rewrite printable_text_cons, (span_digits_printable _ _ _ E). reflexivity.
  - unfold match_exp in E3.
    destruct r2 as [|c s']; [injection E3 as <- <-; reflexivity|].
    destruct ((c =? c_e) || (c =? c_E)) eqn:Hc;
      [|injection E3 as <- <-; reflexivity].
    assert (Hc' : printable c = true).
    { apply orb_true_iff in Hc as [Hc|Hc]; apply N.eqb_eq in Hc; subst;
        reflexivity. }
    destruct s' as [|g s''].
    + cbn in E3. injection E3 as <- <-; reflexivity.
    + destruct ((g =? c_minus) || (g =? c_plus)) eqn:Hg.
      * destruct (span_digits s'') as [ds r'] eqn:E.
        destruct ds as [|d ds]; injection E3 as <- <-; [reflexivity|].
        rewrite printable_text_cons, Hc'. cbn [andb app].
        rewrite printable_text_cons, (span_digits_printable _ _ _ E), andb_true_r.
        apply orb_true_iff in Hg as [Hg|Hg]; apply N.eqb_eq in Hg; subst;
          reflexivity.
      * destruct (span_digits (g :: s'')) as [ds r'] eqn:E.
        destruct ds as [|d ds]; injection E3 as <- <-; [reflexivity|].
        rewrite printable_text_cons, Hc'. cbn [andb app].
        apply (span_digits_printable _ _ _ E).
Qed.

Lemma float_lexeme_printable (l : text) :
  float_lexeme l = true -> printable_text l = true.
Proof.
  unfold float_lexeme. rewrite !orb_true_iff.
  intros [[[H|H]|H]|H]; try (apply text_eqb_eq in H; subst; reflexivity).
  destruct (match_number l) as [[[[i fr] ex] [|? ?]]|] eqn:E;
    try discriminate.
  destruct (match_number_printable _ _ _ _ _ E) as (H1 & H2 & H3).
  apply match_number_spec in E as [-> _].
  rewrite !printable_text_app, H1, H2, H3. reflexivity.
Qed.

Section BodyFacts.
Context {PF : PyFloat} {Laws : PyFloatLaws PF}.

Lemma newline_indent_printable (level : nat) :
  printable_text (newline_indent level) = true.
Proof.
  unfold newline_indent. rewrite printable_text_cons. cbn [andb].
  change (printable c_lf) with true. cbn [andb].
  induction (2 * level)%nat; [reflexivity|]. cbn [repeat].
  rewrite printable_text_cons. assumption.
Qed.

Lemma join_chunks_printable (sep : text) (chunks : list text) :
  printable_text sep = true -> Forall (fun c => printable_text c = true) chunks ->
  printable_text (join_chunks sep chunks) = true.
Proof.
  intros Hs H. induction H as [|c chunks Hc _ IH]; [reflexivity|].
  destruct chunks as [|c' chunks]; [exact Hc|].
  rewrite join_chunks_cons2, !printable_text_app, Hc, Hs, IH. reflexivity.
Qed.

Lemma iterencode_printable (o : json) (level : nat) :
  printable_text (_iterencode o level) = true.
Proof.
  revert level.
  induction o as [|b|z|f|s|l IH|d IH] using json_ind; intros level.
  - reflexivity.
  - destruct b; reflexivity.
  - apply int_repr_printable.
  - apply float_lexeme_printable, float_repr_lexeme.
  - apply encode_basestring_printable.
  - destruct l as [|v l]; [reflexivity|].
    rewrite iterencode_list, printable_text_cons, !printable_text_app.
    rewrite !newline_indent_printable. cbn [andb].
    change (printable c_lbracket) with true.
    change (printable_text [c_rbracket]) with true. rewrite andb_true_r.
    cbn [andb]. apply join_chunks_printable.
    + rewrite printable_text_cons, newline_indent_printable. reflexivity.
    + rewrite Forall_forall in IH |- *. intros c Hc.
      apply in_map_iff in Hc as (x & <- & Hx). apply IH; auto.
  - destruct d as [|kv d]; [reflexivity|].
    rewrite iterencode_dict, printable_text_cons, !printable_text_app.
    rewrite !newline_indent_printable. cbn [andb].
    change (printable c_lbrace) with true.
    change (printable_text [c_rbrace]) with true. rewrite andb_true_r.
    cbn [andb]. apply join_chunks_printable.
    + rewrite printable_text_cons, newline_indent_printable. reflexivity.
    + rewrite Forall_forall in IH |- *. intros c Hc.
      apply in_map_iff in Hc as ([k x] & <- & Hx).
      rewrite !printable_text_app, encode_basestring_printable.
      change (printable_text (str ": ")) with true. cbn [andb].
      apply (IH _ Hx).
Qed.

Lemma dumps_printable (o : json) : printable_text (dumps o) = true.
Proof. apply iterencode_printable. Qed.

Lemma encode_dumps (o : json) :
  encode_utf8 (dumps o) = Ok (map byte_of_N (dumps o)).
Proof. apply encode_utf8_ascii, printable_text_ascii, dumps_printable. Qed.

End BodyFacts.

(** ** Files that hold what [json.dumps] writes *)

Section CanonicalFiles.
Context {PF : PyFloat} {PL : PyLib} {Laws : PyFloatLaws PF}.

Lemma loads_dumps_newline (o : json) (final_newline : bool) :
  wf_json o = true ->
  loads (dumps o ++ (if final_newline then [c_lf] else [])) = Ok o.
Proof.
  intros Hwf. destruct final_newline;
    [|rewrite List.app_nil_r; apply loads_dumps; exact Hwf].
  unfold loads, dumps.
  pose proof (iterencode_starts_value o 0 [c_lf]) as Hs.
  assert (Hb : starts_with_bom (_iterencode o 0 ++ [c_lf]) = false).
  { destruct (_iterencode o 0 ++ [c_lf]) as [|c s]; [reflexivity|].
    cbn [starts_value] in Hs. cbn [starts_with_bom].
    destruct (c =? 0xfeff); [|reflexivity].
    rewrite andb_false_r in Hs. discriminate. }
  rewrite Hb, (starts_value_skip_ws _ Hs).
  rewrite (scans_back_all o Hwf 0%nat [c_lf] _ eq_refl) by lia.
  reflexivity.
Qed.

Lemma read_text_of_body (o : json) (final_newline : bool) :
  read_text (map byte_of_N (dumps o)
               ++ (if final_newline then [x0a] else []))
  = Ok (dumps o ++ (if final_newline then [c_lf] else [])).
Proof.
  unfold read_text.
  set (nl := if final_newline then [c_lf] else []).
  assert (Hp : printable_text (dumps o ++ nl) = true).
  { rewrite printable_text_app, dumps_printable. subst nl.
    destruct final_newline; reflexivity. }
  assert (Hb : map Byte.to_N (map byte_of_N (dumps o)
                                ++ (if final_newline then [x0a] else []))
               = dumps o ++ nl).
  { rewrite map_app, map_to_N_byte_of_N
      by apply printable_text_ascii, dumps_printable.
    subst nl. destruct final_newline; reflexivity. }
  rewrite Hb, utf8_decode_ascii by apply printable_text_ascii, Hp.
  cbn [bind]. rewrite universal_newlines_printable by exact Hp.
  reflexivity.
Qed.

(** [json.load] of a file that holds what [dumps] wrote for a value
    within the limits, with or without a final line feed, gives the
    value. *)
Lemma file_json_of_body (o : json) (final_newline : bool) :
  wf_json o = true -> within decoder_depth o ->
  file_json (map byte_of_N (dumps o)
               ++ (if final_newline then [x0a] else []))
  = Ok o.
Proof.
  intros Hwf Hw. unfold file_json. rewrite read_text_of_body. cbn [bind].
  apply json_loads_dumps; assumption.
Qed.

(** What [json.load] returns for such a file is the value, whatever the
    limits are. *)
Lemma file_json_body_value (o payload : json) (final_newline : bool) :
  wf_json o = true ->
  file_json (map byte_of_N (dumps o)
               ++ (if final_newline then [x0a] else []))
  = Ok payload ->
  payload = o.
Proof.
  intros Hwf H. unfold file_json in H. rewrite read_text_of_body in H.
  cbn [bind] in H. apply json_loads_Ok in H as [H _].
  rewrite (loads_dumps_newline o final_newline Hwf) in H. congruence.
Qed.

(** What [json.load] returns is well formed. *)
Lemma file_json_wf (content : bytes) (payload : json) :
  file_json content = Ok payload -> wf_json payload = true.
Proof.
  intros H. unfold file_json in H. apply bind_Ok in H as (txt & Hread & H).
  apply json_loads_Ok in H as [H _].
  apply (loads_wf txt payload); [|exact H].
  apply (read_text_scalar content), Hread.
Qed.

End CanonicalFiles.

(** ** The handler *)

Section BackendFacts.
Context {PF : PyFloat} {PL : PyLib}.
Variable script : list text.

Lemma urlsplit_raises (t : text) (e : exn) :
  urlsplit t = Raise e -> e = ValueError.
Proof.
  unfold urlsplit.
  destruct (split_scheme _) as [scheme url].
  intros H. apply bind_Raise in H as [H|([netloc rest] & _ & H)].
  - repeat match type of H with
    | context [match ?x with _ => _ end] => destruct x
    end; congruence.
  - cbn beta iota in H.
    repeat match type of H with
    | context [match ?x with _ => _ end] => destruct x
    end; congruence.
Qed.

Lemma urlparse_raises (t : text) (e : exn) :
  urlparse t = Raise e -> e = ValueError.
Proof.
  unfold urlparse. intros H.
  apply bind_Raise in H as [H|(x & _ & H)].
  - apply (urlsplit_raises _ _ H).
  - destruct x as [[[[scheme netloc] url] query] fragment].
    cbn beta iota in H.
    destruct (existsb _ _ && _); [destruct (_splitparams url)|];
      discriminate.
Qed.

Lemma encode_utf8_raises (t : text) (e : exn) :
  encode_utf8 t = Raise e -> e = UnicodeEncodeError.
Proof.
  induction t as [|c t IH]; [discriminate|]. cbn [encode_utf8].
  intros H. apply bind_Raise in H as [H|(bs & _ & H)].
  - unfold utf8_encode_char in H.
    repeat match type of H with
    | context [if ?x then _ else _] => destruct x
    end; congruence.
  - apply bind_Raise in H as [H|(rest & _ & H)]; [auto|discriminate].
Qed.

Lemma send_json_new_handler (target : text) (status : Z) (payload : json) :
  _send_json (new_handler target) status payload
  = serialized <- json_dumps payload ;;
    body <- encode_utf8 serialized ;;
    Ok (json_response target status body).
Proof.
  unfold _send_json. destruct (json_dumps payload) as [serialized|e];
    [|reflexivity].
  cbn [bind]. destruct (encode_utf8 serialized); reflexivity.
Qed.

Lemma send_json_ascii (target : text) (status : Z) (payload : json) :
  floats_ascii payload = true ->
  within encoder_depth payload ->
  exists body,
    encode_utf8 (dumps payload) = Ok body
    /\ utf8_decode (map Byte.to_N body) = Ok (dumps payload)
    /\ _send_json (new_handler target) status payload
       = Ok (json_response target status body).
Proof.
  intros H Hw. destruct (body_of_dumps payload H) as (body & He & _ & Hd).
  exists body.
  rewrite send_json_new_handler, (json_dumps_within _ Hw). cbn [bind].
  rewrite He. auto.
Qed.

(** The payloads of the handler's own responses have one level and no
    integer *)
Lemma within_flat (depth : nat) (d : list (text * json)) :
  forallb (fun kv => match snd kv with JString _ => true | _ => false end) d
  = true ->
  within (S depth) (JDict d).
Proof.
  intros H. apply within_dict_items. rewrite forallb_forall in H.
  apply Forall_forall. intros [k v] Hkv. specialize (H _ Hkv).
  cbn [snd] in H |- *. destruct v; try discriminate.
  apply within_scalar; reflexivity.
Qed.

(** What a client observes of a response of [_send_json] *)
Lemma outcome_send_json (target : text) (status : Z) (payload : json) :
  outcome (self <- _send_json (new_handler target) status payload ;;
           Ok (Json self))
  = (serialized <- json_dumps payload ;;
     body <- encode_utf8 serialized ;;
     Ok (Some (Some status, json_headers body, body))).
Proof.
  rewrite send_json_new_handler.
  destruct (json_dumps payload) as [serialized|e]; [|reflexivity].
  cbn [bind]. destruct (encode_utf8 serialized); reflexivity.
Qed.

Lemma is_static_send_json (self : handler) (status : Z) (payload : json) :
  is_static (self' <- _send_json self status payload ;; Ok (Json self'))
  = false.
Proof. destruct (_send_json self status payload); reflexivity. Qed.

Lemma within_health_payload : within encoder_depth health_payload.
Proof. apply (within_flat encoder_nested). reflexivity. Qed.

Lemma within_missing_payload : within encoder_depth (missing_payload script).
Proof. apply (within_flat encoder_nested). reflexivity. Qed.

Lemma SAMPLE_GRAPH_PATH_parts :
  SAMPLE_GRAPH_PATH script
  = {| root := Root;
       parts := removelast (removelast script)
                ++ [str "data"; str "sample-graph.json"] |}.
Proof.
  unfold SAMPLE_GRAPH_PATH, ROOT_DIR, joinpath.
  change (parse_path (str "data"))
    with {| root := Relative; parts := [str "data"] |}.
  change (parse_path (str "sample-graph.json"))
    with {| root := Relative; parts := [str "sample-graph.json"] |}.
  cbn [root parts parent]. rewrite <- List.app_assoc. reflexivity.
Qed.

Lemma os_path_sample (s : process) :
  os_path s (SAMPLE_GRAPH_PATH script) = SAMPLE_GRAPH_PATH script.
Proof. rewrite SAMPLE_GRAPH_PATH_parts. reflexivity. Qed.

Lemma utf8_decode_raises (bs : list N) (e : exn) :
  utf8_decode bs = Raise e -> e = UnicodeDecodeError.
Proof.
  remember (List.length bs) as n eqn:En. revert bs En.
  induction n as [n IH] using lt_wf_ind. intros bs En.
  assert (Hrec : forall bs' c,
             (List.length bs' < n)%nat ->
             cons_decoded c (utf8_decode bs') = Raise e ->
             e = UnicodeDecodeError).
  { intros bs' c Hlen H. unfold cons_decoded in H.
    apply bind_Raise in H as [H|(x & _ & H)]; [|discriminate].
    apply (IH _ Hlen bs' eq_refl H). }
  subst n. destruct bs as [|b0 r0]; cbn [utf8_decode]; [discriminate|].
  repeat match goal with
  | |- Raise _ = Raise _ -> _ => intros H; injection H as <-; reflexivity
  | |- cons_decoded _ (utf8_decode _) = _ -> _ =>
    apply Hrec; cbn [List.length]; lia
  | |- context [match ?x with _ => _ end] => destruct x
  end.
Qed.

Lemma file_json_raises (content : bytes) (e : exn) :
  file_json content = Raise e ->
  e = UnicodeDecodeError \/ e = JSONDecodeError
  \/ e = RecursionError \/ e = ValueError.
Proof.
  unfold file_json, read_text. intros H.
  apply bind_Raise in H as [H|(txt & _ & H)].
  - apply bind_Raise in H as [H|(x & _ & H)]; [|discriminate].
    left. apply (utf8_decode_raises _ _ H).
  - right. apply json_loads_raises in H. tauto.
Qed.

(** What [json.load] returns for a file, [loads] returns for its text,
    and it is within the limits of the scanner. *)
Lemma file_json_Ok (content : bytes) (payload : json) :
  file_json content = Ok payload ->
  exists txt, read_text content = Ok txt /\ loads txt = Ok payload
              /\ within decoder_depth payload.
Proof.
  unfold file_json. intros H. apply bind_Ok in H as (txt & Ht & H).
  apply json_loads_Ok in H as [H Hw]. exists txt. auto.
Qed.

(** The three branches of [do_GET] *)

Lemma do_GET_health (target : text) (s : process) (parsed : ParseResult) :
  urlparse target = Ok parsed ->
  url_path parsed = str "/api/health" ->
  do_GET script (new_handler target) s
  = (self <- _send_json (new_handler target) HTTPStatus_OK health_payload ;;
     Ok (Json self), s).
Proof.
  intros Hu Hp. unfold do_GET. cbn [path new_handler]. rewrite Hu, Hp.
  reflexivity.
Qed.

Lemma do_GET_sample_graph (target : text) (s : process) (parsed : ParseResult) :
  urlparse target = Ok parsed ->
  url_path parsed = str "/api/sample-graph" ->
  do_GET script (new_handler target) s
  = match fs s (SAMPLE_GRAPH_PATH script) with
    | Absent =>
      (self <- _send_json (new_handler target) HTTPStatus_NOT_FOUND
                          (missing_payload script) ;;
       Ok (Json self), s)
    | Directory =>
      (Raise IsADirectoryError,
       log_open (SAMPLE_GRAPH_PATH script) (str "r") s)
    | RegularFile content =>
      (payload <- file_json content ;;
       self <- _send_json (new_handler target) HTTPStatus_OK payload ;;
       Ok (Json self),
       log_open (SAMPLE_GRAPH_PATH script) (str "r") s)
    end.
Proof.
  intros Hu Hp. unfold do_GET. cbn [path new_handler]. rewrite Hu, Hp.
  change (text_eqb (str "/api/sample-graph") (str "/api/health")) with false.
  rewrite text_eqb_refl. cbn iota.
  unfold path_exists, open_read. rewrite os_path_sample.
  destruct (fs s (SAMPLE_GRAPH_PATH script)) as [| |content];
    try reflexivity.
  cbn [negb]. cbn iota. unfold file_json.
  destruct (read_text content); reflexivity.
Qed.

Lemma do_GET_static (target : text) (s : process) (parsed : ParseResult) :
  urlparse target = Ok parsed ->
  url_path parsed <> str "/api/health" ->
  url_path parsed <> str "/api/sample-graph" ->
  do_GET script (new_handler target) s = (Ok (Static (new_handler target)), s).
Proof.
  intros Hu H1 H2. unfold do_GET. cbn [path new_handler]. rewrite Hu.
  apply text_eqb_neq in H1, H2. rewrite H1, H2. reflexivity.
Qed.

End BackendFacts.

(** ** The request loop and [main] *)

Section ServerFacts.
Context {PF : PyFloat} {PL : PyLib}.
Variable script : list text.

Lemma same_surroundings_refl (s : process) : same_surroundings script s s.
Proof.
  repeat split. exists []. split; [symmetry; apply List.app_nil_r|constructor].
Qed.

Lemma same_surroundings_trans (s1 s2 s3 : process) :
  same_surroundings script s1 s2 -> same_surroundings script s2 s3 ->
  same_surroundings script s1 s3.
Proof.
  intros (F1 & C1 & E1 & L1 & l1 & O1 & S1) (F2 & C2 & E2 & L2 & l2 & O2 & S2).
  repeat split; try congruence.
  exists (l1 ++ l2). split.
  - rewrite O2, O1, List.app_assoc. reflexivity.
  - apply Forall_app. split; assumption.
Qed.

Lemma same_surroundings_log_open (s : process) :
  same_surroundings script s (log_open (SAMPLE_GRAPH_PATH script) (str "r") s).
Proof.
  repeat split. exists [(SAMPLE_GRAPH_PATH script, str "r")].
  split; [reflexivity|]. constructor; [reflexivity|constructor].
Qed.

Lemma do_GET_surroundings (self : handler) (s : process) :
  same_surroundings script s (snd (do_GET script self s)).
Proof.
  unfold do_GET.
  destruct (urlparse (path self)) as [parsed|e];
    [|apply same_surroundings_refl].
  destruct (text_eqb (url_path parsed) (str "/api/health"));
    [apply same_surroundings_refl|].
  destruct (text_eqb (url_path parsed) (str "/api/sample-graph"));
    [|apply same_surroundings_refl].
  destruct (negb (path_exists (SAMPLE_GRAPH_PATH script) s));
    [apply same_surroundings_refl|].
  unfold open_read.
  destruct (fs s (os_path s (SAMPLE_GRAPH_PATH script)));
    apply same_surroundings_log_open.
Qed.

Lemma only_reads_refl (s : process) : only_reads s s.
Proof.
  repeat split. exists []. split; [symmetry; apply List.app_nil_r|constructor].
Qed.

Lemma only_reads_trans (s1 s2 s3 : process) :
  only_reads s1 s2 -> only_reads s2 s3 -> only_reads s1 s3.
Proof.
  intros (F1 & C1 & E1 & L1 & l1 & O1 & S1) (F2 & C2 & E2 & L2 & l2 & O2 & S2).
  repeat split; try congruence.
  exists (l1 ++ l2). split.
  - rewrite O2, O1, List.app_assoc. reflexivity.
  - apply Forall_app. split; assumption.
Qed.

Lemma same_surroundings_only_reads (s s' : process) :
  same_surroundings script s s' -> only_reads s s'.
Proof.
  intros (F & C & E & L & l & O & S). repeat split; try assumption.
  exists l. split; [exact O|].
  eapply Forall_impl; [|exact S]. intros pm ->. left. reflexivity.
Qed.

Lemma log_reads_spec (files : list (Path * bool)) (s : process) :
  log_reads files s
  = {| fs := fs s; cwd := cwd s; environ := environ s; stdout := stdout s;
       stderr := stderr s; opened := opened s ++ static_opened files;
       listening := listening s; replies := replies s |}.
Proof.
  unfold log_reads. revert s.
  induction files as [|pb files IH]; intros s; cbn [fold_left static_opened map].
  - rewrite List.app_nil_r. destruct s; reflexivity.
  - rewrite IH. cbn [log_open fs cwd environ stdout stderr opened listening
                      replies].
    rewrite <- List.app_assoc. reflexivity.
Qed.

Lemma static_opened_read_mode (files : list (Path * bool)) :
  Forall read_mode (static_opened files).
Proof.
  apply Forall_forall. intros pm H. apply in_map_iff in H as ([p b] & <- & _).
  unfold read_mode. cbn [fst snd]. destruct b; auto.
Qed.

Lemma only_reads_log_reads (files : list (Path * bool)) (s : process) :
  only_reads s (log_reads files s).
Proof.
  rewrite log_reads_spec. repeat split.
  exists (static_opened files). split; [reflexivity|].
  apply static_opened_read_mode.
Qed.

Lemma only_reads_print_stderr (line : text) (s : process) :
  only_reads s (print_stderr line s).
Proof.
  repeat split. exists []. split; [symmetry; apply List.app_nil_r|constructor].
Qed.

Lemma only_reads_add_reply (r : reply) (s : process) :
  only_reads s (add_reply r s).
Proof.
  repeat split. exists []. split; [symmetry; apply List.app_nil_r|constructor].
Qed.

Lemma handle_only_reads (self : handler) (s : process) :
  only_reads s (snd (handle script self s)).
Proof.
  unfold handle.
  pose proof (same_surroundings_only_reads _ _ (do_GET_surroundings self s))
    as H.
  destruct (do_GET script self s) as [[[self'|self']|e] s'];
    cbn [snd] in H |- *; try assumption.
  - destruct (SimpleHTTPRequestHandler_do_GET self' (fs s') (cwd s'))
      as [[self''|] files]; cbn [snd];
      (eapply only_reads_trans; [exact H|]).
    + apply only_reads_log_reads.
    + eapply only_reads_trans;
        [apply only_reads_log_reads|apply only_reads_print_stderr].
  - destruct (is_Exception e); cbn [snd]; [|assumption].
    eapply only_reads_trans; [exact H|apply only_reads_print_stderr].
Qed.

(** The handler raises no exception that would end the loop *)
Lemma send_json_raises (self : handler) (status : Z) (payload : json)
  (e : exn) :
  _send_json self status payload = Raise e ->
  e = RecursionError \/ e = ValueError \/ e = UnicodeEncodeError
  \/ e = BrokenPipeError.
Proof.
  unfold _send_json. intros H.
  apply bind_Raise in H as [H|(serialized & _ & H)].
  { apply json_dumps_raises in H. tauto. }
  apply bind_Raise in H as [H|(body & _ & H)].
  { apply encode_utf8_raises in H. tauto. }
  unfold end_headers, wfile_write in H.
  cbn [send_response send_header connected] in H.
  destruct (connected self); cbn [bind connected] in H;
    [discriminate|injection H as <-; tauto].
Qed.

Lemma do_GET_raises (self : handler) (s : process) (e : exn) :
  fst (do_GET script self s) = Raise e -> In e handler_errors.
Proof.
  assert (Hsend : forall status payload,
             (self' <- _send_json self status payload ;; Ok (Json self'))
             = Raise e -> In e handler_errors).
  { intros status payload H.
    apply bind_Raise in H as [H|(x & _ & H)]; [|discriminate].
    apply send_json_raises in H. unfold handler_errors. cbn [In].
    intuition auto 10. }
  unfold do_GET.
  destruct (urlparse (path self)) as [parsed|e'] eqn:Hu; cbn [fst].
  2:{ intros H; injection H as <-. apply urlparse_raises in Hu. subst e'.
      unfold handler_errors; cbn [In]; auto. }
  destruct (text_eqb (url_path parsed) (str "/api/health")); cbn [fst];
    [apply Hsend|].
  destruct (text_eqb (url_path parsed) (str "/api/sample-graph"));
    cbn [fst]; [|discriminate].
  unfold path_exists, open_read.
  destruct (fs s (os_path s (SAMPLE_GRAPH_PATH script))) as [| |content];
    cbn [negb fst bind].
  - apply Hsend.
  - intros H; injection H as <-. unfold handler_errors; cbn [In]; auto.
  - intros H.
    assert (Hf : (payload <- file_json content ;;
                  self' <- _send_json self HTTPStatus_OK payload ;;
                  Ok (Json self')) = Raise e).
    { unfold file_json. destruct (read_text content); exact H. }
    apply bind_Raise in Hf as [Hf|(payload & _ & Hf)].
    + apply file_json_raises in Hf. unfold handler_errors. cbn [In].
      intuition auto 10.
    + apply (Hsend _ _ Hf).
Qed.

Lemma handler_errors_are_exceptions (e : exn) :
  In e handler_errors -> is_Exception e = true.
Proof.
  unfold handler_errors. cbn [In]. intros H.
  repeat (destruct H as [<-|H]; [reflexivity|]). destruct H.
Qed.

Lemma handle_returns (self : handler) (s : process) :
  exists r, fst (handle script self s) = Ok r.
Proof.
  unfold handle.
  pose proof (do_GET_raises self s) as H.
  destruct (do_GET script self s) as [[[self'|self']|e] s']; cbn [fst] in H.
  - eexists; reflexivity.
  - destruct (SimpleHTTPRequestHandler_do_GET self' (fs s') (cwd s'))
      as [[self''|] files]; eexists; reflexivity.
  - rewrite (handler_errors_are_exceptions e (H e eq_refl)).
    eexists; reflexivity.
Qed.

Lemma serve_only_reads (events : list event) (s : process) :
  requests_only events = true ->
  only_reads s (snd (serve script events s)).
Proof.
  revert s. induction events as [|[target|f|target] events IH]; intros s Hr;
    cbn [serve]; [apply only_reads_refl| |discriminate|];
    cbn [requests_only forallb andb] in Hr; unfold handle_request.
  - pose proof (handle_only_reads (new_handler target) s) as H.
    destruct (handle script (new_handler target) s) as [[r|e] s'];
      cbn [snd] in H |- *; [|assumption].
    eapply only_reads_trans; [exact H|].
    eapply only_reads_trans; [apply only_reads_add_reply|apply IH, Hr].
  - pose proof (handle_only_reads (abandoned_handler target) s) as H.
    destruct (handle script (abandoned_handler target) s) as [[r|e] s'];
      cbn [snd] in H |- *; [|assumption].
    eapply only_reads_trans; [exact H|].
    eapply only_reads_trans; [apply only_reads_add_reply|apply IH, Hr].
Qed.

(** Whatever arrives, the loop opens files for reading only *)
Lemma serve_opened (events : list event) (s : process) :
  exists l, opened (snd (serve script events s)) = opened s ++ l
            /\ Forall read_mode l.
Proof.
  revert s. induction events as [|[target|f|target] events IH]; intros s;
    cbn [serve]; unfold handle_request.
  - exists []. split; [symmetry; apply List.app_nil_r|constructor].
  - destruct (handle_only_reads (new_handler target) s)
      as (_ & _ & _ & _ & l1 & O1 & S1).
    destruct (handle script (new_handler target) s) as [[r|e] s'];
      cbn [snd] in O1 |- *; [|exists l1; auto].
    destruct (IH (add_reply r s')) as (l2 & O2 & S2).
    exists (l1 ++ l2). split.
    + rewrite O2. cbn [add_reply opened]. rewrite O1, List.app_assoc.
      reflexivity.
    + apply Forall_app. split; assumption.
  - destruct (IH (set_fs f s)) as (l & O & S). exists l. auto.
  - destruct (handle_only_reads (abandoned_handler target) s)
      as (_ & _ & _ & _ & l1 & O1 & S1).
    destruct (handle script (abandoned_handler target) s) as [[r|e] s'];
      cbn [snd] in O1 |- *; [|exists l1; auto].
    destruct (IH (add_reply r s')) as (l2 & O2 & S2).
    exists (l1 ++ l2). split.
    + rewrite O2. cbn [add_reply opened]. rewrite O1, List.app_assoc.
      reflexivity.
    + apply Forall_app. split; assumption.
Qed.

Lemma main_unfold (w : world) (argv : list text) (s : process) :
  main script w argv s
  = match parse_args argv s with
    | Raise e => (Uncaught e, s)
    | Ok args =>
      if static_root_ok script args s then
        match bind_error w (args_host args) (args_port args) with
        | Some e => (Uncaught e, set_cwd (os_path s (static_root script args)) s)
        | None =>
          let (stopped, s') := serve script (incoming w) (serving script args s) in
          match match stopped with
                | Some e => Some e
                | None => serving_ends w
                end with
          | None => (ServesForever, s')
          | Some e =>
            (match e with
             | KeyboardInterrupt => Return 0
             | _ => Uncaught e
             end,
             set_listening None (print (str "Shutting down") s'))
          end
        end
      else
        (Return 1,
         print_stderr (str "Error: static root not found: "
                         ++ path_str (static_root script args)) s)
    end.
Proof.
  unfold main, static_root_ok, serving, static_root.
  destruct (parse_args argv s) as [args|e]; [|reflexivity].
  rewrite <- negb_andb.
  destruct (path_exists _ s && path_is_dir _ s); cbn [negb]; [|reflexivity].
  destruct (bind_error w _ _); [reflexivity|].
  destruct (serve script (incoming w) _) as [stopped s'].
  destruct stopped as [e|]; [|destruct (serving_ends w) as [e|]];
    try reflexivity; destruct e; reflexivity.
Qed.

Lemma main_opened (w : world) (argv : list text) (s : process) :
  exists l, opened (snd (main script w argv s)) = opened s ++ l
            /\ Forall read_mode l.
Proof.
  assert (Hnil : exists l, opened s = opened s ++ l /\ Forall read_mode l).
  { exists []. split; [symmetry; apply List.app_nil_r|constructor]. }
  rewrite main_unfold.
  destruct (parse_args argv s) as [args|e]; [|exact Hnil].
  destruct (static_root_ok script args s); [|exact Hnil].
  destruct (bind_error w _ _); [exact Hnil|].
  pose proof (serve_opened (incoming w) (serving script args s)) as H.
  destruct (serve script (incoming w) (serving script args s)) as [stopped s'].
  cbn [snd] in H.
  destruct stopped as [e|]; [|destruct (serving_ends w) as [e|]];
    cbn [snd]; exact H.
Qed.

Lemma main_fs (w : world) (argv : list text) (s : process) :
  requests_only (incoming w) = true ->
  fs (snd (main script w argv s)) = fs s.
Proof.
  intros Hr. rewrite main_unfold.
  destruct (parse_args argv s) as [args|e]; [|reflexivity].
  destruct (static_root_ok script args s); [|reflexivity].
  destruct (bind_error w _ _); [reflexivity|].
  destruct (serve_only_reads (incoming w) (serving script args s) Hr)
    as (H & _).
  destruct (serve script (incoming w) (serving script args s)) as [stopped s'].
  cbn [snd] in H.
  destruct stopped as [e|]; [|destruct (serving_ends w) as [e|]];
    cbn [snd]; exact H.
Qed.

End ServerFacts.

(** ** Responses to files that hold what [json.dumps] writes *)

Section CanonicalResponses.
Context {PF : PyFloat} {PL : PyLib} {Laws : PyFloatLaws PF}.
Variable script : list text.

Lemma send_json_body (target : text) (status : Z) (payload : json) :
  within encoder_depth payload ->
  _send_json (new_handler target) status payload
  = Ok (json_response target status (map byte_of_N (dumps payload))).
Proof.
  intros Hw. rewrite send_json_new_handler, (json_dumps_within _ Hw).
  cbn [bind]. rewrite encode_dumps. reflexivity.
Qed.

Lemma do_GET_canonical (target : text) (s : process) (parsed : ParseResult)
  (o : json) (final_newline : bool) :
  urlparse target = Ok parsed ->
  url_path parsed = str "/api/sample-graph" ->
  servable o ->
  fs s (SAMPLE_GRAPH_PATH script)
  = RegularFile (map byte_of_N (dumps o)
                   ++ (if final_newline then [x0a] else [])) ->
  do_GET script (new_handler target) s
  = (Ok (Json (json_response target 200 (map byte_of_N (dumps o)))),
     log_open (SAMPLE_GRAPH_PATH script) (str "r") s).
Proof.
  intros Hu Hp (Hwf & Hd & He) Hfs.
  rewrite (do_GET_sample_graph script target s parsed Hu Hp), Hfs.
  rewrite (file_json_of_body o final_newline Hwf Hd). cbn [bind].
  rewrite (send_json_body target HTTPStatus_OK o He). reflexivity.
Qed.

Lemma handle_request_canonical (target : text) (s : process)
  (parsed : ParseResult) (o : json) (final_newline : bool) :
  urlparse target = Ok parsed ->
  url_path parsed = str "/api/sample-graph" ->
  servable o ->
  fs s (SAMPLE_GRAPH_PATH script)
  = RegularFile (map byte_of_N (dumps o)
                   ++ (if final_newline then [x0a] else [])) ->
  handle_request script target s
  = (Ok (Response (json_response target 200 (map byte_of_N (dumps o)))),
     log_open (SAMPLE_GRAPH_PATH script) (str "r") s).
Proof.
  intros Hu Hp Ho Hfs. unfold handle_request, handle.
  rewrite (do_GET_canonical target s parsed o final_newline Hu Hp Ho Hfs).
  reflexivity.
Qed.

(** Different values have different bodies *)
Lemma body_of_dumps_injective (o1 o2 : json) :
  wf_json o1 = true -> wf_json o2 = true ->
  map byte_of_N (dumps o1) = map byte_of_N (dumps o2) -> o1 = o2.
Proof.
  intros H1 H2 E. apply (f_equal (map Byte.to_N)) in E.
  rewrite !map_to_N_byte_of_N in E
    by apply printable_text_ascii, dumps_printable.
  pose proof (loads_dumps o1 H1) as L1. rewrite E, (loads_dumps o2 H2) in L1.
  congruence.
Qed.

End CanonicalResponses.

Section RequestFacts.
Context {PF : PyFloat} {PL : PyLib}.
Variable script : list text.

(** A request that [do_GET] answers itself opens what [do_GET] opens *)
Lemma handle_api_state (self : handler) (s : process) :
  is_static (fst (do_GET script self s)) = false ->
  fs (snd (handle script self s)) = fs (snd (do_GET script self s))
  /\ cwd (snd (handle script self s)) = cwd (snd (do_GET script self s))
  /\ environ (snd (handle script self s))
     = environ (snd (do_GET script self s))
  /\ stdout (snd (handle script self s)) = stdout (snd (do_GET script self s))
  /\ opened (snd (handle script self s)) = opened (snd (do_GET script self s))
  /\ listening (snd (handle script self s))
     = listening (snd (do_GET script self s))
  /\ replies (snd (handle script self s))
     = replies (snd (do_GET script self s)).
Proof.
  unfold handle.
  destruct (do_GET script self s) as [[[self'|self']|e] s']; cbn [fst snd];
    [repeat split|discriminate|].
  intros _. destruct (is_Exception e); repeat split.
Qed.

Lemma do_GET_sample_opened (target : text) (s : process)
  (parsed : ParseResult) :
  urlparse target = Ok parsed ->
  url_path parsed = str "/api/sample-graph" ->
  is_static (fst (do_GET script (new_handler target) s)) = false
  /\ opened (snd (do_GET script (new_handler target) s))
     = opened s ++ match fs s (SAMPLE_GRAPH_PATH script) with
                   | Absent => []
                   | _ => [(SAMPLE_GRAPH_PATH script, str "r")]
                   end.
Proof.
  intros Hu Hp. rewrite (do_GET_sample_graph script target s parsed Hu Hp).
  destruct (fs s (SAMPLE_GRAPH_PATH script)) as [| |content]; cbn [fst snd].
  - split; [apply is_static_send_json|]. symmetry. apply List.app_nil_r.
  - split; reflexivity.
  - split; [|reflexivity].
    destruct (file_json content) as [payload|e]; [|reflexivity].
    cbn [bind]. apply is_static_send_json.
Qed.

Lemma handle_request_sample_opened (target : text) (s : process)
  (parsed : ParseResult) :
  urlparse target = Ok parsed ->
  url_path parsed = str "/api/sample-graph" ->
  opened (snd (handle_request script target s))
  = opened s ++ match fs s (SAMPLE_GRAPH_PATH script) with
                | Absent => []
                | _ => [(SAMPLE_GRAPH_PATH script, str "r")]
                end.
Proof.
  intros Hu Hp.
  destruct (do_GET_sample_opened target s parsed Hu Hp) as [Hs Ho].
  unfold handle_request.
  destruct (handle_api_state (new_handler target) s Hs)
    as (_ & _ & _ & _ & -> & _).
  exact Ho.
Qed.

End RequestFacts.

(** * The claims of the specification *)

Section Claims.
Context {PF : PyFloat} {PL : PyLib}.
Variable script : list text.

(** C1, amended: when the sample graph file exists but [json.load]
    rejects its content, the handler raises the exception of
    [json.load] before it has written a status line, a header or a
    body: [UnicodeDecodeError] (not UTF-8), [JSONDecodeError] (not
    JSON), [RecursionError] (nested beyond what the interpreter's
    recursion limit leaves to the scanner) or [ValueError] (an integer
    literal of more digits than [int] converts).  The server reports
    the exception on standard error and closes the connection: the
    client receives no HTTP response, hence no 500.  The failure stays
    with this request: the loop goes on with the next event. *)
Theorem invalid_sample_graph_closes_connection
  (target : text) (s : process) (parsed : ParseResult) (content : bytes)
  (e : exn) :
  urlparse target = Ok parsed ->
  url_path parsed = str "/api/sample-graph" ->
  fs s (SAMPLE_GRAPH_PATH script) = RegularFile content ->
  file_json content = Raise e ->
  (e = UnicodeDecodeError \/ e = JSONDecodeError
   \/ e = RecursionError \/ e = ValueError)
  /\ do_GET script (new_handler target) s
     = (Raise e, log_open (SAMPLE_GRAPH_PATH script) (str "r") s)
  /\ handle_request script target s
     = (Ok (ConnectionClosed e),
        print_stderr (str "Exception occurred during processing of request")
          (log_open (SAMPLE_GRAPH_PATH script) (str "r") s))
  /\ forall events,
       serve script (Request target :: events) s
       = serve script events
           (add_reply (ConnectionClosed e)
              (print_stderr
                 (str "Exception occurred during processing of request")
                 (log_open (SAMPLE_GRAPH_PATH script) (str "r") s))).
Proof.
  intros Hu Hp Hfs He.
  pose proof (file_json_raises content e He) as Hexn.
  assert (Hget : do_GET script (new_handler target) s
                 = (Raise e, log_open (SAMPLE_GRAPH_PATH script) (str "r") s)).
  { rewrite (do_GET_sample_graph script target s parsed Hu Hp), Hfs, He.
    reflexivity. }
  assert (Hreq : handle_request script target s
                 = (Ok (ConnectionClosed e),
                    print_stderr
                      (str "Exception occurred during processing of request")
                      (log_open (SAMPLE_GRAPH_PATH script) (str "r") s))).
  { unfold handle_request, handle. rewrite Hget.
    destruct Hexn as [-> | [-> | [-> | ->]]]; reflexivity. }
  split; [exact Hexn|]. split; [exact Hget|]. split; [exact Hreq|].
  intros events. cbn [serve]. rewrite Hreq. reflexivity.
Qed.



(** C4: a request whose path is [/api/health] is answered with status
    200 and the fixed object with [status] [ok], the service name and
    [message] [alive], whatever the state of the file system, the
    working directory or the sample graph. *)
Theorem health_is_always_ok
  (target : text) (s : process) (parsed : ParseResult) :
  urlparse target = Ok parsed ->
  url_path parsed = str "/api/health" ->
  exists body,
    do_GET script (new_handler target) s
    = (Ok (Json (json_response target 200 body)), s)
    /\ handle_request script target s
       = (Ok (Response (json_response target 200 body)), s)
    /\ response_json (json_response target 200 body)
       = Ok (JDict [ (str "status", JString (str "ok"));
                     (str "service",
                      JString (str "sn-itil-bsm-discovery-backend"));
                     (str "message", JString (str "alive")) ]).
Proof.
  intros Hu Hp.
  destruct (send_json_ascii target HTTPStatus_OK health_payload eq_refl
              within_health_payload)
    as (body & Henc & Hdec & Hsend).
  assert (Hget : do_GET script (new_handler target) s
                 = (Ok (Json (json_response target 200 body)), s)).
  { rewrite (do_GET_health script target s parsed Hu Hp), Hsend.
    reflexivity. }
  exists body. split; [exact Hget|split].
  - unfold handle_request, handle. rewrite Hget. reflexivity.
  - unfold response_json. cbn [wfile json_response]. rewrite Hdec.
    cbn [bind]. vm_compute. reflexivity.
Qed.

(** C5: every JSON response of the handler, from the health endpoint or
    from the sample graph endpoint, with status 200 or 404, carries the
    headers [Content-Type: application/json; charset=utf-8],
    [Cache-Control: no-cache], [Access-Control-Allow-Origin: *] and a
    [Content-Length] that is the decimal length of the body in bytes;
    the headers are ended and the body is all that is written. *)
Theorem json_responses_carry_headers
  (target : text) (s s' : process) (self : handler) :
  do_GET script (new_handler target) s = (Ok (Json self), s') ->
  headers_buffer self
  = [ (str "Content-Type", str "application/json; charset=utf-8");
      (str "Cache-Control", str "no-cache");
      (str "Access-Control-Allow-Origin", str "*");
      (str "Content-Length", int_repr (Z.of_nat (List.length (wfile self)))) ]
  /\ int_of_literal (int_repr (Z.of_nat (List.length (wfile self))))
     = Z.of_nat (List.length (wfile self))
  /\ headers_ended self = true
  /\ (status_line self = Some 200%Z \/ status_line self = Some 404%Z).
Proof.
  assert (Hsend : forall status payload r,
             (self0 <- _send_json (new_handler target) status payload ;;
              Ok (Json self0)) = Ok r ->
             exists body, r = Json (json_response target status body)).
  { intros status payload r H. rewrite send_json_new_handler in H.
    destruct (json_dumps payload) as [serialized|]; [|discriminate].
    cbn [bind] in H.
    destruct (encode_utf8 serialized) as [body|]; [|discriminate].
    exists body. cbn [bind] in H. congruence. }
  assert (Hresp : forall status body,
             (status = 200%Z \/ status = 404%Z) ->
             Json self = Json (json_response target status body) ->
             headers_buffer self = json_headers (wfile self)
             /\ int_of_literal
                  (int_repr (Z.of_nat (List.length (wfile self))))
                = Z.of_nat (List.length (wfile self))
             /\ headers_ended self = true
             /\ (status_line self = Some 200%Z
                 \/ status_line self = Some 404%Z)).
  { intros status body Hst H. injection H as ->. cbn [json_response
      headers_buffer wfile headers_ended status_line].
    repeat split; [apply int_of_literal_repr|].
    destruct Hst as [-> | ->]; auto. }
  intros H. unfold do_GET in H. cbn [path new_handler] in H.
  destruct (urlparse target) as [parsed|e]; [|discriminate].
  destruct (text_eqb (url_path parsed) (str "/api/health")).
  { apply (f_equal fst) in H. cbn [fst] in H.
    apply Hsend in H as (body & H).
    apply (Hresp 200%Z body); [auto|exact H]. }
  destruct (text_eqb (url_path parsed) (str "/api/sample-graph"));
    [|discriminate].
  destruct (negb (path_exists (SAMPLE_GRAPH_PATH script) s)).
  { apply (f_equal fst) in H. cbn [fst] in H.
    apply Hsend in H as (body & H).
    apply (Hresp 404%Z body); [auto|exact H]. }
  destruct (open_read (SAMPLE_GRAPH_PATH script) s) as [fp_read s1].
  apply (f_equal fst) in H. cbn [fst] in H.
  apply bind_Ok in H as (content & _ & H).
  apply bind_Ok in H as (payload & _ & H).
  apply Hsend in H as (body & H).
  apply (Hresp 200%Z body); [auto|exact H].
Qed.


(** C7, amended: the handler routes on the path component that
    [urlparse] extracts from the request target, and on nothing else:
    two targets with the same parsed path get the same answer.  For a
    target in origin form the parsed path is the target cut at the first
    [#], then at the first [?], then at the first [;] of its last
    segment; without [#] and [;] it is the target with its query string
    removed.  A parsed path equal to [/api/health] or
    [/api/sample-graph] is answered by the handler itself; any other
    parsed path is handed to the static file handler with the request
    and the process as they were. *)
Theorem routing_on_parsed_path
  (target : text) (s : process) (parsed : ParseResult) :
  urlparse target = Ok parsed ->
  (forall target' parsed',
     urlparse target' = Ok parsed' ->
     url_path parsed' = url_path parsed ->
     outcome (fst (do_GET script (new_handler target') s))
     = outcome (fst (do_GET script (new_handler target) s)))
  /\ (origin_form target = true -> url_path parsed = target_path target)
  /\ (origin_form target = true ->
      contains c_hash target = false -> contains c_semi target = false ->
      url_path parsed = strip_query target)
  /\ (url_path parsed = str "/api/health"
      \/ url_path parsed = str "/api/sample-graph" ->
      is_static (fst (do_GET script (new_handler target) s)) = false)
  /\ (url_path parsed <> str "/api/health" ->
      url_path parsed <> str "/api/sample-graph" ->
      do_GET script (new_handler target) s
      = (Ok (Static (new_handler target)), s)).
Proof.
  intros Hu. split; [|split; [|split; [|split]]].
  - intros target' parsed' Hu' Hp.
    destruct (text_eqb (url_path parsed) (str "/api/health")) eqn:E1.
    { apply text_eqb_eq in E1.
      rewrite (do_GET_health script target s parsed Hu E1).
      rewrite (do_GET_health script target' s parsed' Hu') by congruence.
      cbn [fst]. rewrite !outcome_send_json. reflexivity. }
    destruct (text_eqb (url_path parsed) (str "/api/sample-graph")) eqn:E2.
    { apply text_eqb_eq in E2.
      rewrite (do_GET_sample_graph script target s parsed Hu E2).
      rewrite (do_GET_sample_graph script target' s parsed' Hu')
        by congruence.
      destruct (fs s (SAMPLE_GRAPH_PATH script)) as [| |content];
        cbn [fst]; [|reflexivity|].
      - rewrite !outcome_send_json. reflexivity.
      - destruct (file_json content) as [payload|e]; [|reflexivity].
        cbn [bind]. rewrite !outcome_send_json. reflexivity. }
    apply text_eqb_neq in E1, E2.
    rewrite (do_GET_static script target s parsed Hu E1 E2).
    rewrite (do_GET_static script target' s parsed' Hu') by congruence.
    reflexivity.
  - intros Ho.
    destruct (urlparse_origin_form target Ho) as (p & Hp & Hpath & _).
    congruence.
  - intros Ho Hh Hs.
    destruct (urlparse_origin_form target Ho) as (p & Hp & Hpath & _).
    rewrite <- (target_path_plain target Hh Hs). congruence.
  - intros [Hp|Hp].
    + rewrite (do_GET_health script target s parsed Hu Hp). cbn [fst].
      apply is_static_send_json.
    + rewrite (do_GET_sample_graph script target s parsed Hu Hp).
      destruct (fs s (SAMPLE_GRAPH_PATH script)) as [| |content];
        cbn [fst]; [|reflexivity|].
      * apply is_static_send_json.
      * destruct (file_json content) as [payload|e]; [|reflexivity].
        cbn [bind]. apply is_static_send_json.
  - apply (do_GET_static script target s parsed Hu).
Qed.

(** C8: the sample graph is looked for at one absolute path, the file
    [data/sample-graph.json] under the grandparent directory of the
    script.  Neither the working directory nor the static root that
    [--root] names has a part in it: the handler answers the same in any
    process that has the same file system, in particular in the one
    [main] serves from after it has changed to the static root, and a
    request for the sample graph opens that path and no other, once,
    if something is there.  Every file a run of the program opens, for
    the sample graph or for static file serving, is opened for reading;
    the program itself leaves the file system as it found it. *)
Theorem sample_graph_path_is_fixed
  (w : world) (argv : list text) (s : process) :
  SAMPLE_GRAPH_PATH script
  = {| root := Root;
       parts := removelast (removelast script)
                ++ [str "data"; str "sample-graph.json"] |}
  /\ (forall d, os_path (set_cwd d s) (SAMPLE_GRAPH_PATH script)
                = SAMPLE_GRAPH_PATH script)
  /\ (forall s' self,
        fs s' = fs s ->
        outcome (fst (do_GET script self s'))
        = outcome (fst (do_GET script self s)))
  /\ (forall args self,
        outcome (fst (do_GET script self (serving script args s)))
        = outcome (fst (do_GET script self s)))
  /\ (forall args target parsed,
        urlparse target = Ok parsed ->
        url_path parsed = str "/api/sample-graph" ->
        opened (snd (handle_request script target (serving script args s)))
        = opened s ++ match fs s (SAMPLE_GRAPH_PATH script) with
                      | Absent => []
                      | _ => [(SAMPLE_GRAPH_PATH script, str "r")]
                      end)
  /\ (exists l,
        opened (snd (main script w argv s)) = opened s ++ l
        /\ Forall (fun pm => snd pm = str "r" \/ snd pm = str "rb") l)
  /\ (requests_only (incoming w) = true ->
      fs (snd (main script w argv s)) = fs s).
Proof.
  split; [apply SAMPLE_GRAPH_PATH_parts|].
  split; [intros d; apply os_path_sample|].
  assert (Hfs : forall s' self,
             fs s' = fs s ->
             outcome (fst (do_GET script self s'))
             = outcome (fst (do_GET script self s))).
  { intros s' self Hfs. unfold do_GET.
    destruct (urlparse (path self)) as [parsed|e]; [|reflexivity].
    destruct (text_eqb (url_path parsed) (str "/api/health"));
      [reflexivity|].
    destruct (text_eqb (url_path parsed) (str "/api/sample-graph"));
      [|reflexivity].
    unfold path_exists, open_read. rewrite !os_path_sample, Hfs.
    destruct (fs s (SAMPLE_GRAPH_PATH script)); reflexivity. }
  split; [exact Hfs|].
  split; [intros args self; apply Hfs; reflexivity|].
  split.
  { intros args target parsed Hu Hp.
    apply (handle_request_sample_opened script target (serving script args s)
             parsed Hu Hp). }
  split; [apply main_opened|apply main_fs].
Qed.


(** C10: the default of [--port] is computed before the arguments are
    looked at.  When [PORT] is set to something [int] does not accept,
    [parse_args] raises [ValueError] whatever the arguments are, also
    when they give [--port]; the exception escapes [main], which has
    printed nothing and bound no socket, and the process ends with
    status 1.  When [PORT] is not set the default is 3000, and when it
    is set to an integer that integer is the default. *)
Theorem port_default_is_read_eagerly
  (w : world) (argv : list text) (s : process) :
  (forall v,
     environ s (str "PORT") = Some v -> int_of_str v = None ->
     parse_args argv s = Raise ValueError
     /\ main script w argv s = (Uncaught ValueError, s)
     /\ exit_status (fst (main script w argv s)) = Some 1%Z)
  /\ (environ s (str "PORT") = None ->
      exists root,
        parse_args argv s
        = ArgumentParser_parse_args
            {| args_host := str "127.0.0.1"; args_port := 3000;
               args_root := root |} argv)
  /\ (forall v n,
        environ s (str "PORT") = Some v -> int_of_str v = Some n ->
        exists root,
          parse_args argv s
          = ArgumentParser_parse_args
              {| args_host := str "127.0.0.1"; args_port := n;
                 args_root := root |} argv).
Proof.
  split; [|split].
  - intros v Hv Hint.
    assert (Hp : parse_args argv s = Raise ValueError).
    { unfold parse_args. rewrite Hv, Hint. reflexivity. }
    split; [exact Hp|].
    assert (Hm : main script w argv s = (Uncaught ValueError, s)).
    { unfold main. rewrite Hp. reflexivity. }
    split; [exact Hm|]. rewrite Hm. reflexivity.
  - intros Hv. unfold parse_args. rewrite Hv. cbn [bind].
    eexists. reflexivity.
  - intros v n Hv Hint. unfold parse_args. rewrite Hv, Hint. cbn [bind].
    eexists. reflexivity.
Qed.

End Claims.

(** * Further properties of the program *)

(** ** The exceptions of a request *)

Section HandlerErrors.
Context {PF : PyFloat} {PL : PyLib}.
Variable script : list text.

(** What handling a request does to the process *)
Lemma do_GET_state (self : handler) (s : process) :
  snd (do_GET script self s) = s
  \/ (snd (do_GET script self s)
      = log_open (SAMPLE_GRAPH_PATH script) (str "r") s
      /\ fs s (SAMPLE_GRAPH_PATH script) <> Absent
      /\ exists parsed, urlparse (path self) = Ok parsed
                        /\ url_path parsed = str "/api/sample-graph").
Proof.
  unfold do_GET.
  destruct (urlparse (path self)) as [parsed|e]; [|left; reflexivity].
  destruct (text_eqb (url_path parsed) (str "/api/health"));
    [left; reflexivity|].
  destruct (text_eqb (url_path parsed) (str "/api/sample-graph")) eqn:E;
    [|left; reflexivity].
  apply text_eqb_eq in E.
  unfold path_exists, open_read. rewrite os_path_sample.
  destruct (fs s (SAMPLE_GRAPH_PATH script)) as [| |content];
    cbn [negb snd]; [left; reflexivity| |];
    right; (split; [reflexivity|]); (split; [discriminate|]); eauto.
Qed.

Lemma handle_frame (self : handler) (s : process) :
  cwd (snd (handle script self s)) = cwd s
  /\ environ (snd (handle script self s)) = environ s
  /\ stdout (snd (handle script self s)) = stdout s
  /\ listening (snd (handle script self s)) = listening s
  /\ replies (snd (handle script self s)) = replies s.
Proof.
  unfold handle.
  pose proof (do_GET_state self s) as H.
  destruct (do_GET script self s) as [[[x|x]|e] s']; cbn [snd] in H |- *.
  - destruct H as [->|(-> & _)]; repeat split.
  - destruct (SimpleHTTPRequestHandler_do_GET x (fs s') (cwd s'))
      as [[self'|] files]; cbn [snd]; rewrite log_reads_spec;
      destruct H as [->|(-> & _)]; repeat split.
  - destruct (is_Exception e); cbn [snd];
      destruct H as [->|(-> & _)]; repeat split.
Qed.

Lemma serve_frame (events : list event) (s : process) :
  cwd (snd (serve script events s)) = cwd s
  /\ environ (snd (serve script events s)) = environ s
  /\ stdout (snd (serve script events s)) = stdout s
  /\ listening (snd (serve script events s)) = listening s.
Proof.
  revert s. induction events as [|[target|f|target] events IH]; intros s;
    cbn [serve]; unfold handle_request.
  - repeat split.
  - destruct (handle_frame (new_handler target) s) as (H1 & H2 & H3 & H4 & _).
    destruct (handle script (new_handler target) s) as [[r|e] s'];
      cbn [snd] in *; [|auto].
    destruct (IH (add_reply r s')) as (I1 & I2 & I3 & I4).
    cbn [add_reply cwd environ stdout listening] in *.
    repeat split; congruence.
  - destruct (IH (set_fs f s)) as (I1 & I2 & I3 & I4). auto.
  - destruct (handle_frame (abandoned_handler target) s)
      as (H1 & H2 & H3 & H4 & _).
    destruct (handle script (abandoned_handler target) s) as [[r|e] s'];
      cbn [snd] in *; [|auto].
    destruct (IH (add_reply r s')) as (I1 & I2 & I3 & I4).
    cbn [add_reply cwd environ stdout listening] in *.
    repeat split; congruence.
Qed.

Lemma serve_completes (events : list event) (s : process) :
  fst (serve script events s) = None.
Proof.
  revert s. induction events as [|[target|f|target] events IH]; intros s;
    cbn [serve]; unfold handle_request; [reflexivity| |apply IH|].
  - destruct (handle_returns script (new_handler target) s) as (r & Hr).
    destruct (handle script (new_handler target) s) as [r' s'].
    cbn [fst] in Hr. subst r'. apply IH.
  - destruct (handle_returns script (abandoned_handler target) s) as (r & Hr).
    destruct (handle script (abandoned_handler target) s) as [r' s'].
    cbn [fst] in Hr. subst r'. apply IH.
Qed.


(** X7: handling a request only reads.  It leaves the file system, the
    working directory, the environment, standard output, the listening
    socket and the recorded replies as they were, and every file it
    opens is opened for reading.  The code of the server itself opens
    one file only: the sample graph, once, when the parsed path is
    [/api/sample-graph] and something exists at that path; a request
    for [/api/health] opens nothing.  For every other path the request
    goes to the static file handler of the library, and the files
    opened are those that handler reads. *)
Theorem handler_only_reads_the_sample_graph (self : handler) (s : process) :
  fs (snd (handle script self s)) = fs s
  /\ cwd (snd (handle script self s)) = cwd s
  /\ environ (snd (handle script self s)) = environ s
  /\ stdout (snd (handle script self s)) = stdout s
  /\ listening (snd (handle script self s)) = listening s
  /\ replies (snd (handle script self s)) = replies s
  /\ (exists l,
        opened (snd (handle script self s)) = opened s ++ l
        /\ Forall (fun pm => snd pm = str "r" \/ snd pm = str "rb") l)
  /\ (forall e, urlparse (path self) = Raise e ->
                opened (snd (handle script self s)) = opened s)
  /\ (forall parsed,
        urlparse (path self) = Ok parsed ->
        (url_path parsed = str "/api/health" ->
         opened (snd (handle script self s)) = opened s)
        /\ (url_path parsed = str "/api/sample-graph" ->
            opened (snd (handle script self s))
            = opened s ++ match fs s (SAMPLE_GRAPH_PATH script) with
                          | Absent => []
                          | _ => [(SAMPLE_GRAPH_PATH script, str "r")]
                          end)
        /\ (url_path parsed <> str "/api/health" ->
            url_path parsed <> str "/api/sample-graph" ->
            opened (snd (handle script self s))
            = opened s
                ++ static_opened
                     (snd (SimpleHTTPRequestHandler_do_GET
                             self (fs s) (cwd s))))).
Proof.
  destruct (handle_only_reads script self s) as (Hfs & _ & _ & _ & Hop).
  destruct (handle_frame self s) as (Hcwd & Henv & Hout & Hl & Hr).
  repeat (split; [assumption|]). split.
  - intros e Hu. unfold handle, do_GET. rewrite Hu.
    destruct (is_Exception e); reflexivity.
  - intros parsed Hu. split; [|split].
    + intros Hp. unfold handle, do_GET. rewrite Hu, Hp.
      change (text_eqb (str "/api/health") (str "/api/health")) with true.
      cbn iota.
      destruct (_send_json self HTTPStatus_OK health_payload) as [x|e];
        cbn [bind]; [reflexivity|].
      destruct (is_Exception e); reflexivity.
    + intros Hp. unfold handle, do_GET. rewrite Hu, Hp.
      change (text_eqb (str "/api/sample-graph") (str "/api/health"))
        with false.
      rewrite text_eqb_refl. cbn iota.
      unfold path_exists, open_read. rewrite os_path_sample.
      destruct (fs s (SAMPLE_GRAPH_PATH script)) as [| |content];
        cbn [negb].
      * rewrite List.app_nil_r.
        destruct (_send_json self HTTPStatus_NOT_FOUND
                    (missing_payload script)) as [x|e];
          cbn [bind]; [reflexivity|].
        destruct (is_Exception e); reflexivity.
      * reflexivity.
      * destruct (read_text content) as [txt|e]; cbn [bind];
          [|destruct (is_Exception e); reflexivity].
        destruct (json_loads txt) as [payload|e]; cbn [bind];
          [|destruct (is_Exception e); reflexivity].
        destruct (_send_json self HTTPStatus_OK payload) as [x|e];
          cbn [bind]; [reflexivity|].
        destruct (is_Exception e); reflexivity.
    + intros H1 H2. unfold handle, do_GET. rewrite Hu.
      apply text_eqb_neq in H1, H2. rewrite H1, H2.
      destruct (SimpleHTTPRequestHandler_do_GET self (fs s) (cwd s))
        as [[self'|] files]; cbn [snd]; rewrite log_reads_spec; reflexivity.
Qed.

(** X8: a directory in the place of the sample graph.  When the sample
    graph path names a directory, [exists()] holds, the handler opens
    the path and [open] raises [IsADirectoryError] before anything is
    sent: the connection is closed without a response and the loop goes
    on. *)
Theorem sample_graph_directory_closes_connection
  (target : text) (s : process) (parsed : ParseResult) :
  urlparse target = Ok parsed ->
  url_path parsed = str "/api/sample-graph" ->
  fs s (SAMPLE_GRAPH_PATH script) = Directory ->
  do_GET script (new_handler target) s
  = (Raise IsADirectoryError,
     log_open (SAMPLE_GRAPH_PATH script) (str "r") s)
  /\ fst (handle_request script target s)
     = Ok (ConnectionClosed IsADirectoryError)
  /\ forall events,
       fst (serve script (Request target :: events) s) = None
       /\ exists s',
            replies s' = replies s ++ [ConnectionClosed IsADirectoryError]
            /\ snd (serve script (Request target :: events) s)
               = snd (serve script events s').
Proof.
  intros Hu Hp Hfs.
  assert (Hget : do_GET script (new_handler target) s
                 = (Raise IsADirectoryError,
                    log_open (SAMPLE_GRAPH_PATH script) (str "r") s)).
  { rewrite (do_GET_sample_graph script target s parsed Hu Hp), Hfs.
    reflexivity. }
  split; [exact Hget|].
  assert (Hreq : handle_request script target s
                 = (Ok (ConnectionClosed IsADirectoryError),
                    print_stderr
                      (str "Exception occurred during processing of request")
                      (log_open (SAMPLE_GRAPH_PATH script) (str "r") s))).
  { unfold handle_request, handle. rewrite Hget. reflexivity. }
  split; [rewrite Hreq; reflexivity|].
  intros events. split; [apply serve_completes|].
  cbn [serve]. rewrite Hreq. eexists. split; [|reflexivity]. reflexivity.
Qed.

End HandlerErrors.
(** ** The characters of a body *)

Section BodyCharacters.
Context {PF : PyFloat} {PL : PyLib} {Laws : PyFloatLaws PF}.


End BodyCharacters.

(** ** Serving what was served *)

Section Idempotence.
Context {PF : PyFloat} {PL : PyLib} {Laws : PyFloatLaws PF}.
Variable script : list text.


End Idempotence.

(** ** Runs of [main] *)

Section Runs.
Context {PF : PyFloat} {PL : PyLib}.
Variable script : list text.

Lemma static_root_absolute (args : Namespace) :
  root (static_root script args) <> Relative.
Proof.
  unfold static_root, joinpath.
  destruct (root (parse_path (args_root args))) eqn:E; cbn [root];
    try rewrite E; discriminate.
Qed.

Lemma os_path_absolute (s : process) (p : Path) :
  root p <> Relative -> os_path s p = p.
Proof. unfold os_path. destruct (root p); congruence. Qed.

Lemma static_root_ok_cwd (args : Namespace) (d : Path) (s : process) :
  static_root_ok script args (set_cwd d s) = static_root_ok script args s.
Proof.
  unfold static_root_ok, path_exists, path_is_dir.
  rewrite !os_path_absolute by apply static_root_absolute. reflexivity.
Qed.

Lemma serving_cwd (args : Namespace) (d : Path) (s : process) :
  serving script args (set_cwd d s) = serving script args s.
Proof.
  unfold serving.
  rewrite !os_path_absolute by apply static_root_absolute. reflexivity.
Qed.



End Runs.

(** ** Query strings *)

Lemma partition_at_app (sep : N) (t r : text) :
  contains sep t = false ->
  partition_at sep (t ++ r)
  = (t ++ fst (partition_at sep r), snd (partition_at sep r)).
Proof.
  induction t as [|c t IH]; cbn [app].
  - intros _. destruct (partition_at sep r); reflexivity.
  - unfold contains in *. cbn [existsb partition_at].
    rewrite orb_false_iff. intros [Hc Ht].
    rewrite N.eqb_sym, Hc, (IH Ht). reflexivity.
Qed.

Lemma target_path_query (t q : text) :
  contains c_question t = false -> contains c_hash t = false ->
  target_path (t ++ c_question :: q) = target_path t.
Proof.
  intros Hq Hh. unfold target_path, cut.
  rewrite (partition_at_app c_hash t (c_question :: q) Hh).
  rewrite (partition_at_absent c_hash t Hh).
  cbn [partition_at].
  change (c_question =? c_hash) with false. cbn iota.
  destruct (partition_at c_hash q) as [q1 [fragment|]]; cbn [fst snd];
    rewrite (partition_at_app c_question t (c_question :: q1) Hq);
    rewrite (partition_at_absent c_question t Hq);
    cbn [partition_at]; change (c_question =? c_question) with true;
    cbn [fst snd]; rewrite List.app_nil_r; reflexivity.
Qed.

Section Queries.
Context {PF : PyFloat} {PL : PyLib}.
Variable script : list text.

Lemma outcome_by_path
  (target target' : text) (parsed parsed' : ParseResult) (s : process) :
  urlparse target = Ok parsed -> urlparse target' = Ok parsed' ->
  url_path parsed' = url_path parsed ->
  outcome (fst (do_GET script (new_handler target') s))
  = outcome (fst (do_GET script (new_handler target) s)).
Proof.
  intros Hu Hu' Hp.
  destruct (text_eqb (url_path parsed) (str "/api/health")) eqn:E1.
  { apply text_eqb_eq in E1.
    rewrite (do_GET_health script target s parsed Hu E1).
    rewrite (do_GET_health script target' s parsed' Hu') by congruence.
    cbn [fst]. rewrite !outcome_send_json. reflexivity. }
  destruct (text_eqb (url_path parsed) (str "/api/sample-graph")) eqn:E2.
  { apply text_eqb_eq in E2.
    rewrite (do_GET_sample_graph script target s parsed Hu E2).
    rewrite (do_GET_sample_graph script target' s parsed' Hu') by congruence.
    destruct (fs s (SAMPLE_GRAPH_PATH script)) as [| |content];
      cbn [fst]; [|reflexivity|].
    - rewrite !outcome_send_json. reflexivity.
    - destruct (file_json content) as [payload|e]; [|reflexivity].
      cbn [bind]. rewrite !outcome_send_json. reflexivity. }
  apply text_eqb_neq in E1, E2.
  rewrite (do_GET_static script target s parsed Hu E1 E2).
  rewrite (do_GET_static script target' s parsed' Hu') by congruence.
  reflexivity.
Qed.

(** X6: a query string changes nothing.  For a target in origin form
    without [?] and [#], the same target followed by [?] and any query
    gets the same answer: the same status, headers and body, the same
    exception, or the same hand-over to the static file handler. *)
Theorem query_string_changes_nothing (t q : text) (s : process) :
  origin_form t = true ->
  origin_form (t ++ c_question :: q) = true ->
  contains c_question t = false ->
  contains c_hash t = false ->
  outcome (fst (do_GET script (new_handler (t ++ c_question :: q)) s))
  = outcome (fst (do_GET script (new_handler t) s)).
Proof.
  intros Ho Ho' Hq Hh.
  destruct (urlparse_origin_form t Ho) as (p & Hu & Hp & _).
  destruct (urlparse_origin_form _ Ho') as (p' & Hu' & Hp' & _).
  apply (outcome_by_path t _ p p' s Hu Hu').
  rewrite Hp, Hp'. apply target_path_query; assumption.
Qed.

End Queries.

(** ** Files that are not UTF-8 text without a byte order mark *)

Lemma never_utf8_range (b : N) :
  b < 0xc0 \/ 0xc2 <= b <= 0xf4 -> never_utf8 b = false.
Proof.
  intros H. unfold never_utf8. rewrite !orb_false_iff.
  repeat split; [apply N.eqb_neq|apply N.eqb_neq|apply N.leb_gt]; lia.
Qed.

Lemma is_continuation_range (b : N) :
  is_continuation b = true -> b < 0xc0.
Proof.
  unfold is_continuation. rewrite andb_true_iff, !N.leb_le. lia.
Qed.

Lemma utf8_decode_never_utf8 (bs : list N) :
  existsb never_utf8 bs = true -> utf8_decode bs = Raise UnicodeDecodeError.
Proof.
  remember (List.length bs) as n eqn:En. revert bs En.
  induction n as [n IH] using lt_wf_ind. intros bs En Hex.
  assert (Hrec : forall r c,
             (List.length r < n)%nat -> existsb never_utf8 r = true ->
             cons_decoded c (utf8_decode r) = Raise UnicodeDecodeError).
  { intros r c Hlen Hr. rewrite (IH _ Hlen r eq_refl Hr). reflexivity. }
  assert (Hcont : forall b r,
             is_continuation b = true ->
             existsb never_utf8 (b :: r) = true ->
             existsb never_utf8 r = true).
  { intros b r Hb H. cbn [existsb] in H.
    rewrite never_utf8_range in H; [exact H|].
    left. apply is_continuation_range, Hb. }
  subst n. destruct bs as [|b0 r0]; [discriminate|]. cbn [utf8_decode].
  destruct (b0 <? 0x80) eqn:E0.
  { apply Hrec; [cbn [List.length]; lia|].
    cbn [existsb] in Hex. rewrite never_utf8_range in Hex; [exact Hex|].
    apply N.ltb_lt in E0. lia. }
  destruct ((0xc2 <=? b0) && (b0 <=? 0xdf)) eqn:E2.
  { apply andb_true_iff in E2 as [L U]. apply N.leb_le in L, U.
    cbn [existsb] in Hex. rewrite never_utf8_range in Hex by lia.
    destruct r0 as [|b1 r1]; [reflexivity|].
    destruct (is_continuation b1) eqn:C1; [|reflexivity].
    apply Hrec; [cbn [List.length]; lia|]. eauto. }
  destruct ((0xe0 <=? b0) && (b0 <=? 0xef)) eqn:E3.
  { apply andb_true_iff in E3 as [L U]. apply N.leb_le in L, U.
    cbn [existsb] in Hex. rewrite never_utf8_range in Hex by lia.
    destruct r0 as [|b1 [|b2 r2]]; try reflexivity.
    destruct (is_continuation b1) eqn:C1; [|reflexivity].
    destruct (is_continuation b2) eqn:C2; [|reflexivity].
    cbn [andb].
    destruct ((negb (b0 =? 0xe0) || (0xa0 <=? b1))
              && (negb (b0 =? 0xed) || (b1 <=? 0x9f))); [|reflexivity].
    apply Hrec; [cbn [List.length]; lia|]. eauto. }
  destruct ((0xf0 <=? b0) && (b0 <=? 0xf4)) eqn:E4; [|reflexivity].
  apply andb_true_iff in E4 as [L U]. apply N.leb_le in L, U.
  cbn [existsb] in Hex. rewrite never_utf8_range in Hex by lia.
  destruct r0 as [|b1 [|b2 [|b3 r3]]]; try reflexivity.
  destruct (is_continuation b1) eqn:C1; [|reflexivity].
  destruct (is_continuation b2) eqn:C2; [|reflexivity].
  destruct (is_continuation b3) eqn:C3; [|reflexivity].
  cbn [andb].
  destruct ((negb (b0 =? 0xf0) || (0x90 <=? b1))
            && (negb (b0 =? 0xf4) || (b1 <=? 0x8f))); [|reflexivity].
  apply Hrec; [cbn [List.length]; lia|]. eauto.
Qed.

Lemma skip_ws_blank (t : text) : forallb is_ws t = true -> skip_ws t = [].
Proof.
  induction t as [|c t IH]; [reflexivity|]. cbn [forallb skip_ws].
  rewrite andb_true_iff. intros [Hc Ht]. rewrite Hc. auto.
Qed.

Lemma is_ws_ascii (c : N) : is_ws c = true -> (c <? 128) = true.
Proof.
  unfold is_ws. rewrite !orb_true_iff, !N.eqb_eq.
  intros [[[->| ->]| ->]| ->]; reflexivity.
Qed.

Lemma blank_ascii (t : text) : forallb is_ws t = true -> ascii_text t = true.
Proof.
  induction t as [|c t IH]; [reflexivity|]. cbn [forallb].
  rewrite ascii_text_cons, !andb_true_iff. intros [Hc Ht].
  split; [apply is_ws_ascii, Hc|auto].
Qed.

Lemma universal_newlines_cons (c : N) (r : text) :
  universal_newlines (c :: r)
  = if c =? c_cr then
      match r with
      | d :: r' =>
        if d =? c_lf then c_lf :: universal_newlines r'
        else c_lf :: universal_newlines r
      | [] => [c_lf]
      end
    else c :: universal_newlines r.
Proof. reflexivity. Qed.

Lemma universal_newlines_blank (t : text) :
  forallb is_ws t = true -> forallb is_ws (universal_newlines t) = true.
Proof.
  remember (List.length t) as n eqn:En. revert t En.
  induction n as [n IH] using lt_wf_ind. intros t -> H.
  destruct t as [|c r]; [reflexivity|].
  cbn [forallb] in H. apply andb_true_iff in H as [Hc H].
  assert (Hr : forallb is_ws (universal_newlines r) = true).
  { apply (IH (List.length r)); [cbn [List.length]; lia|reflexivity|].
    exact H. }
  rewrite universal_newlines_cons. destruct (c =? c_cr).
  - destruct r as [|d r']; [reflexivity|].
    destruct (d =? c_lf); cbn [forallb]; change (is_ws c_lf) with true;
      cbn [andb]; [|exact Hr].
    cbn [forallb] in H. apply andb_true_iff in H as [_ H].
    apply (IH (List.length r')); [cbn [List.length]; lia|reflexivity|].
    exact H.
  - cbn [forallb]. rewrite Hc. exact Hr.
Qed.

Section Files.
Context {PF : PyFloat} {PL : PyLib}.
Variable script : list text.

Lemma closed_connection
  (target : text) (s : process) (parsed : ParseResult) (content : bytes)
  (e : exn) :
  urlparse target = Ok parsed ->
  url_path parsed = str "/api/sample-graph" ->
  fs s (SAMPLE_GRAPH_PATH script) = RegularFile content ->
  file_json content = Raise e ->
  fst (handle_request script target s) = Ok (ConnectionClosed e).
Proof.
  intros Hu Hp Hfs He. unfold handle_request, handle.
  rewrite (do_GET_sample_graph script target s parsed Hu Hp), Hfs, He.
  cbn [bind].
  destruct (file_json_raises content e He) as [-> | [-> | [-> | ->]]];
    reflexivity.
Qed.

(** X9: a byte order mark is not accepted.  A sample graph file that
    begins with the UTF-8 byte order mark [EF BB BF] is never served,
    whatever follows the mark: the file is read as [utf-8], not
    [utf-8-sig], and [json.load] refuses a text that begins with
    [U+FEFF].  The handler raises [JSONDecodeError] when the rest is
    valid UTF-8 and [UnicodeDecodeError] when it is not, and the
    connection is closed without a response. *)
Theorem byte_order_mark_is_rejected
  (target : text) (s : process) (parsed : ParseResult) (rest : bytes) :
  urlparse target = Ok parsed ->
  url_path parsed = str "/api/sample-graph" ->
  fs s (SAMPLE_GRAPH_PATH script) = RegularFile (xef :: xbb :: xbf :: rest) ->
  file_json (xef :: xbb :: xbf :: rest)
  = match utf8_decode (map Byte.to_N rest) with
    | Ok _ => Raise JSONDecodeError
    | Raise _ => Raise UnicodeDecodeError
    end
  /\ exists e,
       fst (handle_request script target s) = Ok (ConnectionClosed e)
       /\ (e = JSONDecodeError \/ e = UnicodeDecodeError).
Proof.
  intros Hu Hp Hfs.
  assert (Hj : file_json (xef :: xbb :: xbf :: rest)
               = match utf8_decode (map Byte.to_N rest) with
                 | Ok _ => Raise JSONDecodeError
                 | Raise _ => Raise UnicodeDecodeError
                 end).
  { unfold file_json, read_text. cbn [map].
    change (Byte.to_N xef) with 0xef. change (Byte.to_N xbb) with 0xbb.
    change (Byte.to_N xbf) with 0xbf.
    change (utf8_decode (0xef :: 0xbb :: 0xbf :: map Byte.to_N rest))
      with (cons_decoded 0xfeff (utf8_decode (map Byte.to_N rest))).
    destruct (utf8_decode (map Byte.to_N rest)) as [chars|e] eqn:E.
    - reflexivity.
    - apply utf8_decode_raises in E as ->. reflexivity. }
  split; [exact Hj|].
  destruct (utf8_decode (map Byte.to_N rest)); eexists;
    (split; [apply (closed_connection target s parsed _ _ Hu Hp Hfs Hj)|]);
    auto.
Qed.

(** X10: a file with a byte that UTF-8 never uses is not served.  When
    the sample graph file holds one of the bytes [C0], [C1] or [F5] to
    [FF] anywhere (as every UTF-16 file with a byte order mark does),
    reading it raises [UnicodeDecodeError] and the connection is closed
    without a response. *)
Theorem bytes_outside_utf8_are_rejected
  (target : text) (s : process) (parsed : ParseResult) (content : bytes) :
  urlparse target = Ok parsed ->
  url_path parsed = str "/api/sample-graph" ->
  fs s (SAMPLE_GRAPH_PATH script) = RegularFile content ->
  existsb never_utf8 (map Byte.to_N content) = true ->
  file_json content = Raise UnicodeDecodeError
  /\ fst (handle_request script target s)
     = Ok (ConnectionClosed UnicodeDecodeError).
Proof.
  intros Hu Hp Hfs Hex.
  assert (Hj : file_json content = Raise UnicodeDecodeError).
  { unfold file_json, read_text.
    rewrite (utf8_decode_never_utf8 _ Hex). reflexivity. }
  split; [exact Hj|].
  apply (closed_connection target s parsed content _ Hu Hp Hfs Hj).
Qed.

Lemma json_loads_blank (t : text) :
  forallb is_ws t = true -> json_loads t = Raise JSONDecodeError.
Proof.
  intros H. unfold json_loads.
  assert (Hb : starts_with_bom t = false).
  { destruct t as [|c t]; [reflexivity|]. cbn [forallb] in H.
    apply andb_true_iff in H as [Hc _]. apply is_ws_ascii in Hc.
    cbn [starts_with_bom]. apply N.eqb_neq. apply N.ltb_lt in Hc. lia. }
  rewrite Hb, (skip_ws_blank t H).
  replace (2 * List.length t + 1)%nat with (S (2 * List.length t)) by lia.
  reflexivity.
Qed.

(** X11: an empty or blank file is not served.  When the sample graph
    file holds nothing but spaces, tabs, carriage returns and line
    feeds, and in particular when it is empty, [json.load] raises
    [JSONDecodeError] and the connection is closed without a
    response. *)
Theorem blank_file_is_rejected
  (target : text) (s : process) (parsed : ParseResult) (content : bytes) :
  urlparse target = Ok parsed ->
  url_path parsed = str "/api/sample-graph" ->
  fs s (SAMPLE_GRAPH_PATH script) = RegularFile content ->
  forallb is_ws (map Byte.to_N content) = true ->
  file_json content = Raise JSONDecodeError
  /\ fst (handle_request script target s)
     = Ok (ConnectionClosed JSONDecodeError).
Proof.
  intros Hu Hp Hfs Hws.
  assert (Hj : file_json content = Raise JSONDecodeError).
  { unfold file_json, read_text.
    rewrite (utf8_decode_ascii _ (blank_ascii _ Hws)). cbn [bind].
    apply json_loads_blank, universal_newlines_blank, Hws. }
  split; [exact Hj|].
  apply (closed_connection target s parsed content _ Hu Hp Hfs Hj).
Qed.

End Files.

(** * Examples

    The theorems above at the deployment under [/srv/app], run by the
    reference interpreter. *)

Lemma one_float_laws : PyFloatLaws one_float.
Proof. split; intros []; reflexivity. Qed.

#[local] Existing Instance one_float.
#[local] Existing Instance reference_lib.

(** A file that holds [{] gets no response, hence no 500. *)
Lemma invalid_sample_graph_gets_no_500 :
  fs (example_process (file_of (str "{")) None)
     (@SAMPLE_GRAPH_PATH example_script)
  = file_of (str "{")
  /\ @file_json one_float reference_lib (map byte_of_N (str "{"))
     = Raise JSONDecodeError
  /\ fst (@handle_request one_float reference_lib example_script
            (str "/api/sample-graph")
            (example_process (file_of (str "{")) None))
     = Ok (ConnectionClosed JSONDecodeError)
  /\ ~ responds_with 500
         (fst (@handle_request one_float reference_lib example_script
                 (str "/api/sample-graph")
                 (example_process (file_of (str "{")) None))).
Proof.
  split; [reflexivity|]. split; [vm_compute; reflexivity|].
  split; [vm_compute; reflexivity|].
  intros (self & H & _). vm_compute in H. discriminate.
Qed.

Lemma invalid_sample_graph_closes_connection_witness :
  @urlparse reference_lib (str "/api/sample-graph")
  = Ok (example_parsed (str "/api/sample-graph") [])
  /\ @file_json one_float reference_lib (map byte_of_N (str "{"))
     = Raise JSONDecodeError
  /\ @handle_request one_float reference_lib example_script
       (str "/api/sample-graph") (example_process (file_of (str "{")) None)
     = (Ok (ConnectionClosed JSONDecodeError),
        print_stderr (str "Exception occurred during processing of request")
          (log_open (@SAMPLE_GRAPH_PATH example_script) (str "r")
             (example_process (file_of (str "{")) None))).
Proof.
  split; [reflexivity|]. split; [vm_compute; reflexivity|].
  apply (@invalid_sample_graph_closes_connection one_float reference_lib
           example_script (str "/api/sample-graph")
           (example_process (file_of (str "{")) None)
           (example_parsed (str "/api/sample-graph") [])
           (map byte_of_N (str "{")) JSONDecodeError);
    vm_compute; reflexivity.
Defined.




Lemma health_is_always_ok_witness :
  @urlparse reference_lib (str "/api/health?probe=1")
  = Ok (example_parsed (str "/api/health") (str "probe=1"))
  /\ exists body,
       @handle_request one_float reference_lib example_script
         (str "/api/health?probe=1")
         (example_process (file_of (str "{")) None)
       = (Ok (Response (json_response (str "/api/health?probe=1") 200 body)),
          example_process (file_of (str "{")) None)
       /\ List.length body = 88%nat.
Proof.
  split; [reflexivity|].
  destruct (@health_is_always_ok one_float reference_lib example_script
              (str "/api/health?probe=1")
              (example_process (file_of (str "{")) None)
              (example_parsed (str "/api/health") (str "probe=1"))
              eq_refl eq_refl)
    as (body & Hget & Hreq & _).
  exists body. split; [exact Hreq|].
  apply (f_equal (fun r => match fst r with
                           | Ok (Json self) => List.length (wfile self)
                           | _ => 0%nat
                           end)) in Hget.
  change (List.length body) with
    (match fst (Ok (Json (json_response (str "/api/health?probe=1") 200 body)),
                example_process (file_of (str "{")) None) with
     | Ok (Json self) => List.length (wfile self)
     | _ => 0%nat
     end).
  rewrite <- Hget. vm_compute. reflexivity.
Defined.

Lemma json_responses_carry_headers_witness :
  exists self,
    fst (do_GET example_script (new_handler (str "/api/health"))
           (example_process Absent None))
    = Ok (Json self)
    /\ In (str "Content-Length",
           int_repr (Z.of_nat (List.length (wfile self))))
          (headers_buffer self)
    /\ In (str "Access-Control-Allow-Origin", str "*") (headers_buffer self).
Proof.
  destruct (send_json_ascii (str "/api/health") HTTPStatus_OK health_payload
              eq_refl within_health_payload) as (body & _ & _ & Hsend).
  assert (Hget : do_GET example_script (new_handler (str "/api/health"))
                   (example_process Absent None)
                 = (Ok (Json (json_response (str "/api/health") 200 body)),
                    example_process Absent None)).
  { rewrite (do_GET_health example_script (str "/api/health")
               (example_process Absent None)
               (example_parsed (str "/api/health") []) eq_refl eq_refl).
    rewrite Hsend. reflexivity. }
  exists (json_response (str "/api/health") 200 body).
  split; [rewrite Hget; reflexivity|].
  destruct (json_responses_carry_headers example_script (str "/api/health")
              (example_process Absent None) (example_process Absent None)
              (json_response (str "/api/health") 200 body) Hget)
    as (Hh & _).
  rewrite Hh. split; cbn [In]; auto 10.
Defined.



Lemma routing_on_parsed_path_witness :
  urlparse (str "/api/health?x=1")
  = Ok (example_parsed (str "/api/health") (str "x=1"))
  /\ strip_query (str "/api/health?x=1") = str "/api/health"
  /\ is_static (fst (do_GET example_script
                       (new_handler (str "/api/health?x=1"))
                       (example_process Absent None))) = false
  /\ do_GET example_script (new_handler (str "/api/health/"))
       (example_process Absent None)
     = (Ok (Static (new_handler (str "/api/health/"))),
        example_process Absent None).
Proof.
  split; [reflexivity|].
  destruct (routing_on_parsed_path example_script (str "/api/health?x=1")
              (example_process Absent None)
              (example_parsed (str "/api/health") (str "x=1")) eq_refl)
    as (_ & _ & Hq & Hm & _).
  split; [symmetry; apply Hq; reflexivity|].
  split; [apply Hm; left; reflexivity|].
  apply (routing_on_parsed_path example_script (str "/api/health/")
           (example_process Absent None)
           (example_parsed (str "/api/health/") []) eq_refl);
    cbn [url_path example_parsed]; intros H; apply text_eqb_eq in H;
    vm_compute in H; discriminate.
Defined.

(** The target [/api/health;v=1] has no query string and is neither of
    the two literal paths, yet the handler answers it as the health
    endpoint. *)
Lemma parameters_are_not_part_of_the_path :
  strip_query (str "/api/health;v=1") = str "/api/health;v=1"
  /\ str "/api/health;v=1" <> str "/api/health"
  /\ str "/api/health;v=1" <> str "/api/sample-graph"
  /\ urlparse (str "/api/health;v=1")
     = Ok {| url_scheme := []; url_netloc := []; url_path := str "/api/health";
             url_params := str "v=1"; url_query := []; url_fragment := [] |}
  /\ is_static (fst (do_GET example_script
                       (new_handler (str "/api/health;v=1"))
                       (example_process Absent None))) = false
  /\ responds_with 200
       (fst (handle_request example_script (str "/api/health;v=1")
               (example_process Absent None))).
Proof.
  split; [reflexivity|]. split; [discriminate|]. split; [discriminate|].
  split; [reflexivity|]. split; [vm_compute; reflexivity|].
  eexists. split; [vm_compute; reflexivity|reflexivity].
Qed.

Lemma sample_graph_path_is_fixed_witness :
  SAMPLE_GRAPH_PATH example_script
  = {| root := Root;
       parts := [str "srv"; str "app"; str "data";
                 str "sample-graph.json"] |}
  /\ exists l,
       opened (snd (main example_script
                      (example_world None
                         [Request (str "/api/sample-graph");
                          Request (str "/index.html");
                          Request (str "/api/sample-graph?again")])
                      [str "--root"; str "dist"]
                      (example_site (file_of example_graph) [x3c; x70; x3e])))
       = [] ++ l
       /\ Forall (fun pm => snd pm = str "r" \/ snd pm = str "rb") l
       /\ l = [ (SAMPLE_GRAPH_PATH example_script, str "r");
                (example_index, str "rb");
                (SAMPLE_GRAPH_PATH example_script, str "r") ].
Proof.
  destruct (sample_graph_path_is_fixed example_script
              (example_world None
                 [Request (str "/api/sample-graph");
                  Request (str "/index.html");
                  Request (str "/api/sample-graph?again")])
              [str "--root"; str "dist"]
              (example_site (file_of example_graph) [x3c; x70; x3e]))
    as (Hpath & _ & _ & _ & _ & (l & Hl & Hall) & _).
  split; [rewrite Hpath; reflexivity|].
  exists l. split; [exact Hl|]. split; [exact Hall|].
  cbn [app opened example_site] in Hl. rewrite <- Hl.
  vm_compute. reflexivity.
Defined.


Lemma port_default_is_read_eagerly_witness :
  environ (example_process Absent (Some (str "abc"))) (str "PORT")
  = Some (str "abc")
  /\ int_of_str (str "abc") = None
  /\ parse_args [str "--port"; str "8080"]
       (example_process Absent (Some (str "abc")))
     = Raise ValueError
  /\ main example_script (example_world None [])
       [str "--port"; str "8080"]
       (example_process Absent (Some (str "abc")))
     = (Uncaught ValueError, example_process Absent (Some (str "abc")))
  /\ parse_args [str "--port"; str "8080"] (example_process Absent None)
     = Ok {| args_host := str "127.0.0.1"; args_port := 8080;
             args_root := str "dist" |}.
Proof.
  split; [reflexivity|]. split; [reflexivity|].
  destruct (port_default_is_read_eagerly example_script
              (example_world None []) [str "--port"; str "8080"]
              (example_process Absent (Some (str "abc"))))
    as (H & _).
  destruct (H (str "abc") eq_refl eq_refl) as (Hp & Hm & _).
  split; [exact Hp|]. split; [exact Hm|].
  vm_compute. reflexivity.
Defined.

(** ** The further properties at the deployment *)




Lemma query_string_changes_nothing_witness :
  outcome (fst (do_GET example_script
                  (new_handler (str "/api/sample-graph?v=1&x;y#z"))
                  (example_process (file_of example_graph) None)))
  = outcome (fst (do_GET example_script
                    (new_handler (str "/api/sample-graph"))
                    (example_process (file_of example_graph) None))).
Proof.
  apply (query_string_changes_nothing example_script
           (str "/api/sample-graph") (str "v=1&x;y#z")
           (example_process (file_of example_graph) None));
    reflexivity.
Defined.

Lemma sample_graph_directory_closes_connection_witness :
  fs (example_process Directory None) (SAMPLE_GRAPH_PATH example_script)
  = Directory
  /\ fst (handle_request example_script (str "/api/sample-graph")
            (example_process Directory None))
     = Ok (ConnectionClosed IsADirectoryError).
Proof.
  split; [reflexivity|].
  apply (sample_graph_directory_closes_connection example_script
           (str "/api/sample-graph") (example_process Directory None)
           (example_parsed (str "/api/sample-graph") [])
           eq_refl eq_refl eq_refl).
Defined.

Lemma byte_order_mark_is_rejected_witness :
  file_json (xef :: xbb :: xbf :: map byte_of_N (str "{}"))
  = Raise JSONDecodeError
  /\ file_json (map byte_of_N (str "{}")) = Ok (JDict []).
Proof.
  split; [|vm_compute; reflexivity].
  apply (byte_order_mark_is_rejected example_script
           (str "/api/sample-graph")
           (example_process
              (RegularFile (xef :: xbb :: xbf :: map byte_of_N (str "{}")))
              None)
           (example_parsed (str "/api/sample-graph") [])
           (map byte_of_N (str "{}")) eq_refl eq_refl eq_refl).
Defined.

Lemma bytes_outside_utf8_are_rejected_witness :
  existsb never_utf8 (map Byte.to_N [xff; xfe; x7b; x00; x7d; x00]) = true
  /\ fst (handle_request example_script (str "/api/sample-graph")
            (example_process
               (RegularFile [xff; xfe; x7b; x00; x7d; x00]) None))
     = Ok (ConnectionClosed UnicodeDecodeError).
Proof.
  split; [reflexivity|].
  apply (bytes_outside_utf8_are_rejected example_script
           (str "/api/sample-graph")
           (example_process
              (RegularFile [xff; xfe; x7b; x00; x7d; x00]) None)
           (example_parsed (str "/api/sample-graph") [])
           [xff; xfe; x7b; x00; x7d; x00] eq_refl eq_refl eq_refl eq_refl).
Defined.

Lemma blank_file_is_rejected_witness :
  fst (handle_request example_script (str "/api/sample-graph")
         (example_process (RegularFile []) None))
  = Ok (ConnectionClosed JSONDecodeError)
  /\ fst (handle_request example_script (str "/api/sample-graph")
            (example_process (RegularFile [x20; x0d; x0a; x09]) None))
     = Ok (ConnectionClosed JSONDecodeError).
Proof.
  split.
  - apply (blank_file_is_rejected example_script (str "/api/sample-graph")
             (example_process (RegularFile []) None)
             (example_parsed (str "/api/sample-graph") [])
             [] eq_refl eq_refl eq_refl eq_refl).
  - apply (blank_file_is_rejected example_script (str "/api/sample-graph")
             (example_process (RegularFile [x20; x0d; x0a; x09]) None)
             (example_parsed (str "/api/sample-graph") [])
             [x20; x0d; x0a; x09] eq_refl eq_refl eq_refl eq_refl).
Defined.
